(** * TransferMap: the query server, the store it reads, and the pipeline
      that fills it

    A shallow embedding of [server/index.js]: the helper [normalizeGT], the
    four tables declared by the [CREATE TABLE] statements together with the
    constraints SQLite enforces on them, the seed block, and the handler of
    [GET /api/equivalents].  The scraper ([scraper/], Python) is not among
    the sources; where a property rests on it, its normalizer, persister,
    rate limiter and fetcher are modelled from the specification, in the
    modules [Scraper] and [Crawler].

    Strings are sequences of the code units U+0000 to U+00FF.  On those
    [trim] and the regular expression classes [\s], [\d] and [[A-Z]] are
    modelled exactly, and so is [toUpperCase] wherever the capital form is
    made of such units: that excludes the micro sign (unit 181, capital
    U+039C) and y with diaeresis (unit 255, capital U+0178), which the model
    leaves as they are.  [Js.upperFits] holds of the strings without these
    two units. *)

From Stdlib Require Import List String Ascii Bool Arith ZArith QArith Lia Lqa.
From Stdlib Require Import Permutation Sorted OrdersEx RelationClasses.
Import ListNotations.

Set Warnings "-register-all".

Close Scope Q_scope.
Open Scope string_scope.

(** ** JavaScript strings *)

Module Js.

(** White space of [\s] and of [String.prototype.trim] among the units:
    TAB, LF, VT, FF, CR, SPACE and the no-break space U+00A0. *)
Definition isSpace (c : ascii) : bool :=
  let n := nat_of_ascii c in
  (((9 <=? n) && (n <=? 13)) || (n =? 32) || (n =? 160))%nat.

(** [\d] *)
Definition isDigit (c : ascii) : bool :=
  let n := nat_of_ascii c in ((48 <=? n) && (n <=? 57))%nat.

(** [[A-Z]] *)
Definition isUpper (c : ascii) : bool :=
  let n := nat_of_ascii c in ((65 <=? n) && (n <=? 90))%nat.

Definition isLower (c : ascii) : bool :=
  let n := nat_of_ascii c in ((97 <=? n) && (n <=? 122))%nat.

(** The small letters of U+00E0 to U+00FE, whose capitals are 32 units
    below them; unit 247 is the division sign. *)
Definition isLowerLatin1 (c : ascii) : bool :=
  let n := nat_of_ascii c in ((224 <=? n) && (n <=? 254) && negb (n =? 247))%nat.

(** The capital form of one unit.  The sharp s (unit 223) becomes [SS];
    the capitals of units 181 and 255 are not units of these strings. *)
Definition upperChar (c : ascii) : string :=
  let n := nat_of_ascii c in
  if isLower c || isLowerLatin1 c then String (ascii_of_nat (n - 32)) EmptyString
  else if (n =? 223)%nat then "SS"
  else String c EmptyString.

Fixpoint toUpperCase (s : string) : string :=
  match s with
  | EmptyString => EmptyString
  | String c r => upperChar c ++ toUpperCase r
  end.

(** The capital form of every unit of [s] is made of units of these
    strings: [s] holds neither unit 181 nor unit 255. *)
Fixpoint upperFits (s : string) : bool :=
  match s with
  | EmptyString => true
  | String c r =>
      negb (nat_of_ascii c =? 181)%nat && negb (nat_of_ascii c =? 255)%nat
      && upperFits r
  end.

Fixpoint trimStart (s : string) : string :=
  match s with
  | EmptyString => EmptyString
  | String c r => if isSpace c then trimStart r else s
  end.

Fixpoint trimEnd (s : string) : string :=
  match s with
  | EmptyString => EmptyString
  | String c r =>
      match trimEnd r with
      | EmptyString => if isSpace c then EmptyString else String c EmptyString
      | r' => String c r'
      end
  end.

Definition trim (s : string) : string := trimEnd (trimStart s).

(** [s.replace(/\s*/g, '')]: every run of white space is replaced by the
    empty string (the empty matches between other characters as well), so
    exactly the white-space characters disappear. *)
Fixpoint removeSpaces (s : string) : string :=
  match s with
  | EmptyString => EmptyString
  | String c r => if isSpace c then removeSpaces r else String c (removeSpaces r)
  end.

(** The longest prefix of [s] whose characters satisfy [p], and the rest. *)
Fixpoint span (p : ascii -> bool) (s : string) : string * string :=
  match s with
  | EmptyString => (EmptyString, EmptyString)
  | String c r =>
      if p c then let (a, b) := span p r in (String c a, b)
      else (EmptyString, s)
  end.

(** [s.replace(/^([A-Z]+)(\d+)/, '$1 $2')].  Both groups are greedy and a
    shorter run of letters is never followed by a digit, so the pattern
    matches exactly when the longest run of leading capitals is not empty
    and a digit follows it; only the matched prefix is rewritten. *)
Definition spaceAfterLetters (s : string) : string :=
  let (letters, rest) := span isUpper s in
  let (digits, tail) := span isDigit rest in
  match letters, digits with
  | String _ _, String _ _ => letters ++ " " ++ digits ++ tail
  | _, _ => s
  end.

(** The values Express puts in [req.query]: a string, an array (a repeated
    parameter) or an object (a bracketed one). *)
Inductive value : Type :=
| VString (s : string)
| VArray (l : list value)
| VObject.

Fixpoint join (sep : string) (l : list string) : string :=
  match l with
  | [] => EmptyString
  | [s] => s
  | s :: r => s ++ sep ++ join sep r
  end.

(** [String(v)]: an array is joined with commas, a plain object prints as
    [[object Object]]. *)
Fixpoint toString (v : value) : string :=
  match v with
  | VString s => s
  | VArray l => join "," (map toString l)
  | VObject => "[object Object]"
  end.

(** [String(input || '')], where [None] is [undefined]: [undefined] and the
    empty string are the falsy inputs. *)
Definition stringOrEmpty (input : option value) : string :=
  match input with
  | None => EmptyString
  | Some v => toString v
  end.

End Js.

(** ** normalizeGT (server/index.js, lines 85-89) *)

Definition normalizeGT (input : option Js.value) : string :=
  let raw := Js.toUpperCase (Js.trim (Js.stringOrEmpty input)) in
  match raw with
  | EmptyString => EmptyString
  | _ => Js.spaceAfterLetters (Js.removeSpaces raw)
  end.

(** The query parameter [gt] given as one string. *)
Definition gtParam (s : string) : option Js.value := Some (Js.VString s).

(** ** The store (server/index.js, lines 15-55)

    One record per table row, one module per table, named as in the
    [CREATE TABLE] statements.  A table keeps its rows in rowid order and,
    for [AUTOINCREMENT], the largest rowid it ever handed out (the
    [sqlite_sequence] entry).  Column values are typed; [NULL], which every
    column excludes with [NOT NULL], is not among them. *)

Module School.
Record row := { id : Z; name : string }.
End School.

Module GTCourse.
Record row := { id : Z; code : string; title : string; creditHours : Q }.
End GTCourse.

Module ExternalCourse.
Record row :=
  { id : Z; schoolId : Z; code : string; title : string; creditHours : Q }.
End ExternalCourse.

Module Equivalency.
Record row :=
  { id : Z; gtCourseId : Z; schoolId : Z;
    externalCourseCode : string; semester : string }.
End Equivalency.

Record table (R : Type) := { rows : list R; seq : Z }.
Arguments rows {R} _.
Arguments seq {R} _.

Record Store := {
  School : table School.row;
  GTCourse : table GTCourse.row;
  ExternalCourse : table ExternalCourse.row;
  Equivalency : table Equivalency.row
}.

(** The database right after the [CREATE TABLE IF NOT EXISTS] statements ran
    on a new file. *)
Definition emptyTable {R : Type} : table R := {| rows := []; seq := 0 |}.
Definition emptyStore : Store :=
  {| School := emptyTable; GTCourse := emptyTable;
     ExternalCourse := emptyTable; Equivalency := emptyTable |}.

Definition withSchool (db : Store) (t : table School.row) : Store :=
  {| School := t; GTCourse := GTCourse db;
     ExternalCourse := ExternalCourse db; Equivalency := Equivalency db |}.
Definition withGTCourse (db : Store) (t : table GTCourse.row) : Store :=
  {| School := School db; GTCourse := t;
     ExternalCourse := ExternalCourse db; Equivalency := Equivalency db |}.
Definition withExternalCourse (db : Store) (t : table ExternalCourse.row) : Store :=
  {| School := School db; GTCourse := GTCourse db;
     ExternalCourse := t; Equivalency := Equivalency db |}.
Definition withEquivalency (db : Store) (t : table Equivalency.row) : Store :=
  {| School := School db; GTCourse := GTCourse db;
     ExternalCourse := ExternalCourse db; Equivalency := t |}.

(** *** Statements

    Statements run on the connection the module opens, on which line 15 sets
    [PRAGMA foreign_keys = ON].  A statement either returns a value or throws
    the error of the constraint it violated; a statement that throws changes
    nothing, and the statements that ran before it stay committed.  [UNIQUE]
    compares text with the default [BINARY] collation, that is, for
    equality. *)

Inductive sqliteError : Type :=
| SQLITE_CONSTRAINT_UNIQUE
| SQLITE_CONSTRAINT_FOREIGNKEY.

Definition stmt (A : Type) : Type := Store -> (A + sqliteError) * Store.

Definition ret {A : Type} (a : A) : stmt A := fun db => (inl a, db).
Definition throw {A : Type} (e : sqliteError) : stmt A := fun db => (inr e, db).
Definition bind {A B : Type} (c : stmt A) (k : A -> stmt B) : stmt B :=
  fun db =>
    match c db with
    | (inl a, db') => k a db'
    | (inr e, db') => (inr e, db')
    end.

Notation "x <- c ;; k" := (bind c (fun x => k))
  (at level 61, c at next level, right associativity).
Notation "c ;;; k" := (bind c (fun _ => k))
  (at level 61, right associativity).

Definition append {R : Type} (t : table R) (newId : Z) (r : R) : table R :=
  {| rows := rows t ++ [r]; seq := newId |}.

Definition keep {R : Type} (p : R -> bool) (t : table R) : table R :=
  {| rows := filter p (rows t); seq := seq t |}.

Definition replaced {R : Type} (rowid : R -> Z) (i : Z) (r : R) (l : list R) : list R :=
  map (fun old => if (rowid old =? i)%Z then r else old) l.

Definition replaceRow {R : Type} (rowid : R -> Z) (i : Z) (r : R) (t : table R) : table R :=
  {| rows := replaced rowid i r (rows t); seq := seq t |}.

Definition hasId {R : Type} (rowid : R -> Z) (i : Z) (t : table R) : bool :=
  existsb (fun r => rowid r =? i)%Z (rows t).

Section Statements.
Open Scope Z_scope.

(** [INSERT INTO School(name) VALUES (?)] *)
Definition insSchool (name : string) : stmt Z := fun db =>
  if existsb (fun s => String.eqb (School.name s) name) (rows (School db))
  then throw SQLITE_CONSTRAINT_UNIQUE db
  else
    let i := seq (School db) + 1 in
    ret i (withSchool db (append (School db) i {| School.id := i; School.name := name |})).

(** [INSERT INTO GTCourse(code, title, creditHours) VALUES (?, ?, ?)] *)
Definition insGT (code title : string) (creditHours : Q) : stmt Z := fun db =>
  if existsb (fun g => String.eqb (GTCourse.code g) code) (rows (GTCourse db))
  then throw SQLITE_CONSTRAINT_UNIQUE db
  else
    let i := seq (GTCourse db) + 1 in
    ret i (withGTCourse db (append (GTCourse db) i
             {| GTCourse.id := i; GTCourse.code := code;
                GTCourse.title := title; GTCourse.creditHours := creditHours |})).

(** [INSERT INTO ExternalCourse(schoolId, code, title, creditHours)
    VALUES (?, ?, ?, ?)] *)
Definition insExt (schoolId : Z) (code title : string) (creditHours : Q) : stmt Z :=
  fun db =>
  if existsb (fun x => (ExternalCourse.schoolId x =? schoolId)
                       && String.eqb (ExternalCourse.code x) code)
             (rows (ExternalCourse db))
  then throw SQLITE_CONSTRAINT_UNIQUE db
  else if negb (hasId School.id schoolId (School db))
  then throw SQLITE_CONSTRAINT_FOREIGNKEY db
  else
    let i := seq (ExternalCourse db) + 1 in
    ret i (withExternalCourse db (append (ExternalCourse db) i
             {| ExternalCourse.id := i; ExternalCourse.schoolId := schoolId;
                ExternalCourse.code := code; ExternalCourse.title := title;
                ExternalCourse.creditHours := creditHours |})).

Definition sameFact (gtCourseId schoolId : Z) (externalCourseCode : string)
    (e : Equivalency.row) : bool :=
  (Equivalency.gtCourseId e =? gtCourseId)
  && (Equivalency.schoolId e =? schoolId)
  && String.eqb (Equivalency.externalCourseCode e) externalCourseCode.

(** [INSERT INTO Equivalency(gtCourseId, schoolId, externalCourseCode,
    semester) VALUES (?, ?, ?, ?)] *)
Definition insEq (gtCourseId schoolId : Z) (externalCourseCode semester : string)
    : stmt Z := fun db =>
  if existsb (sameFact gtCourseId schoolId externalCourseCode) (rows (Equivalency db))
  then throw SQLITE_CONSTRAINT_UNIQUE db
  else if negb (hasId GTCourse.id gtCourseId (GTCourse db)
                && hasId School.id schoolId (School db))
  then throw SQLITE_CONSTRAINT_FOREIGNKEY db
  else
    let i := seq (Equivalency db) + 1 in
    ret i (withEquivalency db (append (Equivalency db) i
             {| Equivalency.id := i; Equivalency.gtCourseId := gtCourseId;
                Equivalency.schoolId := schoolId;
                Equivalency.externalCourseCode := externalCourseCode;
                Equivalency.semester := semester |})).

(** [DELETE FROM School WHERE id = ?].  When the row exists it goes, and
    [ON DELETE CASCADE] removes the external courses and equivalencies
    that reference it; when no row has the id nothing is deleted and
    nothing cascades. *)
Definition delSchool (i : Z) : stmt unit := fun db =>
  if negb (hasId School.id i (School db)) then ret tt db
  else
    ret tt
      {| School := keep (fun s => negb (School.id s =? i)) (School db);
         GTCourse := GTCourse db;
         ExternalCourse :=
           keep (fun x => negb (ExternalCourse.schoolId x =? i)) (ExternalCourse db);
         Equivalency :=
           keep (fun e => negb (Equivalency.schoolId e =? i)) (Equivalency db) |}.

(** [DELETE FROM GTCourse WHERE id = ?], cascading to the equivalencies of
    the deleted row. *)
Definition delGT (i : Z) : stmt unit := fun db =>
  if negb (hasId GTCourse.id i (GTCourse db)) then ret tt db
  else
    ret tt
      {| School := School db;
         GTCourse := keep (fun g => negb (GTCourse.id g =? i)) (GTCourse db);
         ExternalCourse := ExternalCourse db;
         Equivalency :=
           keep (fun e => negb (Equivalency.gtCourseId e =? i)) (Equivalency db) |}.

(** [DELETE FROM ExternalCourse WHERE id = ?] *)
Definition delExt (i : Z) : stmt unit := fun db =>
  ret tt (withExternalCourse db
            (keep (fun x => negb (ExternalCourse.id x =? i)) (ExternalCourse db))).

(** [DELETE FROM Equivalency WHERE id = ?] *)
Definition delEq (i : Z) : stmt unit := fun db =>
  ret tt (withEquivalency db
            (keep (fun e => negb (Equivalency.id e =? i)) (Equivalency db))).

(** [UPDATE School SET name = ? WHERE id = ?].  An update that matches no
    row checks nothing. *)
Definition updSchool (i : Z) (name : string) : stmt unit := fun db =>
  if negb (hasId School.id i (School db)) then ret tt db
  else if existsb (fun s => negb (School.id s =? i) && String.eqb (School.name s) name)
                  (rows (School db))
  then throw SQLITE_CONSTRAINT_UNIQUE db
  else ret tt (withSchool db
                 (replaceRow School.id i {| School.id := i; School.name := name |}
                             (School db))).

(** [UPDATE GTCourse SET code = ?, title = ?, creditHours = ? WHERE id = ?] *)
Definition updGT (i : Z) (code title : string) (creditHours : Q) : stmt unit :=
  fun db =>
  if negb (hasId GTCourse.id i (GTCourse db)) then ret tt db
  else if existsb (fun g => negb (GTCourse.id g =? i)
                            && String.eqb (GTCourse.code g) code)
                  (rows (GTCourse db))
  then throw SQLITE_CONSTRAINT_UNIQUE db
  else ret tt (withGTCourse db
                 (replaceRow GTCourse.id i
                    {| GTCourse.id := i; GTCourse.code := code;
                       GTCourse.title := title; GTCourse.creditHours := creditHours |}
                    (GTCourse db))).

(** [UPDATE ExternalCourse SET schoolId = ?, code = ?, title = ?,
    creditHours = ? WHERE id = ?] *)
Definition updExt (i schoolId : Z) (code title : string) (creditHours : Q)
    : stmt unit := fun db =>
  if negb (hasId ExternalCourse.id i (ExternalCourse db)) then ret tt db
  else if existsb (fun x => negb (ExternalCourse.id x =? i)
                            && (ExternalCourse.schoolId x =? schoolId)
                            && String.eqb (ExternalCourse.code x) code)
                  (rows (ExternalCourse db))
  then throw SQLITE_CONSTRAINT_UNIQUE db
  else if negb (hasId School.id schoolId (School db))
  then throw SQLITE_CONSTRAINT_FOREIGNKEY db
  else ret tt (withExternalCourse db
                 (replaceRow ExternalCourse.id i
                    {| ExternalCourse.id := i; ExternalCourse.schoolId := schoolId;
                       ExternalCourse.code := code; ExternalCourse.title := title;
                       ExternalCourse.creditHours := creditHours |}
                    (ExternalCourse db))).

(** [UPDATE Equivalency SET gtCourseId = ?, schoolId = ?,
    externalCourseCode = ?, semester = ? WHERE id = ?] *)
Definition updEq (i gtCourseId schoolId : Z) (externalCourseCode semester : string)
    : stmt unit := fun db =>
  if negb (hasId Equivalency.id i (Equivalency db)) then ret tt db
  else if existsb (fun e => negb (Equivalency.id e =? i)
                            && sameFact gtCourseId schoolId externalCourseCode e)
                  (rows (Equivalency db))
  then throw SQLITE_CONSTRAINT_UNIQUE db
  else if negb (hasId GTCourse.id gtCourseId (GTCourse db)
                && hasId School.id schoolId (School db))
  then throw SQLITE_CONSTRAINT_FOREIGNKEY db
  else ret tt (withEquivalency db
                 (replaceRow Equivalency.id i
                    {| Equivalency.id := i; Equivalency.gtCourseId := gtCourseId;
                       Equivalency.schoolId := schoolId;
                       Equivalency.externalCourseCode := externalCourseCode;
                       Equivalency.semester := semester |}
                    (Equivalency db))).

End Statements.

(** The data-changing statements a client of the connection can run. *)
Inductive statement : Type :=
| InsSchool (name : string)
| InsGT (code title : string) (creditHours : Q)
| InsExt (schoolId : Z) (code title : string) (creditHours : Q)
| InsEq (gtCourseId schoolId : Z) (externalCourseCode semester : string)
| DelSchool (id : Z)
| DelGT (id : Z)
| DelExt (id : Z)
| DelEq (id : Z)
| UpdSchool (id : Z) (name : string)
| UpdGT (id : Z) (code title : string) (creditHours : Q)
| UpdExt (id schoolId : Z) (code title : string) (creditHours : Q)
| UpdEq (id gtCourseId schoolId : Z) (externalCourseCode semester : string).

Definition run (st : statement) (db : Store) : Store :=
  match st with
  | InsSchool n => snd (insSchool n db)
  | InsGT c t h => snd (insGT c t h db)
  | InsExt s c t h => snd (insExt s c t h db)
  | InsEq g s c m => snd (insEq g s c m db)
  | DelSchool i => snd (delSchool i db)
  | DelGT i => snd (delGT i db)
  | DelExt i => snd (delExt i db)
  | DelEq i => snd (delEq i db)
  | UpdSchool i n => snd (updSchool i n db)
  | UpdGT i c t h => snd (updGT i c t h db)
  | UpdExt i s c t h => snd (updExt i s c t h db)
  | UpdEq i g s c m => snd (updEq i g s c m db)
  end.

(** The states of the store: whatever a sequence of statements makes of the
    empty database. *)
Inductive reachable : Store -> Prop :=
| reachable_empty : reachable emptyStore
| reachable_run db st : reachable db -> reachable (run st db).

(** ** The seed block (server/index.js, lines 57-82) *)

Definition seed : stmt unit :=
  gsuId <- insSchool "Georgia State University" ;;
  ksuId <- insSchool "Kennesaw State University" ;;
  cs1331Id <- insGT "CS 1331" "Introduction to Object Oriented Programming" 3%Q ;;
  cs1332Id <- insGT "CS 1332" "Data Structures and Algorithms" 3%Q ;;
  insExt gsuId "CSC 2510" "Object Oriented Programming" 3%Q ;;;
  insExt ksuId "CS 2302" "Object Oriented Programming" 3%Q ;;;
  insExt gsuId "CSC 2720" "Data Structures" 3%Q ;;;
  insEq cs1331Id gsuId "CSC 2510" "Fall 2025" ;;;
  insEq cs1331Id ksuId "CS 2302" "Fall 2025" ;;;
  insEq cs1332Id gsuId "CSC 2720" "Fall 2025" ;;;
  ret tt.

(** What the module does with the database before it starts to listen:
    [SELECT COUNT( * ) AS c FROM GTCourse], and the seed when that is 0. *)
Definition startup : stmt unit := fun db =>
  let seeded := (0 <? List.length (rows (GTCourse db)))%nat in
  if seeded then ret tt db else seed db.

(** The store of a server started on a new database file. *)
Definition seededStore : Store := snd (startup emptyStore).

(** ** GET /api/equivalents (server/index.js, lines 96-135) *)

Module Sql.

(** [REPLACE(X, ' ', '')] *)
Fixpoint replaceSpace (s : string) : string :=
  match s with
  | EmptyString => EmptyString
  | String c r =>
      if Ascii.eqb c " "%char then replaceSpace r else String c (replaceSpace r)
  end.

(** [ORDER BY] with the default [BINARY] collation, ascending: strings
    compare unit by unit and [NULL] comes before every string. *)
Definition nullableLeb (a b : option string) : bool :=
  match a, b with
  | None, _ => true
  | Some _, None => false
  | Some x, Some y => String.leb x y
  end.

Section OrderBy.
Context {A : Type} (leb : A -> A -> bool).

Fixpoint insert (x : A) (l : list A) : list A :=
  match l with
  | [] => [x]
  | y :: r => if leb x y then x :: l else y :: insert x r
  end.

Definition orderBy (l : list A) : list A := fold_right insert [] l.
End OrderBy.

End Sql.

(** One element of [items]; the three columns of the left-joined
    [ExternalCourse] are [null] ([None]) when no row joined. *)
Record Item := {
  schoolName : string;
  gtCourseCode : string;
  gtCourseName : string;
  gtCreditHours : Q;
  externalCourseCode : option string;
  externalCourseName : option string;
  externalCreditHours : option Q;
  semester : string
}.

(** [ORDER BY s.name, ec.code] *)
Definition itemLeb (a b : Item) : bool :=
  match String.compare (schoolName a) (schoolName b) with
  | Lt => true
  | Gt => false
  | Eq => Sql.nullableLeb (externalCourseCode a) (externalCourseCode b)
  end.

(** [SELECT id, code, title, creditHours FROM GTCourse
     WHERE REPLACE(code, ' ', '') = REPLACE(@c, ' ', '')], and [.get]: the
    first row of the scan, if any. *)
Definition selectGTCourse (db : Store) (c : string) : option GTCourse.row :=
  find (fun g => String.eqb (Sql.replaceSpace (GTCourse.code g)) (Sql.replaceSpace c))
       (rows (GTCourse db)).

(** The rows [LEFT JOIN ExternalCourse ec] adds to one row of the joins
    before it. *)
Definition leftJoinExternal (db : Store) (e : Equivalency.row)
    (s : School.row) (gc : GTCourse.row) : list Item :=
  let item code name hours :=
    {| schoolName := School.name s;
       gtCourseCode := GTCourse.code gc;
       gtCourseName := GTCourse.title gc;
       gtCreditHours := GTCourse.creditHours gc;
       externalCourseCode := code;
       externalCourseName := name;
       externalCreditHours := hours;
       semester := Equivalency.semester e |} in
  match filter (fun ec => (ExternalCourse.schoolId ec =? Equivalency.schoolId e)%Z
                          && String.eqb (ExternalCourse.code ec)
                                        (Equivalency.externalCourseCode e))
               (rows (ExternalCourse db)) with
  | [] => [item None None None]
  | ecs => map (fun ec => item (Some (ExternalCourse.code ec))
                               (Some (ExternalCourse.title ec))
                               (Some (ExternalCourse.creditHours ec))) ecs
  end.

(** The join of lines 113-130, [.all({ gtId })]. *)
Definition selectEquivalents (db : Store) (gtId : Z) : list Item :=
  Sql.orderBy itemLeb
    (flat_map (fun e =>
       flat_map (fun s =>
         flat_map (fun gc => leftJoinExternal db e s gc)
           (filter (fun gc => (GTCourse.id gc =? Equivalency.gtCourseId e)%Z)
                   (rows (GTCourse db))))
         (filter (fun s => (School.id s =? Equivalency.schoolId e)%Z)
                 (rows (School db))))
       (filter (fun e => (Equivalency.gtCourseId e =? gtId)%Z)
               (rows (Equivalency db)))).

(** What the handler sends: [res.status(400).json({ error })] or
    [res.json({ items, total })]. *)
Inductive response : Type :=
| Status400 (error : string)
| Json (items : list Item) (total : nat).

(** The statements the handler prepared and ran, in order. *)
Inductive query : Type :=
| SelectGTCourse (c : string)
| SelectEquivalents (gtId : Z).

Definition gtRequired : string :=
  "gt is required. Example: /api/equivalents?gt=CS1331".

Definition getEquivalents (db : Store) (gt : option Js.value) : list query * response :=
  let gtParam := normalizeGT gt in
  match gtParam with
  | EmptyString => ([], Status400 gtRequired)
  | _ =>
      match selectGTCourse db gtParam with
      | None => ([SelectGTCourse gtParam], Json [] 0)
      | Some gt =>
          let rows := selectEquivalents db (GTCourse.id gt) in
          ([SelectGTCourse gtParam; SelectEquivalents (GTCourse.id gt)],
           Json rows (List.length rows))
      end
  end.

(** ** The ingestion pipeline (scraper/)

    The Python scraper that fills the store is absent from the sources; its
    normalizer, persister and record loop are modelled from the
    specification (sections 4.3 to 4.6).  It writes through the statements
    above. *)

Module Scraper.

(** Modelled from the spec: credit hours as the extractor (section 4.3,
    missing from the sources) finds them, a number or the text of the
    cell. *)
Inductive rawCredit : Type :=
| Num (q : Q)
| Text (s : string).

(** Modelled from the spec: the raw record of the extractor (section 4.3),
    which is missing from the sources; fields as in the end-to-end scenario
    of section 8. *)
Record RawRecord := {
  school : string;
  gt : string;
  gtTitle : string;
  gtCredit : rawCredit;
  ext : string;
  extTitle : string;
  extCredit : rawCredit;
  semester : string
}.

(** Modelled from the spec: the normalizer's result (section 4.4), missing
    from the sources. *)
Record NormalizedRecord := {
  nSchool : string;
  nGt : string;
  nGtTitle : string;
  nGtCredit : Q;
  nExt : string;
  nExtTitle : string;
  nExtCredit : Q;
  nSemester : string
}.

(** Modelled from the spec: the record-level reasons of the error taxonomy
    (section 7), missing from the sources. *)
Inductive reason : Type :=
| MALFORMED_CODE
| INVALID_CREDIT_HOURS.

(** Modelled from the spec: the outcome of the persister (section 4.5),
    missing from the sources. *)
Inductive outcome : Type :=
| PERSISTED
| INTEGRITY_VIOLATION.

(** Modelled from the spec: course code normalization of the normalizer
    (section 4.4), missing from the sources: strip all white space,
    uppercase, and put a single space between the letters and the trailing
    run of digits; a code that is not LETTERS followed by DIGITS is
    malformed ([None]). *)
Definition normalizeCode (s : string) : option string :=
  let stripped := Js.toUpperCase (Js.removeSpaces s) in
  let (letters, rest) := Js.span Js.isUpper stripped in
  let (digits, tail) := Js.span Js.isDigit rest in
  match letters, digits, tail with
  | String _ _, String _ _, EmptyString => Some (letters ++ " " ++ digits)
  | _, _, _ => None
  end.

(** Modelled from the spec: collapsing internal white space (section 4.4),
    missing from the sources: every run of white space becomes one
    space. *)
Fixpoint collapseSpaces (s : string) : string :=
  match s with
  | EmptyString => EmptyString
  | String c r =>
      if Js.isSpace c then
        match r with
        | EmptyString => String " " EmptyString
        | String d _ => if Js.isSpace d then collapseSpaces r
                        else String " " (collapseSpaces r)
        end
      else String c (collapseSpaces r)
  end.

(** Modelled from the spec: school name normalization (section 4.4),
    missing from the sources: trimmed, internal white space collapsed. *)
Definition normalizeSchool (s : string) : string :=
  collapseSpaces (Js.trim s).

Section Pipeline.

(** How the text of a cell is read as a real number; the specification
    leaves the accepted numerals open, so the reader is a parameter. *)
Variable parseReal : string -> option Q.

(** Modelled from the spec: strictly positive (section 3). *)
Definition positive (q : Q) : bool := negb (Qle_bool q 0).

(** Modelled from the spec: the credit-hour rule of the normalizer
    (section 4.4), missing from the sources: parsed as a real number; a
    value that is not strictly positive or does not parse is invalid
    ([None]). *)
Definition creditHours (c : rawCredit) : option Q :=
  match c with
  | Num q => if positive q then Some q else None
  | Text s =>
      match parseReal s with
      | Some q => if positive q then Some q else None
      | None => None
      end
  end.

(** Modelled from the spec: [normalize(RawRecord) -> NormalizedRecord |
    rejected] (section 4.4), missing from the sources.  Each rule that
    fails contributes its reason, so that a record failing both is
    rejected for both. *)
Definition normalize (r : RawRecord) : NormalizedRecord + list reason :=
  let g := normalizeCode (gt r) in
  let x := normalizeCode (ext r) in
  let gh := creditHours (gtCredit r) in
  let xh := creditHours (extCredit r) in
  match g, x, gh, xh with
  | Some g', Some x', Some gh', Some xh' =>
      inl {| nSchool := normalizeSchool (school r);
             nGt := g'; nGtTitle := gtTitle r; nGtCredit := gh';
             nExt := x'; nExtTitle := extTitle r; nExtCredit := xh';
             nSemester := semester r |}
  | _, _, _, _ =>
      inr ((match g, x with Some _, Some _ => [] | _, _ => [MALFORMED_CODE] end)
           ++ (match gh, xh with
               | Some _, Some _ => []
               | _, _ => [INVALID_CREDIT_HOURS]
               end))%list
  end.

(** Modelled from the spec: step 1 of the persister's upsert policy
    (section 4.5), missing from the sources: the school's identifier,
    inserting the school if its name is new. *)
Definition upsertSchool (name : string) : stmt Z := fun db =>
  match find (fun s => String.eqb (School.name s) name) (rows (School db)) with
  | Some s => ret (School.id s) db
  | None => insSchool name db
  end.

(** Modelled from the spec: step 2 of the upsert policy, missing from the
    sources: insert the GT course if its code is new; update it in place
    if the title or the credit hours differ. *)
Definition upsertGT (code title : string) (hours : Q) : stmt Z := fun db =>
  match find (fun g => String.eqb (GTCourse.code g) code) (rows (GTCourse db)) with
  | None => insGT code title hours db
  | Some g =>
      if String.eqb (GTCourse.title g) title
         && Qeq_bool (GTCourse.creditHours g) hours
      then ret (GTCourse.id g) db
      else (updGT (GTCourse.id g) code title hours ;;; ret (GTCourse.id g)) db
  end.

(** Modelled from the spec: step 3 of the upsert policy, missing from the
    sources: the same for the external course, scoped by school. *)
Definition upsertExt (schoolId : Z) (code title : string) (hours : Q) : stmt Z :=
  fun db =>
  match find (fun x => (ExternalCourse.schoolId x =? schoolId)%Z
                       && String.eqb (ExternalCourse.code x) code)
             (rows (ExternalCourse db)) with
  | None => insExt schoolId code title hours db
  | Some x =>
      if String.eqb (ExternalCourse.title x) title
         && Qeq_bool (ExternalCourse.creditHours x) hours
      then ret (ExternalCourse.id x) db
      else (updExt (ExternalCourse.id x) schoolId code title hours ;;;
            ret (ExternalCourse.id x)) db
  end.

(** Modelled from the spec: step 4 of the upsert policy, missing from the
    sources: insert the equivalency if the triple is new; otherwise
    overwrite its semester with the one just scraped. *)
Definition upsertEq (gtCourseId schoolId : Z) (code sem : string) : stmt Z :=
  fun db =>
  match find (sameFact gtCourseId schoolId code) (rows (Equivalency db)) with
  | None => insEq gtCourseId schoolId code sem db
  | Some e =>
      if String.eqb (Equivalency.semester e) sem
      then ret (Equivalency.id e) db
      else (updEq (Equivalency.id e) gtCourseId schoolId code sem ;;;
            ret (Equivalency.id e)) db
  end.

(** Modelled from the spec: the four steps of the upsert policy in order
    (section 4.5), missing from the sources. *)
Definition upsert (n : NormalizedRecord) : stmt unit :=
  schoolId <- upsertSchool (nSchool n) ;;
  gtId <- upsertGT (nGt n) (nGtTitle n) (nGtCredit n) ;;
  upsertExt schoolId (nExt n) (nExtTitle n) (nExtCredit n) ;;;
  upsertEq gtId schoolId (nExt n) (nSemester n) ;;;
  ret tt.

(** Modelled from the spec: [persist(NormalizedRecord) -> outcome]
    (section 4.5), missing from the sources: the upsert runs in a
    transaction of its own, and a violation rolls the record back. *)
Definition persist (n : NormalizedRecord) (db : Store) : outcome * Store :=
  match upsert n db with
  | (inl _, db') => (PERSISTED, db')
  | (inr _, _) => (INTEGRITY_VIOLATION, db)
  end.

(** Modelled from the spec: the counts of the run summary (section 4.6,
    missing from the sources) that concern records. *)
Record Summary := {
  persisted : nat;
  rejected : list reason;
  duplicates : nat;
  failed : nat
}.

(** Modelled from the spec: the key on which a run suppresses duplicates
    (section 4.4), missing from the sources. *)
Definition dedupKey (n : NormalizedRecord) : string * string * string * string :=
  (nGt n, nSchool n, nExt n, nSemester n).

(** Modelled from the spec: equality of deduplication keys (section 4.4),
    missing from the sources. *)
Definition sameKey (a b : string * string * string * string) : bool :=
  let '(a1, a2, a3, a4) := a in
  let '(b1, b2, b3, b4) := b in
  String.eqb a1 b1 && String.eqb a2 b2 && String.eqb a3 b3 && String.eqb a4 b4.

(** Modelled from the spec: the state of a run over records: the store,
    the keys seen and the summary (sections 4.4 and 4.6), missing from
    the sources. *)
Record Run := {
  store : Store;
  seen : list (string * string * string * string);
  summary : Summary
}.

(** Modelled from the spec: the start of a run (section 4.6), missing
    from the sources: nothing seen, nothing counted. *)
Definition start (db : Store) : Run :=
  {| store := db; seen := [];
     summary := {| persisted := 0; rejected := []; duplicates := 0; failed := 0 |} |}.

(** Modelled from the spec: one record through normalizer and persister
    (sections 4.4 to 4.6), missing from the sources: a rejected record is
    counted under its reasons and goes no further, a duplicate of a
    record seen in this run is suppressed, and a record that fails to
    persist is counted and leaves the store as it was. *)
Definition processRecord (st : Run) (r : RawRecord) : Run :=
  let sm := summary st in
  match normalize r with
  | inr reasons =>
      {| store := store st; seen := seen st;
         summary := {| persisted := persisted sm;
                       rejected := (rejected sm ++ reasons)%list;
                       duplicates := duplicates sm; failed := failed sm |} |}
  | inl n =>
      if existsb (sameKey (dedupKey n)) (seen st)
      then {| store := store st; seen := seen st;
              summary := {| persisted := persisted sm; rejected := rejected sm;
                            duplicates := S (duplicates sm); failed := failed sm |} |}
      else
        match persist n (store st) with
        | (PERSISTED, db') =>
            {| store := db'; seen := (seen st ++ [dedupKey n])%list;
               summary := {| persisted := S (persisted sm); rejected := rejected sm;
                             duplicates := duplicates sm; failed := failed sm |} |}
        | (INTEGRITY_VIOLATION, db') =>
            {| store := db'; seen := (seen st ++ [dedupKey n])%list;
               summary := {| persisted := persisted sm; rejected := rejected sm;
                             duplicates := duplicates sm; failed := S (failed sm) |} |}
        end
  end.

(** Modelled from the spec: the records of a run, in order (section 4.6),
    missing from the sources. *)
Definition processRecords (records : list RawRecord) (db : Store) : Run :=
  fold_left processRecord records (start db).

End Pipeline.

End Scraper.

(** ** Notions the statements below are written with *)

(** Every character of [s] satisfies [p]. *)
Fixpoint allChars (p : ascii -> bool) (s : string) : bool :=
  match s with
  | EmptyString => true
  | String c r => p c && allChars p r
  end.

(** A unit that is its own capital form. *)
Definition upperStable (c : ascii) : bool :=
  String.eqb (Js.upperChar c) (String c EmptyString).

(** The white-space-stripped, uppercased form of a course code. *)
Definition stripUpper (s : string) : string :=
  Js.removeSpaces (Js.toUpperCase s).

(** [^[A-Z]+\d+$]: the whole string is LETTERS followed by DIGITS. *)
Definition lettersThenDigits (s : string) : bool :=
  let (letters, rest) := Js.span Js.isUpper s in
  let (digits, tail) := Js.span Js.isDigit rest in
  match letters, digits, tail with
  | String _ _, String _ _, EmptyString => true
  | _, _, _ => false
  end.

(** LETTERS followed by DIGITS: one capital letter or more, then one digit
    or more, and nothing else. *)
Definition lettersDigits (s : string) : Prop :=
  exists letters digits,
    s = letters ++ digits
    /\ letters <> EmptyString /\ allChars Js.isUpper letters = true
    /\ digits <> EmptyString /\ allChars Js.isDigit digits = true.

(** [^[A-Z]+\d]: the string starts with LETTERS followed by a digit. *)
Definition startsLettersDigit (s : string) : bool :=
  let (letters, rest) := Js.span Js.isUpper s in
  match letters, rest with
  | String _ _, String d _ => Js.isDigit d
  | _, _ => false
  end.

(** Only white space. *)
Fixpoint isBlank (s : string) : bool :=
  match s with
  | EmptyString => true
  | String c r => Js.isSpace c && isBlank r
  end.

(** [s] with its spaces removed: the units of [s] other than the space, in
    their order. *)
Definition withoutSpaces (s : string) : string :=
  string_of_list_ascii
    (filter (fun c => negb (Ascii.eqb c " "%char)) (list_ascii_of_string s)).

(** The order of text: [a] comes before [b] when [a] is a proper prefix of
    [b], or holds the smaller unit at the first place where the two
    differ. *)
Inductive strLt : string -> string -> Prop :=
| strLt_prefix c b : strLt EmptyString (String c b)
| strLt_unit c d a b :
    (nat_of_ascii c < nat_of_ascii d)%nat -> strLt (String c a) (String d b)
| strLt_rest c a b : strLt a b -> strLt (String c a) (String c b).

(** The order of a column that can be null: null first, then text in its
    order. *)
Definition nullFirst (a b : option string) : Prop :=
  match a, b with
  | None, _ => True
  | Some _, None => False
  | Some x, Some y => x = y \/ strLt x y
  end.

(** Sorted by school name first and external course code second: [a] may
    stand before [b]. *)
Definition byNameThenCode (a b : Item) : Prop :=
  strLt (schoolName a) (schoolName b)
  \/ (schoolName a = schoolName b
      /\ nullFirst (externalCourseCode a) (externalCourseCode b)).

(** The key of [UNIQUE (schoolId, code)]. *)
Definition extKey (x : ExternalCourse.row) : Z * string :=
  (ExternalCourse.schoolId x, ExternalCourse.code x).

(** The key of [UNIQUE (gtCourseId, schoolId, externalCourseCode)]. *)
Definition fact (e : Equivalency.row) : Z * Z * string :=
  (Equivalency.gtCourseId e, Equivalency.schoolId e, Equivalency.externalCourseCode e).

(** What the [CREATE TABLE] statements declare: primary keys, [UNIQUE]
    constraints and foreign keys. *)
Record schemaOk (db : Store) : Prop := {
  School_pk : NoDup (map School.id (rows (School db)));
  School_unique : NoDup (map School.name (rows (School db)));
  GTCourse_pk : NoDup (map GTCourse.id (rows (GTCourse db)));
  GTCourse_unique : NoDup (map GTCourse.code (rows (GTCourse db)));
  ExternalCourse_pk : NoDup (map ExternalCourse.id (rows (ExternalCourse db)));
  ExternalCourse_unique : NoDup (map extKey (rows (ExternalCourse db)));
  ExternalCourse_fk :
    forall x, In x (rows (ExternalCourse db)) ->
      In (ExternalCourse.schoolId x) (map School.id (rows (School db)));
  Equivalency_pk : NoDup (map Equivalency.id (rows (Equivalency db)));
  Equivalency_unique : NoDup (map fact (rows (Equivalency db)));
  Equivalency_fk_gt :
    forall e, In e (rows (Equivalency db)) ->
      In (Equivalency.gtCourseId e) (map GTCourse.id (rows (GTCourse db)));
  Equivalency_fk_school :
    forall e, In e (rows (Equivalency db)) ->
      In (Equivalency.schoolId e) (map School.id (rows (School db)))
}.

(** [AUTOINCREMENT]: no rowid of a table is above its sequence. *)
Definition seqBounds {R : Type} (rowid : R -> Z) (t : table R) : Prop :=
  forall r, In r (rows t) -> (rowid r <= seq t)%Z.

Record storeOk (db : Store) : Prop := {
  store_schema : schemaOk db;
  School_seq : seqBounds School.id (School db);
  GTCourse_seq : seqBounds GTCourse.id (GTCourse db);
  ExternalCourse_seq : seqBounds ExternalCourse.id (ExternalCourse db);
  Equivalency_seq : seqBounds Equivalency.id (Equivalency db)
}.

(** Every stored course carries strictly positive credit hours. *)
Definition creditsPositive (db : Store) : Prop :=
  (forall g, In g (rows (GTCourse db)) -> (0 < GTCourse.creditHours g)%Q)
  /\ (forall x, In x (rows (ExternalCourse db)) -> (0 < ExternalCourse.creditHours x)%Q).

(** The credit hours a statement writes, if it writes any, are strictly
    positive. *)
Definition positiveCredit (st : statement) : Prop :=
  match st with
  | InsGT _ _ h | UpdGT _ _ _ h | InsExt _ _ _ h | UpdExt _ _ _ _ h => (0 < h)%Q
  | _ => True
  end.

(** Credit hours the normalizer refuses: a number that is not strictly
    positive, or text that does not parse or parses to such a number. *)
Definition invalidCredit (parseReal : string -> option Q) (c : Scraper.rawCredit) : Prop :=
  match c with
  | Scraper.Num q => (q <= 0)%Q
  | Scraper.Text s =>
      parseReal s = None \/ exists q, parseReal s = Some q /\ (q <= 0)%Q
  end.

(** No dangling reference: every equivalency has its school and its GT
    course, every external course its school. *)
Definition referencesExist (db : Store) : Prop :=
  (forall e, In e (rows (Equivalency db)) ->
     (exists s, In s (rows (School db)) /\ School.id s = Equivalency.schoolId e)
     /\ (exists g, In g (rows (GTCourse db)) /\ GTCourse.id g = Equivalency.gtCourseId e))
  /\ (forall x, In x (rows (ExternalCourse db)) ->
        exists s, In s (rows (School db)) /\ School.id s = ExternalCourse.schoolId x).

(** The raw record of the end-to-end scenario (section 8). *)
Definition scenario : Scraper.RawRecord :=
  {| Scraper.school := "Georgia State University";
     Scraper.gt := "CS1331";
     Scraper.gtTitle := "Intro to OOP";
     Scraper.gtCredit := Scraper.Num 3%Q;
     Scraper.ext := "CSC2510";
     Scraper.extTitle := "OOP";
     Scraper.extCredit := Scraper.Num 3%Q;
     Scraper.semester := "Fall 2025" |}.

(** The scenario's record with other GT credit hours. *)
Definition scenarioWithCredit (c : Scraper.rawCredit) : Scraper.RawRecord :=
  {| Scraper.school := Scraper.school scenario;
     Scraper.gt := Scraper.gt scenario;
     Scraper.gtTitle := Scraper.gtTitle scenario;
     Scraper.gtCredit := c;
     Scraper.ext := Scraper.ext scenario;
     Scraper.extTitle := Scraper.extTitle scenario;
     Scraper.extCredit := Scraper.extCredit scenario;
     Scraper.semester := Scraper.semester scenario |}.

(** A reader of plain digit strings, for examples. *)
Fixpoint digitsValue (acc : Z) (s : string) : Z :=
  match s with
  | EmptyString => acc
  | String c r => digitsValue (10 * acc + (Z.of_nat (nat_of_ascii c) - 48))%Z r
  end.

Definition parseDigits (s : string) : option Q :=
  match s, Js.span Js.isDigit s with
  | String _ _, (_, EmptyString) => Some (inject_Z (digitsValue 0 s))
  | _, _ => None
  end.

(** [it] is the row the join of lines 113-130 makes of the equivalency [e]:
    the name of its school, the code, title and credit hours of its GT
    course, its semester, and the code, title and credit hours of the
    school's external course with the cited code, or [null] for the three
    when the school has no such course. *)
Definition itemOf (db : Store) (e : Equivalency.row) (it : Item) : Prop :=
  (exists s, In s (rows (School db))
     /\ School.id s = Equivalency.schoolId e
     /\ schoolName it = School.name s)
  /\ (exists gc, In gc (rows (GTCourse db))
        /\ GTCourse.id gc = Equivalency.gtCourseId e
        /\ gtCourseCode it = GTCourse.code gc
        /\ gtCourseName it = GTCourse.title gc
        /\ gtCreditHours it = GTCourse.creditHours gc)
  /\ semester it = Equivalency.semester e
  /\ ((exists ec, In ec (rows (ExternalCourse db))
         /\ ExternalCourse.schoolId ec = Equivalency.schoolId e
         /\ ExternalCourse.code ec = Equivalency.externalCourseCode e
         /\ externalCourseCode it = Some (ExternalCourse.code ec)
         /\ externalCourseName it = Some (ExternalCourse.title ec)
         /\ externalCreditHours it = Some (ExternalCourse.creditHours ec))
      \/ ((forall ec, In ec (rows (ExternalCourse db)) ->
             ~ (ExternalCourse.schoolId ec = Equivalency.schoolId e
                /\ ExternalCourse.code ec = Equivalency.externalCourseCode e))
          /\ externalCourseCode it = None
          /\ externalCourseName it = None
          /\ externalCreditHours it = None)).

(** [a] comes no later than [b] in the order of school name, then external
    course code. *)
Definition itemLe (a b : Item) : Prop := itemLeb a b = true.

(** The rows of one GT course. *)
Definition equivalenciesOf (db : Store) (gtId : Z) : list Equivalency.row :=
  filter (fun e => (Equivalency.gtCourseId e =? gtId)%Z) (rows (Equivalency db)).

(** A catalogue whose one GT course was stored under a lowercase code, with
    one equivalency. *)
Definition lowercaseCatalog : Store :=
  fold_left (fun db st => run st db)
    [InsSchool "Georgia State University";
     InsGT "cs 1331" "Intro to OOP" 3%Q;
     InsEq 1 1 "CSC 2510" "Fall 2025"]
    emptyStore.

(** The seeded store with a third GT course, whose code differs from that
    of the first by the space only, and an equivalency of its own. *)
Definition twoSpellings : Store :=
  fold_left (fun db st => run st db)
    [InsGT "CS1331" "Object Oriented Programming" 3%Q;
     InsEq 3 1 "CSC 9999" "Spring 2026"]
    seededStore.

(** ** Rate limiter and fetcher (scraper/)

    Modelled from the specification (sections 4.1, 4.2 and 9): the limiter
    is an owned component driven by an injected clock, time is counted in
    seconds as exact rationals, and the network is an oracle that tells, for
    each request, how long it takes and how it ends. *)

Module Crawler.

Section Fetching.

(** The recognized options [REQUESTS_PER_MINUTE] and [RETRY_MAX], and the
    base and cap of the backoff. *)
Variable REQUESTS_PER_MINUTE : positive.
Variable RETRY_MAX : nat.
Variables backoffBase backoffCap : Q.

(** Modelled from the spec: the distance between two slots of the rate
    limiter (section 4.1), missing from the sources:
    [60 / REQUESTS_PER_MINUTE] seconds. *)
Definition interval : Q := 60 # REQUESTS_PER_MINUTE.

(** Modelled from the spec: the state of the rate limiter (section 4.1),
    which is missing from the sources: the next free slot, if a request
    was granted before, and the number of grants. *)
Record Limiter := { nextSlot : option Q; granted : nat }.

(** Modelled from the spec: the limiter before its first request
    (section 4.1), missing from the sources. *)
Definition newLimiter : Limiter := {| nextSlot := None; granted := 0 |}.

(** Modelled from the spec: the later of two times, for the limiter's
    sleep (section 4.1), missing from the sources. *)
Definition later (a b : Q) : Q := if Qle_bool a b then b else a.

(** Modelled from the spec: [acquire()] (section 4.1), sleep until the
    next slot: called when the clock reads [now], it returns the time at
    which the caller may issue its request and reserves the slot after
    it. *)
Definition acquire (now : Q) (l : Limiter) : Q * Limiter :=
  let t := match nextSlot l with
           | None => now
           | Some slot => later now slot
           end in
  (t, {| nextSlot := Some (t + interval)%Q; granted := S (granted l) |}).

(** Modelled from the spec: how a request of the fetcher (section 4.2,
    missing from the sources) ends: a body, a transient failure (timeout,
    5xx, connection reset, 429) or a failure that is not retried. *)
Inductive reply : Type :=
| Body (body : string)
| TransientFailure
| FatalFailure.

(** Modelled from the spec: what the network and the source of jitter do
    with one request of the fetcher (section 4.2), missing from the
    sources. *)
Record exchange := { latency : Q; jitter : Q; result : reply }.

(** Modelled from the spec: the fetcher's errors in the taxonomy (section
    7), missing from the sources. *)
Inductive fetchError : Type :=
| NETWORK_TRANSIENT
| NETWORK_FATAL.

(** Modelled from the spec: the injected clock, the owned limiter
    (section 9) and the times at which requests went out; missing from
    the sources. *)
Record World := { clock : Q; limiter : Limiter; issued : list Q }.

(** Modelled from the spec: the start of a run (section 4.6), missing
    from the sources: a new limiter and no request yet. *)
Definition initial (now : Q) : World :=
  {| clock := now; limiter := newLimiter; issued := [] |}.

(** Modelled from the spec: the fetcher's exponential backoff,
    [base * 2^attempt], capped (section 4.2), missing from the sources. *)
Definition backoff (attempt : nat) : Q :=
  let b := (backoffBase * inject_Z (2 ^ Z.of_nat attempt))%Q in
  if Qle_bool b backoffCap then b else backoffCap.

(** Modelled from the spec: the attempts of one [fetch(url)] (section
    4.2), missing from the sources.  Every attempt first passes through
    the limiter and goes out at the time it was granted; a transient
    failure is retried after the backoff and the jitter while attempts
    are left. *)
Fixpoint attempts (left done : nat) (network : nat -> exchange) (w : World)
    : (string + fetchError) * World :=
  match left with
  | O => (inr NETWORK_TRANSIENT, w)
  | S left' =>
      let (t, lim) := acquire (clock w) (limiter w) in
      let x := network (List.length (issued w)) in
      let w1 := {| clock := (t + latency x)%Q; limiter := lim;
                   issued := (issued w ++ [t])%list |} in
      match result x with
      | Body b => (inl b, w1)
      | FatalFailure => (inr NETWORK_FATAL, w1)
      | TransientFailure =>
          match left' with
          | O => (inr NETWORK_TRANSIENT, w1)
          | S _ =>
              attempts left' (S done) network
                {| clock := (clock w1 + backoff done + jitter x)%Q;
                   limiter := limiter w1; issued := issued w1 |}
          end
      end
  end.

(** Modelled from the spec: [fetch(url)] (section 4.2), missing from the
    sources: up to [RETRY_MAX] attempts. *)
Definition fetch (network : nat -> exchange) (w : World)
    : (string + fetchError) * World :=
  attempts RETRY_MAX 0 network w.

(** Modelled from the spec: the fetches of a crawl run (section 4.6),
    missing from the sources, one unit after the other (sequential
    scheduling); [network u] is the oracle for the requests of unit
    [u]. *)
Fixpoint crawl (units : list string) (network : string -> nat -> exchange)
    (w : World) : list (string + fetchError) * World :=
  match units with
  | [] => ([], w)
  | u :: rest =>
      let (r, w1) := fetch (network u) w in
      let (rs, w2) := crawl rest network w1 in
      (r :: rs, w2)
  end.

(** Modelled from the spec: a rolling window (section 8), from [lo]
    inclusive to [hi] exclusive. *)
Definition within (lo hi t : Q) : bool :=
  Qle_bool lo t && negb (Qle_bool hi t).

(** Modelled from the spec: the number of fetch attempts issued in the
    60 seconds that start at [start] (section 8). *)
Definition issuedInWindow (start : Q) (w : World) : nat :=
  List.length (filter (within start (start + 60)%Q) (issued w)).

End Fetching.

End Crawler.

(** Consecutive times of an ascending list are at least [d] apart. *)
Fixpoint spaced (d : Q) (l : list Q) : Prop :=
  match l with
  | a :: (b :: _) as r => (a + d <= b)%Q /\ spaced d r
  | _ => True
  end.

(** [k] times [d], by repeated addition. *)
Fixpoint ntimes (k : nat) (d : Q) : Q :=
  match k with
  | O => 0%Q
  | S k' => (d + ntimes k' d)%Q
  end.

(** The limiter has reserved a slot behind every request that went out. *)
Definition paced (d : Q) (w : Crawler.World) : Prop :=
  spaced d (Crawler.issued w)
  /\ match Crawler.nextSlot (Crawler.limiter w) with
     | None => Crawler.issued w = []
     | Some slot => forall t, In t (Crawler.issued w) -> (t + d <= slot)%Q
     end
  /\ Crawler.granted (Crawler.limiter w) = List.length (Crawler.issued w).

(** A store in which an equivalency cites a course its school does not
    list: the seed, and one more equivalency of CS 1331 at Kennesaw State. *)
Definition citedBeforeKnown : Store :=
  run (InsEq 1 2 "CS 9999" "Spring 2026") seededStore.

(** ** The client (client/src/App.jsx)

    The component's state, the two halves of its [search] (what it sets
    before the request goes out, and what it sets when the request has
    settled) and what it decides to show.  What the network does with the
    request is an argument.  [search] is one search from start to end, with
    no other search started in between; [step] is the page under the events
    as they come, where a search started by Enter can overlap one that is
    still pending. *)

Module Client.

(** [encodeURIComponent] leaves letters, digits and [-_.!~*'()] as they
  are. *)
Definition unreserved (c : ascii) : bool :=
Js.isUpper c || Js.isLower c || Js.isDigit c
|| existsb (Ascii.eqb c) (list_ascii_of_string "-_.!~*'()").

Definition hexDigit (n : nat) : ascii :=
nth n (list_ascii_of_string "0123456789ABCDEF") "0"%char.

(** [%XX] for the byte [n]. *)
Definition percent (n : nat) : string :=
String "%" (String (hexDigit (n / 16)) (String (hexDigit (n mod 16)) EmptyString)).

(** Every other unit is written as the bytes of its UTF-8 form: one byte
  below 128, two bytes from 128 to 255. *)
Definition encodeUnit (c : ascii) : string :=
let n := nat_of_ascii c in
if unreserved c then String c EmptyString
else if (n <? 128)%nat then percent n
else percent (192 + n / 64) ++ percent (128 + n mod 64).

Fixpoint encodeURIComponent (s : string) : string :=
match s with
| EmptyString => EmptyString
| String c r => encodeUnit c ++ encodeURIComponent r
end.

(** The four [useState] cells (lines 5-8). *)
Record State := {
code : string;
results : list Item;
loading : bool;
error : string
}.

Definition initialState : State :=
{| code := "CS1331"; results := []; loading := false; error := EmptyString |}.

(** [onChange={e => setCode(e.target.value)}] *)
Definition setCode (v : string) (st : State) : State :=
{| code := v; results := results st; loading := loading st; error := error st |}.

(** What [res.json()] makes of the body: a rejection when it is not JSON,
  [null], or a value whose [items] is missing or falsy ([None]) or is an
  array of items.  These are the bodies of the server of this repository
  (see [onTheWire]) and the failures of reading one.  A body whose [items]
  is some other truthy value is not among them: line 18 would put that
  value into [results], which here is a list, and lines 65 and 69 ask for
  its [length] and [map]. *)
Inductive body : Type :=
| NotJson
| JsonNull
| JsonData (items : option (list Item)).

(** What [fetch] settles to: a rejection, or a response with its status. *)
Inductive fetched : Type :=
| NetworkError
| Response (status : nat) (payload : body).

(** [res.ok] *)
Definition ok (status : nat) : bool := ((200 <=? status) && (status <=? 299))%nat.

Definition failureMessage : string :=
"Could not load results. Make sure the server at port 5175 is running.".

Section Search.

(** [import.meta.env.VITE_API_BASE] *)
Variable API_BASE : string.

(** The request of line 15. *)
Definition searchUrl (code : string) : string :=
API_BASE ++ "/api/equivalents?gt=" ++ encodeURIComponent code.

(** Lines 11-13: the state while the request is pending. *)
Definition searching (st : State) : State :=
{| code := code st; results := []; loading := true; error := EmptyString |}.

(** Lines 14-23: the state once the request has settled. *)
Definition settled (f : fetched) (st : State) : State :=
let failed := {| code := code st; results := results st; loading := false;
               error := failureMessage |} in
match f with
| NetworkError => failed
| Response status payload =>
  if ok status then
    match payload with
    | NotJson | JsonNull => failed
    | JsonData items =>
        {| code := code st;
           results := match items with Some l => l | None => [] end;
           loading := false; error := error st |}
    end
  else failed
end.

(** [search()] from start to end, with the network as [fetch], when no
other search is started before this one has settled. *)
Definition search (fetch : string -> fetched) (st : State) : State :=
settled (fetch (searchUrl (code st))) (searching st).

(** [onKeyDown]: Enter starts a search. *)
Definition onKeyDown (key : string) (fetch : string -> fetched) (st : State) : State :=
if String.eqb key "Enter" then search fetch st else st.

End Search.

(** What happens on the page: typing in the input, a key pressed in the
  input, a click on the button, and the request of a pending search
  settling.  Enter starts a search whatever the state (lines 26-28); the
  button is disabled while [loading] (line 50) and then takes no click. *)
Inductive event : Type :=
| Change (v : string)
| KeyDown (key : string)
| Click
| Settle (f : fetched).

Definition step (e : event) (st : State) : State :=
match e with
| Change v => setCode v st
| KeyDown key => if String.eqb key "Enter" then searching st else st
| Click => if loading st then st else searching st
| Settle f => settled f st
end.

(** Line 65: the note "No results yet" is shown. *)
Definition showsNote (st : State) : bool :=
(List.length (results st) =? 0)%nat && negb (loading st)
&& String.eqb (error st) EmptyString.

(** Line 55: the error box is shown. *)
Definition showsError (st : State) : bool := negb (String.eqb (error st) EmptyString).

(** Lines 50-52: the button. *)
Definition buttonDisabled (st : State) : bool := loading st.
Definition buttonLabel (st : State) : string :=
if loading st then "Searching..." else "Search".

End Client.

(** What the handler's answer is for the client: [res.status(400).json] sends
    status 400 and a body without [items]; [res.json] sends status 200 and
    the body with [items]. *)
Definition onTheWire (r : response) : Client.fetched :=
  match r with
  | Status400 _ => Client.Response 400 (Client.JsonData None)
  | Json items _ => Client.Response 200 (Client.JsonData (Some items))
  end.

(** ** Further notions for properties of the server and the client *)

(** The number of occurrences of [c] in [s]. *)
Fixpoint countChar (c : ascii) (s : string) : nat :=
  match s with
  | EmptyString => O
  | String d r => if Ascii.eqb d c then S (countChar c r) else countChar c r
  end.

(** A character [normalizeGT] can return: no lowercase letter, and no white
    space other than the space. *)
Definition codeChar (c : ascii) : bool :=
  negb (Js.isLower c) && (negb (Js.isSpace c) || Ascii.eqb c " "%char).

(** A store as a connection without [PRAGMA foreign_keys = ON] can leave it:
    CS 1331 with an equivalency whose school 7 does not exist. *)
Definition danglingStore : Store :=
  {| School := emptyTable;
     GTCourse := {| rows := [{| GTCourse.id := 1; GTCourse.code := "CS 1331";
                                GTCourse.title := "Intro"; GTCourse.creditHours := 3%Q |}];
                    seq := 1 |};
     ExternalCourse := emptyTable;
     Equivalency := {| rows := [{| Equivalency.id := 1; Equivalency.gtCourseId := 1;
                                   Equivalency.schoolId := 7;
                                   Equivalency.externalCourseCode := "X 1";
                                   Equivalency.semester := "Fall 2025" |}];
                       seq := 1 |} |}.

(** A store with a course whose code was written in lowercase. *)
Definition lowercaseStore : Store :=
  run (InsGT "cs 1331" "Intro" 3%Q) emptyStore.

Example normalizeGT_ex1 : normalizeGT (gtParam "cs 1331") = "CS 1331".
Proof. reflexivity. Qed.
Example normalizeGT_ex2 : normalizeGT (gtParam "123ABC") = "123ABC".
Proof. reflexivity. Qed.
Example normalizeGT_ex3 : normalizeGT (gtParam "cs1331x 7") = "CS 1331X7".
Proof. reflexivity. Qed.
Example normalizeGT_ex4 : normalizeGT (Some (Js.VArray [Js.VString "cs"; Js.VString "1"])) = "CS,1".
Proof. reflexivity. Qed.

(** Beyond ASCII: the no-break space (unit 160) is white space, the capital
    of e with acute accent (unit 233) is unit 201, and the capital of the
    sharp s (unit 223) is [SS]. *)
Example normalizeGT_nbsp :
  normalizeGT (gtParam (String (ascii_of_nat 160) "cs1331")) = "CS 1331"
  /\ normalizeGT (gtParam (String (ascii_of_nat 160) EmptyString)) = EmptyString.
Proof. split; reflexivity. Qed.
Example toUpperCase_latin1 :
  Js.toUpperCase (String (ascii_of_nat 233) "1") = String (ascii_of_nat 201) "1"
  /\ Js.toUpperCase (String (ascii_of_nat 223) "1") = "SS1".
Proof. split; reflexivity. Qed.

Example seeded_cs1331 :
  map schoolName
      (match snd (getEquivalents seededStore (gtParam "cs1331")) with
       | Json items _ => items
       | _ => []
       end)
  = ["Georgia State University"; "Kennesaw State University"].
Proof. vm_compute. reflexivity. Qed.

Example normalizeCode_ok : Scraper.normalizeCode "csc 2510" = Some "CSC 2510".
Proof. reflexivity. Qed.
Example normalizeCode_malformed : Scraper.normalizeCode "123ABC" = None.
Proof. reflexivity. Qed.
Example normalizeSchool_ex :
  Scraper.normalizeSchool "  Georgia   State University " = "Georgia State University".
Proof. reflexivity. Qed.
Example parseDigits_ex : parseDigits "12" = Some (inject_Z 12) /\ parseDigits "N/A" = None.
Proof. split; reflexivity. Qed.

(** A second look at the same fact in a later term overwrites the semester
    and adds no row. *)
Example rescrape_overwrites_semester :
  let later :=
    {| Scraper.school := "Georgia State University"; Scraper.gt := "cs 1331";
       Scraper.gtTitle := "Intro to OOP"; Scraper.gtCredit := Scraper.Num 3%Q;
       Scraper.ext := "CSC 2510"; Scraper.extTitle := "OOP";
       Scraper.extCredit := Scraper.Num 3%Q; Scraper.semester := "Spring 2026" |} in
  map Equivalency.semester
      (rows (Equivalency (Scraper.store
         (Scraper.processRecords parseDigits [scenario; later] emptyStore))))
  = ["Spring 2026"].
Proof. reflexivity. Qed.

(** Ten instant requests at the default limit of 8 per minute go out 7.5
    seconds apart; eight of them fall in the first minute. *)
Example eight_per_minute :
  let network := fun (_ : string) (_ : nat) =>
    {| Crawler.latency := 0%Q; Crawler.jitter := 0%Q;
       Crawler.result := Crawler.Body EmptyString |} in
  let w := snd (Crawler.crawl 8 3 1%Q 30%Q
                  ["a"; "b"; "c"; "d"; "e"; "f"; "g"; "h"; "i"; "j"]
                  network (Crawler.initial 0%Q)) in
  Crawler.issuedInWindow 0%Q w = 8%nat /\ List.length (Crawler.issued w) = 10%nat.
Proof. split; vm_compute; reflexivity. Qed.

(** The tables themselves take any credit hours: [creditHours REAL NOT NULL]
    carries no [CHECK]. *)
Example schema_admits_zero_credit :
  map GTCourse.creditHours (rows (GTCourse (run (InsGT "CS 1" "Zero" 0%Q) emptyStore)))
  = [0%Q].
Proof. reflexivity. Qed.

(** Two stored codes that differ only in spaces: [.get] takes the first. *)
Example first_match_is_used :
  let db := run (InsGT "CS1331" "Second spelling" 3%Q) seededStore in
  option_map GTCourse.id (selectGTCourse db (normalizeGT (gtParam "CS1331"))) = Some 1%Z.
Proof. reflexivity. Qed.

(** Had the server been started on the new database first, the seed rows
    would be there as well: the scenario's record then updates the seeded
    CS 1331 in place and the query has the seed's two schools. *)
Example scenario_after_seed :
  let db := Scraper.store (Scraper.processRecords parseDigits [scenario] seededStore) in
  map GTCourse.title (rows (GTCourse db))
  = ["Intro to OOP"; "Data Structures and Algorithms"]
  /\ match snd (getEquivalents db (gtParam "CS 1331")) with
     | Json items total => map schoolName items
     | Status400 _ => []
     end = ["Georgia State University"; "Kennesaw State University"].
Proof. split; reflexivity. Qed.

(** * Properties *)

(** ** Strings *)

Lemma removeSpaces_app a b :
  Js.removeSpaces (a ++ b) = Js.removeSpaces a ++ Js.removeSpaces b.
Proof.
  induction a as [|c r IH]; simpl; [reflexivity|].
  destruct (Js.isSpace c); simpl; now rewrite IH.
Qed.

(** Capitals of white space are white space, capitals of other units are
    not. *)
Lemma removeSpaces_upperChar c :
  Js.removeSpaces (Js.upperChar c)
  = if Js.isSpace c then EmptyString else Js.upperChar c.
Proof.
  destruct c as [[] [] [] [] [] [] [] []]; reflexivity.
Qed.

Lemma upperChar_cons c : exists d t, Js.upperChar c = String d t.
Proof.
  unfold Js.upperChar.
  destruct (Js.isLower c || Js.isLowerLatin1 c); [eauto|].
  destruct (nat_of_ascii c =? 223)%nat; eauto.
Qed.

Lemma removeSpaces_toUpperCase s :
  Js.removeSpaces (Js.toUpperCase s) = Js.toUpperCase (Js.removeSpaces s).
Proof.
  induction s as [|c r IH]; [reflexivity|].
  cbn [Js.toUpperCase Js.removeSpaces].
  rewrite removeSpaces_app, removeSpaces_upperChar, IH.
  destruct (Js.isSpace c); reflexivity.
Qed.

Lemma removeSpaces_trimStart s :
  Js.removeSpaces (Js.trimStart s) = Js.removeSpaces s.
Proof.
  induction s as [|c r IH]; simpl; [reflexivity|].
  destruct (Js.isSpace c) eqn:E; [assumption|].
  simpl. now rewrite E.
Qed.

Lemma removeSpaces_trimEnd s :
  Js.removeSpaces (Js.trimEnd s) = Js.removeSpaces s.
Proof.
  induction s as [|c r IH]; simpl; [reflexivity|].
  destruct (Js.trimEnd r) as [|d r'] eqn:E.
  - simpl in IH. destruct (Js.isSpace c) eqn:Ec; simpl; rewrite ?Ec; now rewrite <- IH.
  - change (Js.removeSpaces (String c (String d r'))) with
      (if Js.isSpace c then Js.removeSpaces (String d r')
       else String c (Js.removeSpaces (String d r'))).
    now rewrite IH.
Qed.

Lemma removeSpaces_trim s : Js.removeSpaces (Js.trim s) = Js.removeSpaces s.
Proof.
  unfold Js.trim. now rewrite removeSpaces_trimEnd, removeSpaces_trimStart.
Qed.

Lemma removeSpaces_idem s :
  Js.removeSpaces (Js.removeSpaces s) = Js.removeSpaces s.
Proof.
  induction s as [|c r IH]; simpl; [reflexivity|].
  destruct (Js.isSpace c) eqn:E; simpl; rewrite ?E; now rewrite IH.
Qed.

Lemma span_app p s a b : Js.span p s = (a, b) -> s = a ++ b.
Proof.
  revert a b. induction s as [|c r IH]; simpl; intros a b H.
  - now inversion H.
  - destruct (p c).
    + destruct (Js.span p r) as [a' b'] eqn:E. inversion H; subst.
      simpl. f_equal. now apply IH.
    + now inversion H.
Qed.

Lemma toUpperCase_empty s : Js.toUpperCase s = EmptyString -> s = EmptyString.
Proof.
  destruct s as [|c r]; [reflexivity|]. cbn [Js.toUpperCase].
  destruct (upperChar_cons c) as (d & t & ->). discriminate.
Qed.

(** On a string parameter [normalizeGT] is the rewrite of the stripped,
    uppercased form. *)
Lemma normalizeGT_string s :
  normalizeGT (gtParam s) = Js.spaceAfterLetters (stripUpper s).
Proof.
  unfold normalizeGT, gtParam, stripUpper. simpl Js.stringOrEmpty.
  assert (E : Js.removeSpaces (Js.toUpperCase (Js.trim s))
              = Js.removeSpaces (Js.toUpperCase s)).
  { now rewrite !removeSpaces_toUpperCase, removeSpaces_trim. }
  rewrite <- E.
  destruct (Js.toUpperCase (Js.trim s)) eqn:R; reflexivity.
Qed.

(** Spellings that differ in case and white space only normalize alike. *)
Lemma normalizeGT_spelling s s' :
  stripUpper s = stripUpper s' ->
  normalizeGT (gtParam s) = normalizeGT (gtParam s').
Proof. intros E. now rewrite !normalizeGT_string, E. Qed.

Lemma spaceAfterLetters_cases s :
  (startsLettersDigit s = false /\ Js.spaceAfterLetters s = s)
  \/ (startsLettersDigit s = true /\
      exists l d t, s = l ++ d ++ t /\ Js.spaceAfterLetters s = l ++ " " ++ d ++ t).
Proof.
  unfold startsLettersDigit, Js.spaceAfterLetters.
  destruct (Js.span Js.isUpper s) as [l rest] eqn:El.
  destruct l as [|c l'].
  - left. split; [reflexivity|]. now destruct (Js.span Js.isDigit rest).
  - destruct rest as [|d rest'].
    + left. simpl. auto.
    + simpl. destruct (Js.isDigit d) eqn:Ed.
      * right. split; [reflexivity|].
        destruct (Js.span Js.isDigit rest') as [d' t] eqn:Er.
        exists (String c l'), (String d d'), t. split; [|reflexivity].
        apply span_app in El. apply span_app in Er. rewrite El.
        simpl. now rewrite Er.
      * left. auto.
Qed.

Lemma spaceAfterLetters_empty s :
  Js.spaceAfterLetters s = EmptyString -> s = EmptyString.
Proof.
  destruct (spaceAfterLetters_cases s) as [[_ E]|[_ (l & d & t & Es & E)]];
    rewrite E; [easy|].
  unfold startsLettersDigit, Js.spaceAfterLetters.
  intros H. destruct l; simpl in H; [|discriminate].
  discriminate.
Qed.

Lemma isBlank_trimStart s : isBlank s = true -> Js.trimStart s = EmptyString.
Proof.
  induction s as [|c r IH]; simpl; [reflexivity|].
  destruct (Js.isSpace c); simpl; [assumption | discriminate].
Qed.

Lemma normalizeGT_blank s : isBlank s = true -> normalizeGT (gtParam s) = EmptyString.
Proof.
  intros H. unfold normalizeGT, gtParam, Js.trim. simpl Js.stringOrEmpty.
  now rewrite isBlank_trimStart.
Qed.

(** ** Tables *)

Section KeyLemmas.
Context {R K : Type}.
Variable key : R -> K.

Lemma existsb_false (p : R -> bool) l :
  existsb p l = false -> forall r, In r l -> p r = false.
Proof.
  intros H r Hin. destruct (p r) eqn:E; [|reflexivity].
  assert (existsb p l = true) by (apply existsb_exists; eauto).
  congruence.
Qed.

Lemma NoDup_map_snoc l r :
  NoDup (map key l) -> ~ In (key r) (map key l) -> NoDup (map key (l ++ [r])).
Proof.
  intros Hnd Hnew. rewrite map_app. simpl.
  apply NoDup_app. repeat split.
  - assumption.
  - constructor; [intros []|constructor].
  - intros k Hk [<-|[]]. contradiction.
Qed.

Lemma NoDup_map_filter (p : R -> bool) l :
  NoDup (map key l) -> NoDup (map key (filter p l)).
Proof.
  induction l as [|a l IH]; simpl; intros H; [constructor|].
  inversion H; subst. destruct (p a); simpl; auto.
  constructor; auto.
  intros Hin. apply in_map_iff in Hin. destruct Hin as (y & E & Hy).
  apply filter_In in Hy. rewrite <- E in *. apply H2.
  apply in_map. tauto.
Qed.

Lemma filter_none (p : R -> bool) l :
  (forall y, In y l -> p y = false) -> filter p l = [].
Proof.
  induction l as [|a l IH]; simpl; intros H; [reflexivity|].
  rewrite (H a) by auto. apply IH. auto.
Qed.

(** A key that is unique selects at most the row that has it. *)
Lemma unique_filter (eqk : K -> bool) (k : K) l r :
  NoDup (map key l) -> In r l -> key r = k ->
  (forall k', eqk k' = true <-> k' = k) ->
  filter (fun y => eqk (key y)) l = [r].
Proof.
  intros Hnd Hin Ek Heq. subst k.
  induction l as [|a l IH]; simpl in *; [contradiction|].
  inversion Hnd; subst.
  destruct Hin as [->|Hin].
  - rewrite (proj2 (Heq _) eq_refl). f_equal.
    apply filter_none. intros y Hy.
    destruct (eqk (key y)) eqn:E; [|reflexivity].
    apply Heq in E. exfalso. apply H1. rewrite <- E. now apply in_map.
  - destruct (eqk (key a)) eqn:E.
    + apply Heq in E. exfalso. apply H1. rewrite E. now apply in_map.
    + now apply IH.
Qed.

End KeyLemmas.

Section RowidLemmas.
Context {R K : Type}.
Variable rowid : R -> Z.
Variable key : R -> K.

Lemma hasId_In i (t : table R) :
  hasId rowid i t = true -> In i (map rowid (rows t)).
Proof.
  unfold hasId. intros H. apply existsb_exists in H.
  destruct H as (r & Hin & E). apply Z.eqb_eq in E. subst.
  now apply in_map.
Qed.

Lemma In_hasId i (t : table R) :
  In i (map rowid (rows t)) -> hasId rowid i t = true.
Proof.
  intros H. apply in_map_iff in H. destruct H as (r & E & Hin).
  unfold hasId. apply existsb_exists. exists r. split; [assumption|].
  now apply Z.eqb_eq.
Qed.

Lemma hasId_false i (t : table R) :
  hasId rowid i t = false -> ~ In i (map rowid (rows t)).
Proof. intros H Hin. apply In_hasId in Hin. congruence. Qed.

Lemma fresh_rowid (t : table R) :
  seqBounds rowid t -> ~ In (seq t + 1)%Z (map rowid (rows t)).
Proof.
  intros Hb Hin. apply in_map_iff in Hin. destruct Hin as (r & E & Hin).
  apply Hb in Hin. lia.
Qed.

Lemma seqBounds_append (t : table R) r :
  seqBounds rowid t -> rowid r = (seq t + 1)%Z ->
  seqBounds rowid (append t (seq t + 1) r).
Proof.
  intros Hb E y Hin. simpl in *. apply in_app_or in Hin.
  destruct Hin as [Hin|[<-|[]]]; [apply Hb in Hin|]; lia.
Qed.

Lemma seqBounds_keep p (t : table R) :
  seqBounds rowid t -> seqBounds rowid (keep p t).
Proof.
  intros Hb y Hin. simpl in *. apply filter_In in Hin. now apply Hb.
Qed.

Lemma replaced_In i r l y :
  In y (replaced rowid i r l) -> y = r \/ (In y l /\ rowid y <> i).
Proof.
  unfold replaced. intros H. apply in_map_iff in H.
  destruct H as (o & E & Hin).
  destruct (Z.eqb_spec (rowid o) i); subst; auto.
Qed.

Lemma replaced_absent i r l :
  ~ In i (map rowid l) -> replaced rowid i r l = l.
Proof.
  induction l as [|a l IH]; simpl; intros H; [reflexivity|].
  destruct (Z.eqb_spec (rowid a) i); [tauto|].
  f_equal. apply IH. tauto.
Qed.

Lemma replaced_rowid i r l :
  rowid r = i -> map rowid (replaced rowid i r l) = map rowid l.
Proof.
  intros E. unfold replaced. rewrite map_map. apply map_ext.
  intros a. destruct (Z.eqb_spec (rowid a) i); congruence.
Qed.

Lemma NoDup_map_replaced i r l :
  NoDup (map rowid l) -> NoDup (map key l) ->
  (forall y, In y l -> rowid y <> i -> key y <> key r) ->
  NoDup (map key (replaced rowid i r l)).
Proof.
  induction l as [|a l IH]; simpl; intros Hid Hk Hother; [constructor|].
  inversion Hid; subst. inversion Hk; subst.
  destruct (Z.eqb_spec (rowid a) i) as [E|E].
  - rewrite replaced_absent by congruence.
    constructor; [|assumption].
    intros Hin. apply in_map_iff in Hin. destruct Hin as (y & Ey & Hy).
    apply (Hother y); auto.
    intros Ei. apply H1. rewrite E, <- Ei. now apply in_map.
  - constructor; [|apply IH; auto].
    intros Hin. apply in_map_iff in Hin. destruct Hin as (y & Ey & Hy).
    apply replaced_In in Hy. destruct Hy as [->|[Hy _]].
    + apply (Hother a); auto.
    + apply H3. rewrite <- Ey. now apply in_map.
Qed.

Lemma seqBounds_replaceRow i r (t : table R) :
  seqBounds rowid t -> hasId rowid i t = true -> rowid r = i ->
  seqBounds rowid (replaceRow rowid i r t).
Proof.
  intros Hb Hi E y Hin. simpl in *.
  apply replaced_In in Hin. destruct Hin as [->|[Hin _]]; [|now apply Hb].
  apply hasId_In, in_map_iff in Hi. destruct Hi as (o & Eo & Ho).
  apply Hb in Ho. lia.
Qed.

Lemma in_map_filter_ne i l j :
  In j (map rowid l) -> j <> i ->
  In j (map rowid (filter (fun r => negb (rowid r =? i)%Z) l)).
Proof.
  intros Hin Hne. apply in_map_iff in Hin. destruct Hin as (r & E & Hr).
  apply in_map_iff. exists r. split; [assumption|].
  apply filter_In. split; [assumption|].
  destruct (Z.eqb_spec (rowid r) i); [congruence | reflexivity].
Qed.

End RowidLemmas.

(** ** Every statement keeps the declared constraints *)

Ltac parent_grows :=
  let x := fresh in let Hx := fresh in
  intros x Hx; simpl; rewrite map_app; apply in_or_app; left; auto.

Ltac split_store H :=
  let S := fresh "S" in
  destruct H as [S ? ? ? ?]; destruct S;
  constructor; [constructor|..]; simpl; auto.

Lemma insSchool_ok name db : storeOk db -> storeOk (snd (insSchool name db)).
Proof.
  intros H. unfold insSchool.
  destruct (existsb _ _) eqn:E; [exact H|].
  split_store H; try parent_grows.
  - apply NoDup_map_snoc; auto. now apply fresh_rowid.
  - apply NoDup_map_snoc; auto.
    intros Hin. apply in_map_iff in Hin. destruct Hin as (s & Es & Hs).
    eapply existsb_false in E; eauto. simpl in E.
    rewrite Es, String.eqb_refl in E. discriminate.
  - now apply seqBounds_append.
Qed.

Lemma insGT_ok code title hours db :
  storeOk db -> storeOk (snd (insGT code title hours db)).
Proof.
  intros H. unfold insGT.
  destruct (existsb _ _) eqn:E; [exact H|].
  split_store H; try parent_grows.
  - apply NoDup_map_snoc; auto. now apply fresh_rowid.
  - apply NoDup_map_snoc; auto.
    intros Hin. apply in_map_iff in Hin. destruct Hin as (s & Es & Hs).
    eapply existsb_false in E; eauto. simpl in E.
    rewrite Es, String.eqb_refl in E. discriminate.
  - now apply seqBounds_append.
Qed.

Lemma insExt_ok sid code title hours db :
  storeOk db -> storeOk (snd (insExt sid code title hours db)).
Proof.
  intros H. unfold insExt.
  destruct (existsb _ _) eqn:E; [exact H|].
  destruct (hasId School.id sid (School db)) eqn:Hs; [|exact H].
  split_store H.
  - apply NoDup_map_snoc; auto. now apply fresh_rowid.
  - apply NoDup_map_snoc; auto.
    intros Hin. apply in_map_iff in Hin. destruct Hin as (x & Ex & Hx).
    eapply existsb_false in E; eauto. simpl in E.
    unfold extKey in Ex. simpl in Ex. inversion Ex as [[E1 E2]].
    rewrite E1, E2, Z.eqb_refl, String.eqb_refl in E. discriminate.
  - intros x Hx. apply in_app_or in Hx. destruct Hx as [Hx|[<-|[]]]; auto.
    simpl. now apply hasId_In.
  - now apply seqBounds_append.
Qed.

Lemma sameFact_fact g s c e : sameFact g s c e = true <-> fact e = (g, s, c).
Proof.
  unfold sameFact, fact. rewrite !andb_true_iff, !Z.eqb_eq, String.eqb_eq.
  split; [intros [[-> ->] ->]; reflexivity | intros E; inversion E; auto].
Qed.

Lemma insEq_ok g s c sem db :
  storeOk db -> storeOk (snd (insEq g s c sem db)).
Proof.
  intros H. unfold insEq.
  destruct (existsb _ _) eqn:E; [exact H|].
  destruct (hasId GTCourse.id g (GTCourse db)) eqn:Hg; [|exact H].
  destruct (hasId School.id s (School db)) eqn:Hs; [|exact H].
  split_store H.
  - apply NoDup_map_snoc; auto. now apply fresh_rowid.
  - apply NoDup_map_snoc; auto.
    intros Hin. apply in_map_iff in Hin. destruct Hin as (x & Ex & Hx).
    eapply existsb_false in E; eauto.
    apply (proj2 (sameFact_fact g s c x)) in Ex. congruence.
  - intros x Hx. apply in_app_or in Hx. destruct Hx as [Hx|[<-|[]]]; auto.
    simpl. now apply hasId_In.
  - intros x Hx. apply in_app_or in Hx. destruct Hx as [Hx|[<-|[]]]; auto.
    simpl. now apply hasId_In.
  - now apply seqBounds_append.
Qed.

Lemma negb_eqb_ne a b : negb (a =? b)%Z = true -> a <> b.
Proof. destruct (Z.eqb_spec a b); [discriminate | auto]. Qed.

Lemma delSchool_ok i db : storeOk db -> storeOk (snd (delSchool i db)).
Proof.
  intros H. unfold delSchool.
  destruct (hasId School.id i (School db)); [|exact H]. cbn [negb].
  split_store H; try (apply NoDup_map_filter; assumption);
    try (apply seqBounds_keep; assumption).
  - intros x Hx. apply filter_In in Hx. destruct Hx as [Hx Hne].
    apply in_map_filter_ne; auto. now apply negb_eqb_ne.
  - intros e He. apply filter_In in He. destruct He; auto.
  - intros e He. apply filter_In in He. destruct He as [He Hne].
    apply in_map_filter_ne; auto. now apply negb_eqb_ne.
Qed.

Lemma delGT_ok i db : storeOk db -> storeOk (snd (delGT i db)).
Proof.
  intros H. unfold delGT.
  destruct (hasId GTCourse.id i (GTCourse db)); [|exact H]. cbn [negb].
  split_store H; try (apply NoDup_map_filter; assumption);
    try (apply seqBounds_keep; assumption).
  - intros e He. apply filter_In in He. destruct He as [He Hne].
    apply in_map_filter_ne; auto. now apply negb_eqb_ne.
  - intros e He. apply filter_In in He. destruct He; auto.
Qed.

Lemma delExt_ok i db : storeOk db -> storeOk (snd (delExt i db)).
Proof.
  intros H. unfold delExt.
  split_store H; try (apply NoDup_map_filter; assumption);
    try (apply seqBounds_keep; assumption).
  intros x Hx. apply filter_In in Hx. destruct Hx; auto.
Qed.

Lemma delEq_ok i db : storeOk db -> storeOk (snd (delEq i db)).
Proof.
  intros H. unfold delEq.
  split_store H; try (apply NoDup_map_filter; assumption);
    try (apply seqBounds_keep; assumption).
  - intros x Hx. apply filter_In in Hx. destruct Hx; auto.
  - intros x Hx. apply filter_In in Hx. destruct Hx; auto.
Qed.

Lemma other_rows {R : Type} (rowid : R -> Z) (p : R -> bool) i l :
  existsb (fun r => negb (rowid r =? i)%Z && p r) l = false ->
  forall y, In y l -> rowid y <> i -> p y = false.
Proof.
  intros E y Hy Hne. eapply existsb_false in E; eauto. simpl in E.
  destruct (Z.eqb_spec (rowid y) i); [contradiction|]. exact E.
Qed.

Lemma updSchool_ok i name db : storeOk db -> storeOk (snd (updSchool i name db)).
Proof.
  intros H. unfold updSchool.
  destruct (hasId School.id i (School db)) eqn:Hi; [|exact H].
  destruct (existsb _ _) eqn:E; [exact H|]. simpl.
  split_store H; rewrite ?replaced_rowid by reflexivity; auto.
  - apply NoDup_map_replaced; auto. intros y Hy Hne.
    apply (other_rows School.id (fun s => String.eqb (School.name s) name)) with (y := y) in E;
      auto.
    simpl. intros Eq. rewrite Eq, String.eqb_refl in E. discriminate.
  - now apply seqBounds_replaceRow.
Qed.

Lemma updGT_ok i code title hours db :
  storeOk db -> storeOk (snd (updGT i code title hours db)).
Proof.
  intros H. unfold updGT.
  destruct (hasId GTCourse.id i (GTCourse db)) eqn:Hi; [|exact H].
  destruct (existsb _ _) eqn:E; [exact H|]. simpl.
  split_store H; rewrite ?replaced_rowid by reflexivity; auto.
  - apply NoDup_map_replaced; auto. intros y Hy Hne.
    apply (other_rows GTCourse.id (fun g => String.eqb (GTCourse.code g) code))
      with (y := y) in E; auto.
    simpl. intros Eq. rewrite Eq, String.eqb_refl in E. discriminate.
  - now apply seqBounds_replaceRow.
Qed.

Lemma updExt_ok i sid code title hours db :
  storeOk db -> storeOk (snd (updExt i sid code title hours db)).
Proof.
  intros H. unfold updExt.
  destruct (hasId ExternalCourse.id i (ExternalCourse db)) eqn:Hi; [|exact H].
  destruct (existsb _ _) eqn:E; [exact H|].
  destruct (hasId School.id sid (School db)) eqn:Hs; [|exact H]. simpl.
  split_store H; rewrite ?replaced_rowid by reflexivity; auto.
  - apply NoDup_map_replaced; auto. intros y Hy Hne.
    eapply existsb_false in E; eauto. simpl in E.
    destruct (Z.eqb_spec (ExternalCourse.id y) i); [contradiction|]. simpl in E.
    unfold extKey. simpl. intros Eq. inversion Eq as [[E1 E2]].
    rewrite E1, E2, Z.eqb_refl, String.eqb_refl in E. discriminate.
  - intros x Hx. apply replaced_In in Hx. destruct Hx as [->|[Hx _]]; auto.
    simpl. now apply hasId_In.
  - now apply seqBounds_replaceRow.
Qed.

Lemma updEq_ok i g s c sem db :
  storeOk db -> storeOk (snd (updEq i g s c sem db)).
Proof.
  intros H. unfold updEq.
  destruct (hasId Equivalency.id i (Equivalency db)) eqn:Hi; [|exact H].
  destruct (existsb _ _) eqn:E; [exact H|].
  destruct (hasId GTCourse.id g (GTCourse db)) eqn:Hg; [|exact H].
  destruct (hasId School.id s (School db)) eqn:Hs; [|exact H]. simpl.
  split_store H; rewrite ?replaced_rowid by reflexivity; auto.
  - apply NoDup_map_replaced; auto. intros y Hy Hne.
    apply (other_rows Equivalency.id) with (y := y) in E; auto.
    intros Eq. apply (proj2 (sameFact_fact g s c y)) in Eq. congruence.
  - intros x Hx. apply replaced_In in Hx. destruct Hx as [->|[Hx _]]; auto.
    simpl. now apply hasId_In.
  - intros x Hx. apply replaced_In in Hx. destruct Hx as [->|[Hx _]]; auto.
    simpl. now apply hasId_In.
  - now apply seqBounds_replaceRow.
Qed.

Lemma emptyStore_ok : storeOk emptyStore.
Proof.
  constructor; [constructor|..]; simpl; try constructor; intros ? [].
Qed.

Lemma run_ok st db : storeOk db -> storeOk (run st db).
Proof.
  destruct st; unfold run;
    auto using insSchool_ok, insGT_ok, insExt_ok, insEq_ok, delSchool_ok, delGT_ok,
      delExt_ok, delEq_ok, updSchool_ok, updGT_ok, updExt_ok, updEq_ok.
Qed.

Lemma reachable_ok db : reachable db -> storeOk db.
Proof.
  induction 1; [apply emptyStore_ok | now apply run_ok].
Qed.

(** ** The pipeline writes through statements *)

Lemma run_creditsPositive st db :
  positiveCredit st -> creditsPositive db -> creditsPositive (run st db).
Proof.
  intros Hst [Hg Hx].
  destruct st; simpl in Hst; unfold run.
  - unfold insSchool. destruct (existsb _ _); split; auto.
  - unfold insGT. destruct (existsb _ _); split; simpl; auto.
    intros g Hin. apply in_app_or in Hin. destruct Hin as [Hin|[<-|[]]]; auto.
  - unfold insExt. destruct (existsb _ _); [split; auto|].
    destruct (negb _); split; simpl; auto.
    intros x Hin. apply in_app_or in Hin. destruct Hin as [Hin|[<-|[]]]; auto.
  - unfold insEq. destruct (existsb _ _); [split; auto|].
    destruct (negb _); split; simpl; auto.
  - unfold delSchool. destruct (negb _); [split; auto|].
    split; simpl; auto. intros x Hin. apply filter_In in Hin. destruct Hin; auto.
  - unfold delGT. destruct (negb _); [split; auto|].
    split; simpl; auto. intros x Hin. apply filter_In in Hin. destruct Hin; auto.
  - split; simpl; auto. intros x Hin. apply filter_In in Hin. destruct Hin; auto.
  - split; simpl; auto.
  - unfold updSchool. destruct (negb _); [split; auto|].
    destruct (existsb _ _); split; auto.
  - unfold updGT. destruct (negb _); [split; auto|].
    destruct (existsb _ _); split; simpl; auto.
    intros g Hin. apply replaced_In in Hin. destruct Hin as [->|[Hin _]]; auto.
  - unfold updExt. destruct (negb _); [split; auto|].
    destruct (existsb _ _); [split; auto|].
    destruct (negb _); split; simpl; auto.
    intros x Hin. apply replaced_In in Hin. destruct Hin as [->|[Hin _]]; auto.
  - unfold updEq. destruct (negb _); [split; auto|].
    destruct (existsb _ _); [split; auto|].
    destruct (negb _); split; simpl; auto.
Qed.

Lemma positive_lt q : Scraper.positive q = true -> (0 < q)%Q.
Proof.
  unfold Scraper.positive. intros H. apply Qnot_le_lt. intros Hle.
  apply Qle_bool_iff in Hle. rewrite Hle in H. discriminate.
Qed.

Section PipelineInvariant.
Variable parseReal : string -> option Q.
Variable Inv : Store -> Prop.
Hypothesis Inv_run : forall st db, positiveCredit st -> Inv db -> Inv (run st db).

Lemma creditHours_positive c q :
  Scraper.creditHours parseReal c = Some q -> (0 < q)%Q.
Proof.
  destruct c as [q'|s]; simpl.
  - destruct (Scraper.positive q') eqn:E; [|discriminate].
    intros [= <-]. now apply positive_lt.
  - destruct (parseReal s) as [q'|]; [|discriminate].
    destruct (Scraper.positive q') eqn:E; [|discriminate].
    intros [= <-]. now apply positive_lt.
Qed.

Lemma normalize_positive r n :
  Scraper.normalize parseReal r = inl n ->
  (0 < Scraper.nGtCredit n)%Q /\ (0 < Scraper.nExtCredit n)%Q.
Proof.
  unfold Scraper.normalize.
  destruct (Scraper.normalizeCode (Scraper.gt r)); [|discriminate].
  destruct (Scraper.normalizeCode (Scraper.ext r)); [|discriminate].
  destruct (Scraper.creditHours parseReal (Scraper.gtCredit r)) eqn:Eg; [|discriminate].
  destruct (Scraper.creditHours parseReal (Scraper.extCredit r)) eqn:Ex; [|discriminate].
  intros [= <-]. simpl. eauto using creditHours_positive.
Qed.

Lemma upsertSchool_keeps name db :
  Inv db -> Inv (snd (Scraper.upsertSchool name db)).
Proof.
  intros H. unfold Scraper.upsertSchool. destruct (find _ _); [exact H|].
  now apply (Inv_run (InsSchool name)).
Qed.

Lemma upsertGT_keeps code title hours db :
  (0 < hours)%Q -> Inv db -> Inv (snd (Scraper.upsertGT code title hours db)).
Proof.
  intros Hh H. unfold Scraper.upsertGT. destruct (find _ _) as [g|].
  - destruct (_ && _); [exact H|]. unfold bind.
    pose proof (Inv_run (UpdGT (GTCourse.id g) code title hours) db Hh H) as Hr.
    unfold run in Hr. destruct (updGT _ _ _ _ db) as [[]]; exact Hr.
  - now apply (Inv_run (InsGT code title hours)).
Qed.

Lemma upsertExt_keeps sid code title hours db :
  (0 < hours)%Q -> Inv db -> Inv (snd (Scraper.upsertExt sid code title hours db)).
Proof.
  intros Hh H. unfold Scraper.upsertExt. destruct (find _ _) as [x|].
  - destruct (_ && _); [exact H|]. unfold bind.
    pose proof (Inv_run (UpdExt (ExternalCourse.id x) sid code title hours) db Hh H) as Hr.
    unfold run in Hr. destruct (updExt _ _ _ _ _ db) as [[]]; exact Hr.
  - now apply (Inv_run (InsExt sid code title hours)).
Qed.

Lemma upsertEq_keeps g s code sem db :
  Inv db -> Inv (snd (Scraper.upsertEq g s code sem db)).
Proof.
  intros H. unfold Scraper.upsertEq. destruct (find _ _) as [e|].
  - destruct (String.eqb _ _); [exact H|]. unfold bind.
    pose proof (Inv_run (UpdEq (Equivalency.id e) g s code sem) db I H) as Hr.
    unfold run in Hr. destruct (updEq _ _ _ _ _ db) as [[]]; exact Hr.
  - now apply (Inv_run (InsEq g s code sem)).
Qed.

Lemma upsert_keeps n db :
  (0 < Scraper.nGtCredit n)%Q -> (0 < Scraper.nExtCredit n)%Q ->
  Inv db -> Inv (snd (Scraper.upsert n db)).
Proof.
  intros Hg Hx H. unfold Scraper.upsert, bind.
  pose proof (upsertSchool_keeps (Scraper.nSchool n) db H) as H1.
  destruct (Scraper.upsertSchool _ db) as [[sid|] db1]; [|exact H1].
  simpl in H1.
  pose proof (upsertGT_keeps (Scraper.nGt n) (Scraper.nGtTitle n) _ db1 Hg H1) as H2.
  destruct (Scraper.upsertGT _ _ _ db1) as [[gid|] db2]; [|exact H2].
  simpl in H2.
  pose proof (upsertExt_keeps sid (Scraper.nExt n) (Scraper.nExtTitle n) _ db2 Hx H2) as H3.
  destruct (Scraper.upsertExt _ _ _ _ db2) as [[xid|] db3]; [|exact H3].
  simpl in H3.
  pose proof (upsertEq_keeps gid sid (Scraper.nExt n) (Scraper.nSemester n) db3 H3) as H4.
  destruct (Scraper.upsertEq _ _ _ _ db3) as [[eid|] db4]; exact H4.
Qed.

Lemma persist_keeps n db :
  (0 < Scraper.nGtCredit n)%Q -> (0 < Scraper.nExtCredit n)%Q ->
  Inv db -> Inv (snd (Scraper.persist n db)).
Proof.
  intros Hg Hx H. unfold Scraper.persist.
  pose proof (upsert_keeps n db Hg Hx H) as Hu.
  destruct (Scraper.upsert n db) as [[]]; simpl; assumption.
Qed.

Lemma processRecord_keeps st r :
  Inv (Scraper.store st) ->
  Inv (Scraper.store (Scraper.processRecord parseReal st r)).
Proof.
  intros H. unfold Scraper.processRecord.
  destruct (Scraper.normalize parseReal r) as [n|rs] eqn:En; [|exact H].
  destruct (existsb _ _); [exact H|].
  apply normalize_positive in En. destruct En as [Hg Hx].
  pose proof (persist_keeps n _ Hg Hx H) as Hp.
  destruct (Scraper.persist n (Scraper.store st)) as [[] db']; exact Hp.
Qed.

Lemma processRecords_keeps records db :
  Inv db -> Inv (Scraper.store (Scraper.processRecords parseReal records db)).
Proof.
  unfold Scraper.processRecords.
  assert (G : forall st, Inv (Scraper.store st) ->
                Inv (Scraper.store (fold_left (Scraper.processRecord parseReal) records st))).
  { induction records as [|r rs IH]; simpl; intros st H; [exact H|].
    apply IH. now apply processRecord_keeps. }
  intros H. now apply G.
Qed.

End PipelineInvariant.

Lemma processRecords_reachable parseReal records db :
  reachable db -> reachable (Scraper.store (Scraper.processRecords parseReal records db)).
Proof.
  apply processRecords_keeps. intros st d _ H. now constructor.
Qed.

Lemma seededStore_reachable : reachable seededStore.
Proof.
  change seededStore with
    (run (InsEq 2 1 "CSC 2720" "Fall 2025")
    (run (InsEq 1 2 "CS 2302" "Fall 2025")
    (run (InsEq 1 1 "CSC 2510" "Fall 2025")
    (run (InsExt 1 "CSC 2720" "Data Structures" 3%Q)
    (run (InsExt 2 "CS 2302" "Object Oriented Programming" 3%Q)
    (run (InsExt 1 "CSC 2510" "Object Oriented Programming" 3%Q)
    (run (InsGT "CS 1332" "Data Structures and Algorithms" 3%Q)
    (run (InsGT "CS 1331" "Introduction to Object Oriented Programming" 3%Q)
    (run (InsSchool "Kennesaw State University")
    (run (InsSchool "Georgia State University") emptyStore)))))))))).
  repeat constructor.
Qed.

(** ** ORDER BY *)

Section OrderByLemmas.
Context {A : Type} (leb : A -> A -> bool).
Hypothesis leb_total : forall a b, leb a b = true \/ leb b a = true.

Let le (a b : A) : Prop := leb a b = true.

Lemma insert_perm x l : Permutation (x :: l) (Sql.insert leb x l).
Proof.
  induction l as [|y r IH]; simpl; [apply Permutation_refl|].
  destruct (leb x y); [apply Permutation_refl|].
  eapply perm_trans; [apply perm_swap|]. now apply perm_skip.
Qed.

Lemma orderBy_perm l : Permutation l (Sql.orderBy leb l).
Proof.
  induction l as [|x r IH]; simpl; [constructor|].
  eapply perm_trans; [apply perm_skip, IH | apply insert_perm].
Qed.

Lemma insert_hd x y l : le y x -> HdRel le y l -> HdRel le y (Sql.insert leb x l).
Proof.
  intros Hyx Hl. destruct l as [|z r]; simpl; [now constructor|].
  destruct (leb x z); constructor; [assumption|]. now inversion Hl.
Qed.

Lemma insert_sorted x l : Sorted le l -> Sorted le (Sql.insert leb x l).
Proof.
  induction 1 as [|y r Hs IH Hhd]; simpl; [repeat constructor|].
  destruct (leb x y) eqn:E.
  - constructor; [now constructor|]. now constructor.
  - constructor; [assumption|]. apply insert_hd; [|assumption].
    destruct (leb_total x y); [congruence | assumption].
Qed.

Lemma orderBy_sorted l : Sorted le (Sql.orderBy leb l).
Proof.
  induction l as [|x r IH]; simpl; [constructor | now apply insert_sorted].
Qed.

End OrderByLemmas.

Lemma itemLeb_total a b : itemLeb a b = true \/ itemLeb b a = true.
Proof.
  unfold itemLeb. rewrite (String.compare_antisym (schoolName b) (schoolName a)).
  destruct (String.compare (schoolName a) (schoolName b)); simpl; auto.
  destruct (externalCourseCode a), (externalCourseCode b); simpl; auto.
  apply String.leb_total.
Qed.

Lemma compare_lt_trans s t u :
  String.compare s t = Lt -> String.compare t u = Lt -> String.compare s u = Lt.
Proof.
  change String.compare with String_as_OT.compare.
  apply String_as_OT.lt_strorder.
Qed.

Lemma compare_refl s : String.compare s s = Eq.
Proof.
  destruct (String.compare s s) eqn:E; [reflexivity| |];
    pose proof (String.compare_antisym s s) as H; rewrite E in H; discriminate.
Qed.

Lemma leb_trans s t u :
  String.leb s t = true -> String.leb t u = true -> String.leb s u = true.
Proof.
  unfold String.leb.
  destruct (String.compare s t) eqn:E1; [| |discriminate];
    destruct (String.compare t u) eqn:E2; try discriminate; intros _ _.
  - apply String.compare_eq_iff in E1, E2. subst. now rewrite compare_refl.
  - apply String.compare_eq_iff in E1. subst. now rewrite E2.
  - apply String.compare_eq_iff in E2. subst. now rewrite E1.
  - now rewrite (compare_lt_trans _ _ _ E1 E2).
Qed.

Lemma nullableLeb_trans a b c :
  Sql.nullableLeb a b = true -> Sql.nullableLeb b c = true -> Sql.nullableLeb a c = true.
Proof.
  destruct a, b, c; simpl; try congruence. apply leb_trans.
Qed.

Lemma itemLe_trans : Transitive itemLe.
Proof.
  intros a b c. unfold itemLe, itemLeb.
  destruct (String.compare (schoolName a) (schoolName b)) eqn:E1; [| |discriminate];
    destruct (String.compare (schoolName b) (schoolName c)) eqn:E2;
    try discriminate.
  - apply String.compare_eq_iff in E1, E2. rewrite E1, E2, compare_refl.
    apply nullableLeb_trans.
  - apply String.compare_eq_iff in E1. rewrite E1, E2. auto.
  - apply String.compare_eq_iff in E2. rewrite <- E2, E1. auto.
  - rewrite (compare_lt_trans _ _ _ E1 E2). auto.
Qed.

(** ** The join *)

Lemma Forall2_perm {A B : Type} (P : A -> B -> Prop) l its its' :
  Forall2 P l its -> Permutation its its' ->
  exists l', Permutation l l' /\ Forall2 P l' its'.
Proof.
  intros HF HP. revert l HF.
  induction HP as [|x its its' HP IH|x y its|its1 its2 its3 HP1 IH1 HP2 IH2];
    intros l HF.
  - inversion HF; subst. exists []. split; constructor.
  - inversion HF as [|a b l0 its0 Hab HF0]; subst.
    destruct (IH l0 HF0) as (l' & Hl & HF').
    exists (a :: l'). split; [now constructor | now constructor].
  - inversion HF as [|a b l0 its0 Hab HF0]; subst.
    inversion HF0 as [|a' b' l1 its1 Hab' HF1]; subst.
    exists (a' :: a :: l1). split; [apply perm_swap|].
    repeat constructor; assumption.
  - destruct (IH1 l HF) as (l1 & Hl1 & HF1).
    destruct (IH2 l1 HF1) as (l2 & Hl2 & HF2).
    exists l2. split; [eapply perm_trans; eassumption | assumption].
Qed.

Lemma Forall2_In_l {A B : Type} (P : A -> B -> Prop) l its a :
  Forall2 P l its -> In a l -> exists b, In b its /\ P a b.
Proof.
  induction 1 as [|x y l its Hxy HF IH]; intros Hin; [contradiction|].
  destruct Hin as [<-|Hin]; [exists y; simpl; auto|].
  destruct (IH Hin) as (b & Hb & Pb). exists b. simpl. auto.
Qed.

Lemma flat_map_single {A B : Type} (P : A -> B -> Prop) (f : A -> list B) l :
  (forall a, In a l -> exists b, f a = [b] /\ P a b) ->
  exists its, flat_map f l = its /\ Forall2 P l its.
Proof.
  induction l as [|a l IH]; simpl; intros H.
  - exists []. split; [reflexivity | constructor].
  - destruct (H a (or_introl eq_refl)) as (b & Eb & Pb).
    destruct IH as (its & E & HF); [intros; apply H; auto|].
    exists (b :: its). rewrite Eb, E. split; [reflexivity | now constructor].
Qed.

Section Join.
Variable db : Store.
Hypothesis Hok : schemaOk db.

Lemma school_of e :
  In e (rows (Equivalency db)) ->
  exists s, In s (rows (School db)) /\ School.id s = Equivalency.schoolId e
    /\ filter (fun s => (School.id s =? Equivalency.schoolId e)%Z) (rows (School db))
       = [s].
Proof.
  intros He. destruct Hok.
  apply Equivalency_fk_school0, in_map_iff in He. destruct He as (s & Es & Hs).
  exists s. repeat split; try assumption.
  apply (unique_filter School.id (fun k => (k =? Equivalency.schoolId e)%Z)
           (Equivalency.schoolId e)); auto.
  intros k. apply Z.eqb_eq.
Qed.

Lemma gtCourse_of e :
  In e (rows (Equivalency db)) ->
  exists g, In g (rows (GTCourse db)) /\ GTCourse.id g = Equivalency.gtCourseId e
    /\ filter (fun g => (GTCourse.id g =? Equivalency.gtCourseId e)%Z)
              (rows (GTCourse db)) = [g].
Proof.
  intros He. destruct Hok.
  apply Equivalency_fk_gt0, in_map_iff in He. destruct He as (g & Eg & Hg).
  exists g. repeat split; try assumption.
  apply (unique_filter GTCourse.id (fun k => (k =? Equivalency.gtCourseId e)%Z)
           (Equivalency.gtCourseId e)); auto.
  intros k. apply Z.eqb_eq.
Qed.

Lemma external_of (e : Equivalency.row) :
  let matches := filter (fun ec =>
                   (ExternalCourse.schoolId ec =? Equivalency.schoolId e)%Z
                   && String.eqb (ExternalCourse.code ec)
                                 (Equivalency.externalCourseCode e))
                   (rows (ExternalCourse db)) in
  (matches = []
   /\ forall ec, In ec (rows (ExternalCourse db)) ->
        ~ (ExternalCourse.schoolId ec = Equivalency.schoolId e
           /\ ExternalCourse.code ec = Equivalency.externalCourseCode e))
  \/ (exists ec, matches = [ec] /\ In ec (rows (ExternalCourse db))
        /\ ExternalCourse.schoolId ec = Equivalency.schoolId e
        /\ ExternalCourse.code ec = Equivalency.externalCourseCode e).
Proof.
  intros matches. subst matches.
  set (p := fun ec => (ExternalCourse.schoolId ec =? Equivalency.schoolId e)%Z
                      && String.eqb (ExternalCourse.code ec)
                                    (Equivalency.externalCourseCode e)).
  assert (Hp : forall ec, p ec = true <->
                 ExternalCourse.schoolId ec = Equivalency.schoolId e
                 /\ ExternalCourse.code ec = Equivalency.externalCourseCode e).
  { intros ec. unfold p. now rewrite andb_true_iff, Z.eqb_eq, String.eqb_eq. }
  destruct (existsb p (rows (ExternalCourse db))) eqn:E.
  - right. apply existsb_exists in E. destruct E as (ec & Hin & Hpe).
    exists ec. apply Hp in Hpe as Hkey. destruct Hkey as [Hs Hc].
    repeat split; try assumption.
    destruct Hok.
    apply (unique_filter extKey
             (fun k => (fst k =? Equivalency.schoolId e)%Z
                       && String.eqb (snd k) (Equivalency.externalCourseCode e))
             (Equivalency.schoolId e, Equivalency.externalCourseCode e)); auto.
    + unfold extKey. now rewrite Hs, Hc.
    + intros [a b]. simpl. rewrite andb_true_iff, Z.eqb_eq, String.eqb_eq.
      split; [intros [-> ->]; reflexivity | intros [= -> ->]; auto].
  - left. split.
    + apply filter_none. now apply existsb_false.
    + intros ec Hin Hkey. apply Hp in Hkey.
      eapply existsb_false in E; eauto. congruence.
Qed.

Lemma join_one e :
  In e (rows (Equivalency db)) ->
  exists it,
    flat_map (fun s =>
       flat_map (fun gc => leftJoinExternal db e s gc)
         (filter (fun gc => (GTCourse.id gc =? Equivalency.gtCourseId e)%Z)
                 (rows (GTCourse db))))
       (filter (fun s => (School.id s =? Equivalency.schoolId e)%Z)
               (rows (School db)))
    = [it]
    /\ itemOf db e it.
Proof.
  intros He.
  destruct (school_of e He) as (s & Hs & Es & ->).
  destruct (gtCourse_of e He) as (g & Hg & Eg & ->).
  simpl. rewrite !app_nil_r. unfold leftJoinExternal.
  destruct (external_of e) as [[-> Hnone]|(ec & -> & Hec & Ecs & Ecc)].
  - eexists. split; [reflexivity|]. unfold itemOf. simpl.
    split; [eauto|]. split; [exists g; auto|]. split; [reflexivity|].
    right. auto.
  - eexists. split; [reflexivity|]. unfold itemOf. simpl.
    split; [eauto|]. split; [exists g; auto|]. split; [reflexivity|].
    left. exists ec. auto 10.
Qed.

Lemma selectEquivalents_spec gtId :
  exists es,
    Permutation (equivalenciesOf db gtId) es
    /\ Forall2 (itemOf db) es (selectEquivalents db gtId)
    /\ StronglySorted itemLe (selectEquivalents db gtId).
Proof.
  unfold selectEquivalents.
  match goal with
  | |- context [Sql.orderBy itemLeb (flat_map ?f ?l)] =>
      destruct (flat_map_single (itemOf db) f l) as (its & E & HF)
  end.
  { intros e He. apply filter_In in He. destruct He as [He _].
    now apply join_one. }
  fold (equivalenciesOf db gtId) in *. rewrite E.
  destruct (Forall2_perm _ _ _ _ HF (orderBy_perm itemLeb its)) as (es & Hp & HF').
  exists es. split; [assumption|]. split; [assumption|].
  apply Sorted_StronglySorted; [exact itemLe_trans|].
  apply orderBy_sorted. apply itemLeb_total.
Qed.

End Join.

(** ** Pacing *)

Section Pacing.
Open Scope Q_scope.
Variable d : Q.
Hypothesis d_nonneg : 0 <= d.

Lemma within_iff lo hi t :
  Crawler.within lo hi t = true <-> lo <= t /\ t < hi.
Proof.
  unfold Crawler.within. rewrite andb_true_iff, negb_true_iff, Qle_bool_iff.
  split; intros [H1 H2]; split; try assumption.
  - apply Qnot_le_lt. intros H. apply Qle_bool_iff in H. congruence.
  - destruct (Qle_bool hi t) eqn:E; [|reflexivity].
    apply Qle_bool_iff in E. apply Qlt_not_le in H2. contradiction.
Qed.

Lemma spaced_tail a r : spaced d (a :: r) -> spaced d r.
Proof. destruct r; simpl; tauto. Qed.

Lemma spaced_lower r : forall a, spaced d (a :: r) -> forall t, In t r -> a + d <= t.
Proof.
  induction r as [|b r IH]; intros a Hs t Hin; [contradiction|].
  destruct Hs as [Hab Hr]. destruct Hin as [<-|Hin]; [assumption|].
  specialize (IH b Hr t Hin). lra.
Qed.

Lemma spaced_snoc l t :
  spaced d l -> (forall t', In t' l -> t' + d <= t) -> spaced d (l ++ [t]).
Proof.
  induction l as [|a l IH]; intros Hs Hl; [exact I|].
  destruct l as [|b l].
  - simpl. split; [|exact I]. apply Hl. now left.
  - destruct Hs as [Hab Hr]. split; [assumption|].
    apply IH; [assumption|]. intros t' Ht'. apply Hl. now right.
Qed.

Lemma filter_length_le (p q : Q -> bool) l :
  (forall t, In t l -> p t = true -> q t = true) ->
  (List.length (filter p l) <= List.length (filter q l))%nat.
Proof.
  induction l as [|a l IH]; simpl; intros H; [lia|].
  assert (IH' : (List.length (filter p l) <= List.length (filter q l))%nat)
    by (apply IH; intros; apply H; auto).
  destruct (p a) eqn:Ep.
  - rewrite (H a (or_introl eq_refl) Ep). simpl. lia.
  - destruct (q a); simpl; lia.
Qed.

(** Of times at least [d] apart, at most [k] fall in a span of [k] times
    [d]. *)
Lemma spaced_count l :
  spaced d l ->
  forall k s,
    (List.length (filter (Crawler.within s (s + ntimes k d)) l) <= k)%nat.
Proof.
  induction l as [|a r IH]; intros Hs k s; simpl; [lia|].
  pose proof (spaced_tail a r Hs) as Hr.
  destruct (Crawler.within s (s + ntimes k d) a) eqn:Ea; [|now apply IH].
  apply within_iff in Ea. destruct Ea as [Hlo Hhi].
  destruct k as [|k]; [simpl in Hhi; lra|].
  simpl List.length. apply le_n_S.
  eapply Nat.le_trans; [|apply (IH Hr k (a + d))].
  apply filter_length_le. intros t Ht Hw.
  apply within_iff in Hw. apply within_iff.
  pose proof (spaced_lower r a Hs t Ht). simpl in Hw. lra.
Qed.

End Pacing.

Lemma ntimes_scale k d : (ntimes k d == inject_Z (Z.of_nat k) * d)%Q.
Proof.
  induction k as [|k IH]; [simpl; ring|].
  change (ntimes (S k) d) with (d + ntimes k d)%Q. rewrite IH.
  rewrite Nat2Z.inj_succ. unfold Z.succ. rewrite inject_Z_plus. ring.
Qed.

Lemma ntimes_interval R : (ntimes (Pos.to_nat R) (Crawler.interval R) == 60)%Q.
Proof.
  rewrite ntimes_scale. unfold Crawler.interval.
  rewrite positive_nat_Z. unfold Qeq, Qmult, inject_Z. simpl. lia.
Qed.

Lemma interval_nonneg R : (0 <= Crawler.interval R)%Q.
Proof. unfold Crawler.interval, Qle. simpl. lia. Qed.

Lemma later_bounds a b : (a <= Crawler.later a b /\ b <= Crawler.later a b)%Q.
Proof.
  unfold Crawler.later. destruct (Qle_bool a b) eqn:E.
  - apply Qle_bool_iff in E. split; [assumption | apply Qle_refl].
  - split; [apply Qle_refl|]. apply Qlt_le_weak, Qnot_le_lt.
    intros H. apply Qle_bool_iff in H. congruence.
Qed.

Section Limited.
Variable R : positive.
Variables base cap : Q.

Let d := Crawler.interval R.

Lemma initial_paced now : paced d (Crawler.initial now).
Proof. repeat split. Qed.

Lemma acquire_paced w c :
  paced d w ->
  paced d {| Crawler.clock := c;
             Crawler.limiter := snd (Crawler.acquire R (Crawler.clock w) (Crawler.limiter w));
             Crawler.issued :=
               Crawler.issued w
               ++ [fst (Crawler.acquire R (Crawler.clock w) (Crawler.limiter w))] |}.
Proof.
  intros (Hs & Hn & Hg). pose proof (interval_nonneg R) as Hd. fold d in Hd.
  unfold paced, Crawler.acquire. simpl.
  destruct (Crawler.nextSlot (Crawler.limiter w)) as [slot|].
  - pose proof (later_bounds (Crawler.clock w) slot) as [_ Hl].
    assert (Hall : forall t', In t' (Crawler.issued w) ->
              (t' + d <= Crawler.later (Crawler.clock w) slot)%Q).
    { intros t' Ht'. specialize (Hn t' Ht'). lra. }
    split; [now apply spaced_snoc|]. split.
    + intros t Ht. apply in_app_or in Ht. destruct Ht as [Ht|[<-|[]]].
      * specialize (Hall t Ht). fold d. lra.
      * apply Qle_refl.
    + rewrite length_app. simpl. lia.
  - rewrite Hn in *. simpl. split; [exact I|]. split.
    + intros t [<-|[]]. apply Qle_refl.
    + simpl in Hg. lia.
Qed.

Lemma paced_clock w c :
  paced d w ->
  paced d {| Crawler.clock := c; Crawler.limiter := Crawler.limiter w;
             Crawler.issued := Crawler.issued w |}.
Proof. intros H. exact H. Qed.

Lemma attempts_paced network left :
  forall done w,
    paced d w -> paced d (snd (Crawler.attempts R base cap left done network w)).
Proof.
  induction left as [|left IH]; intros done w Hw; [exact Hw|].
  cbn [Crawler.attempts].
  destruct (Crawler.acquire R (Crawler.clock w) (Crawler.limiter w)) as [t lim] eqn:Ea.
  set (x := network (List.length (Crawler.issued w))).
  pose proof (acquire_paced w (t + Crawler.latency x)%Q Hw) as Hw1.
  rewrite Ea in Hw1. simpl in Hw1.
  destruct (Crawler.result x); try exact Hw1.
  destruct left as [|left']; [exact Hw1|].
  apply IH. exact Hw1.
Qed.

Lemma crawl_paced RETRY_MAX network units :
  forall w, paced d w ->
    paced d (snd (Crawler.crawl R RETRY_MAX base cap units network w)).
Proof.
  induction units as [|u rest IH]; intros w Hw; [exact Hw|].
  cbn [Crawler.crawl].
  pose proof (attempts_paced (network u) RETRY_MAX 0%nat w Hw) as H1.
  unfold Crawler.fetch.
  destruct (Crawler.attempts R base cap RETRY_MAX 0 (network u) w) as [r w1].
  specialize (IH w1 H1).
  destruct (Crawler.crawl R RETRY_MAX base cap rest network w1) as [rs w2].
  exact IH.
Qed.

Lemma paced_window w start :
  paced d w -> (Crawler.issuedInWindow start w <= Pos.to_nat R)%nat.
Proof.
  intros (Hs & _ & _). unfold Crawler.issuedInWindow.
  pose proof (interval_nonneg R) as Hd. fold d in Hd.
  eapply Nat.le_trans; [|apply (spaced_count d Hd _ Hs (Pos.to_nat R) start)].
  apply filter_length_le. intros t _ Ht.
  apply within_iff in Ht. apply within_iff.
  pose proof (ntimes_interval R) as E. fold d in E. lra.
Qed.

End Limited.

(** ** Characters of the normalized code *)

Lemma allChars_app p a b : allChars p (a ++ b) = allChars p a && allChars p b.
Proof.
  induction a as [|c r IH]; simpl; [reflexivity|].
  now rewrite IH, andb_assoc.
Qed.

Lemma allChars_impl (p q : ascii -> bool) s :
  (forall c, p c = true -> q c = true) -> allChars p s = true -> allChars q s = true.
Proof.
  intros H. induction s as [|c r IH]; simpl; [reflexivity|].
  rewrite !andb_true_iff. intros [Hc Hr]. auto.
Qed.

Lemma append_empty s : s ++ EmptyString = s.
Proof. induction s as [|c r IH]; simpl; [reflexivity | now rewrite IH]. Qed.

Lemma append_assoc a b c : (a ++ b) ++ c = a ++ b ++ c.
Proof. induction a as [|x r IH]; simpl; [reflexivity | now rewrite IH]. Qed.

(** The capital form of a unit is made of units that are their own
    capitals. *)
Lemma upperChar_stable c : allChars upperStable (Js.upperChar c) = true.
Proof. destruct c as [[] [] [] [] [] [] [] []]; vm_compute; reflexivity. Qed.

Lemma upperStable_noLower c : upperStable c = true -> negb (Js.isLower c) = true.
Proof. destruct c as [[] [] [] [] [] [] [] []]; vm_compute; congruence. Qed.

Lemma toUpperCase_stable s : allChars upperStable (Js.toUpperCase s) = true.
Proof.
  induction s as [|c r IH]; [reflexivity|]. cbn [Js.toUpperCase].
  now rewrite allChars_app, upperChar_stable, IH.
Qed.

Lemma toUpperCase_fixed s :
  allChars upperStable s = true -> Js.toUpperCase s = s.
Proof.
  induction s as [|c r IH]; [reflexivity|]. cbn [Js.toUpperCase allChars].
  rewrite andb_true_iff. intros [Hc Hr]. unfold upperStable in Hc.
  apply String.eqb_eq in Hc. now rewrite Hc, IH.
Qed.

Lemma toUpperCase_noLower s :
  allChars (fun c => negb (Js.isLower c)) (Js.toUpperCase s) = true.
Proof.
  eapply allChars_impl; [exact upperStable_noLower | apply toUpperCase_stable].
Qed.

Lemma toUpperCase_app a b :
  Js.toUpperCase (a ++ b) = Js.toUpperCase a ++ Js.toUpperCase b.
Proof.
  induction a as [|c r IH]; [reflexivity|].
  change (Js.upperChar c ++ Js.toUpperCase (r ++ b)
          = (Js.upperChar c ++ Js.toUpperCase r) ++ Js.toUpperCase b).
  now rewrite IH, append_assoc.
Qed.

Lemma toUpperCase_idem s : Js.toUpperCase (Js.toUpperCase s) = Js.toUpperCase s.
Proof. apply toUpperCase_fixed, toUpperCase_stable. Qed.

Lemma removeSpaces_keeps p s :
  allChars p s = true -> allChars p (Js.removeSpaces s) = true.
Proof.
  induction s as [|c r IH]; simpl; [reflexivity|].
  rewrite andb_true_iff. intros [Hc Hr].
  destruct (Js.isSpace c); simpl; [auto|]. now rewrite Hc, IH.
Qed.

Lemma removeSpaces_noSpace s :
  allChars (fun c => negb (Js.isSpace c)) (Js.removeSpaces s) = true.
Proof.
  induction s as [|c r IH]; simpl; [reflexivity|].
  destruct (Js.isSpace c) eqn:E; simpl; [assumption|]. now rewrite E, IH.
Qed.

Lemma noSpace_removeSpaces s :
  allChars (fun c => negb (Js.isSpace c)) s = true -> Js.removeSpaces s = s.
Proof.
  induction s as [|c r IH]; simpl; [reflexivity|].
  rewrite andb_true_iff, negb_true_iff. intros [Hc Hr].
  now rewrite Hc, IH.
Qed.

Lemma stripUpper_stable s : allChars upperStable (stripUpper s) = true.
Proof. apply removeSpaces_keeps, toUpperCase_stable. Qed.

Lemma stripUpper_noLower s :
  allChars (fun c => negb (Js.isLower c)) (stripUpper s) = true.
Proof. apply removeSpaces_keeps, toUpperCase_noLower. Qed.

Lemma stripUpper_noSpace s :
  allChars (fun c => negb (Js.isSpace c)) (stripUpper s) = true.
Proof. apply removeSpaces_noSpace. Qed.

Lemma stripUpper_app a b : stripUpper (a ++ b) = stripUpper a ++ stripUpper b.
Proof. unfold stripUpper. now rewrite toUpperCase_app, removeSpaces_app. Qed.

(** Whatever the parameter is, [normalizeGT] sees only its string. *)
Lemma normalizeGT_value gt :
  normalizeGT gt = Js.spaceAfterLetters (stripUpper (Js.stringOrEmpty gt)).
Proof. exact (normalizeGT_string (Js.stringOrEmpty gt)). Qed.

Lemma countChar_app c a b : countChar c (a ++ b) = (countChar c a + countChar c b)%nat.
Proof.
  induction a as [|d r IH]; simpl; [reflexivity|].
  destruct (Ascii.eqb d c); simpl; now rewrite IH.
Qed.

Lemma noSpace_count s :
  allChars (fun c => negb (Js.isSpace c)) s = true -> countChar " " s = O.
Proof.
  induction s as [|c r IH]; simpl; [reflexivity|].
  rewrite andb_true_iff, negb_true_iff. intros [Hc Hr].
  destruct (Ascii.eqb_spec c " "%char) as [->|_]; [discriminate | auto].
Qed.

Lemma noSpace_codeChar s :
  allChars (fun c => negb (Js.isLower c)) s = true ->
  allChars (fun c => negb (Js.isSpace c)) s = true ->
  allChars codeChar s = true.
Proof.
  induction s as [|c r IH]; simpl; [reflexivity|].
  rewrite !andb_true_iff. intros [Hl Hlr] [Hs Hsr].
  split; [|auto]. unfold codeChar. now rewrite Hl, Hs.
Qed.

Lemma normalizeGT_codeChars gt : allChars codeChar (normalizeGT gt) = true.
Proof.
  rewrite (normalizeGT_value gt).
  set (c := stripUpper (Js.stringOrEmpty gt)).
  pose proof (stripUpper_noLower (Js.stringOrEmpty gt)) as Hl.
  pose proof (stripUpper_noSpace (Js.stringOrEmpty gt)) as Hs.
  fold c in Hl, Hs.
  destruct (spaceAfterLetters_cases c) as [[_ ->]|[_ (l & d & t & Ec & ->)]].
  - now apply noSpace_codeChar.
  - rewrite Ec in Hl, Hs. rewrite !allChars_app, !andb_true_iff in Hl, Hs.
    destruct Hl as (Hl1 & Hl2 & Hl3). destruct Hs as (Hs1 & Hs2 & Hs3).
    rewrite !allChars_app, !andb_true_iff.
    repeat split; try (now apply noSpace_codeChar).
Qed.

(** ** Longest prefixes *)

Lemma span_all p a b :
  allChars p a = true ->
  match b with EmptyString => True | String c _ => p c = false end ->
  Js.span p (a ++ b) = (a, b).
Proof.
  intros Ha Hb. induction a as [|c r IH]; simpl in *.
  - destruct b as [|c r]; [reflexivity|]. simpl. now rewrite Hb.
  - apply andb_true_iff in Ha. destruct Ha as [Hc Hr].
    now rewrite Hc, IH.
Qed.

Lemma span_all_nil p a : allChars p a = true -> Js.span p a = (a, EmptyString).
Proof.
  induction a as [|c r IH]; simpl; [reflexivity|].
  rewrite andb_true_iff. intros [Hc Hr]. now rewrite Hc, IH.
Qed.

Lemma span_allChars p s a b : Js.span p s = (a, b) -> allChars p a = true.
Proof.
  revert a b. induction s as [|c r IH]; simpl; intros a b H.
  - now inversion H.
  - destruct (p c) eqn:E.
    + destruct (Js.span p r) as [a' b'] eqn:Er. inversion H; subst.
      simpl. rewrite E. eapply IH. reflexivity.
    + now inversion H.
Qed.

Lemma span_stops p s a c b : Js.span p s = (a, String c b) -> p c = false.
Proof.
  revert a. induction s as [|d r IH]; simpl; intros a H.
  - inversion H.
  - destruct (p d) eqn:E.
    + destruct (Js.span p r) as [a' b'] eqn:Er. inversion H; subst.
      eapply IH. reflexivity.
    + inversion H; subst. assumption.
Qed.

Lemma isDigit_not_upper c : Js.isDigit c = true -> Js.isUpper c = false.
Proof. destruct c as [[] [] [] [] [] [] [] []]; vm_compute; congruence. Qed.

(** The test [^[A-Z]+\d+$] holds of the strings that are LETTERS followed
    by DIGITS. *)
Lemma lettersThenDigits_shape s :
  lettersThenDigits s = true <-> lettersDigits s.
Proof.
  unfold lettersThenDigits, lettersDigits. split.
  - destruct (Js.span Js.isUpper s) as [l rest] eqn:El.
    destruct (Js.span Js.isDigit rest) as [d t] eqn:Ed.
    destruct l as [|c l]; [discriminate|].
    destruct d as [|c' d]; [discriminate|].
    destruct t; [|discriminate]. intros _.
    exists (String c l), (String c' d).
    pose proof (span_app _ _ _ _ El) as E1.
    pose proof (span_app _ _ _ _ Ed) as E2.
    rewrite E2 in E1. rewrite E1, append_empty.
    repeat split; try discriminate.
    + eapply span_allChars, El.
    + eapply span_allChars, Ed.
  - intros (l & d & -> & Hl & Hal & Hd & Had).
    destruct d as [|c' d]; [contradiction|].
    destruct l as [|c l]; [contradiction|].
    assert (Hc' : Js.isDigit c' = true).
    { simpl in Had. now apply andb_true_iff in Had. }
    rewrite (span_all Js.isUpper (String c l) (String c' d) Hal
               (isDigit_not_upper c' Hc')).
    now rewrite (span_all_nil Js.isDigit (String c' d) Had).
Qed.

(** The normalizer of the pipeline works on the same stripped, uppercased
    form, and accepts it when it is LETTERS followed by DIGITS. *)
Lemma normalizeCode_stripUpper s :
  Scraper.normalizeCode s
  = let c := stripUpper s in
    let (letters, rest) := Js.span Js.isUpper c in
    let (digits, tail) := Js.span Js.isDigit rest in
    match letters, digits, tail with
    | String _ _, String _ _, EmptyString => Some (letters ++ " " ++ digits)
    | _, _, _ => None
    end.
Proof.
  unfold Scraper.normalizeCode, stripUpper. now rewrite removeSpaces_toUpperCase.
Qed.

Lemma normalizeCode_rejects s :
  ~ lettersDigits (stripUpper s) -> Scraper.normalizeCode s = None.
Proof.
  intros H. rewrite normalizeCode_stripUpper. cbv zeta.
  assert (Hb : lettersThenDigits (stripUpper s) = false).
  { destruct (lettersThenDigits (stripUpper s)) eqn:E; [|reflexivity].
    exfalso. now apply H, lettersThenDigits_shape. }
  unfold lettersThenDigits in Hb.
  destruct (Js.span Js.isUpper (stripUpper s)) as [l rest].
  destruct (Js.span Js.isDigit rest) as [d t].
  destruct l; [reflexivity|]. destruct d; [reflexivity|].
  destruct t; [discriminate | reflexivity].
Qed.

Lemma normalizeCode_accepts s L D :
  stripUpper s = L ++ D ->
  L <> EmptyString -> allChars Js.isUpper L = true ->
  D <> EmptyString -> allChars Js.isDigit D = true ->
  Scraper.normalizeCode s = Some (L ++ " " ++ D).
Proof.
  intros E HL HLu HD HDd. rewrite normalizeCode_stripUpper, E. cbv zeta.
  rewrite (span_all Js.isUpper L D HLu).
  - rewrite (span_all_nil Js.isDigit D HDd).
    destruct L; [contradiction|]. destruct D; [contradiction|]. reflexivity.
  - destruct D as [|d r]; [exact I|]. simpl in HDd.
    apply andb_true_iff in HDd. now apply isDigit_not_upper.
Qed.

(** ** Blank parameters *)

Lemma isBlank_removeSpaces s :
  isBlank s = false -> Js.removeSpaces s <> EmptyString.
Proof.
  induction s as [|c r IH]; simpl; [discriminate|].
  destruct (Js.isSpace c); simpl; [assumption | discriminate].
Qed.

Lemma blank_removeSpaces s : isBlank s = true -> Js.removeSpaces s = EmptyString.
Proof.
  induction s as [|c r IH]; simpl; [reflexivity|].
  destruct (Js.isSpace c); simpl; [assumption | discriminate].
Qed.

Lemma normalizeGT_nonblank s :
  isBlank s = false -> normalizeGT (gtParam s) <> EmptyString.
Proof.
  intros H E. rewrite normalizeGT_string in E.
  apply spaceAfterLetters_empty in E. unfold stripUpper in E.
  rewrite removeSpaces_toUpperCase in E. apply toUpperCase_empty in E.
  now apply isBlank_removeSpaces in H.
Qed.

Lemma stripUpper_blank w : isBlank w = true -> stripUpper w = EmptyString.
Proof.
  intros H. unfold stripUpper. rewrite removeSpaces_toUpperCase.
  now rewrite blank_removeSpaces.
Qed.

(** ** What the lookup compares *)

Lemma replaceSpace_app a b :
  Sql.replaceSpace (a ++ b) = Sql.replaceSpace a ++ Sql.replaceSpace b.
Proof.
  induction a as [|c r IH]; simpl; [reflexivity|].
  destruct (Ascii.eqb c " "); simpl; now rewrite IH.
Qed.

Lemma noSpace_replaceSpace s :
  allChars (fun c => negb (Js.isSpace c)) s = true -> Sql.replaceSpace s = s.
Proof.
  induction s as [|c r IH]; simpl; [reflexivity|].
  rewrite andb_true_iff, negb_true_iff. intros [Hc Hr].
  destruct (Ascii.eqb_spec c " "%char) as [->|_]; [discriminate|].
  now rewrite IH.
Qed.

Lemma replaceSpace_normalizeGT gt :
  Sql.replaceSpace (normalizeGT gt) = stripUpper (Js.stringOrEmpty gt).
Proof.
  rewrite normalizeGT_value.
  set (c := stripUpper (Js.stringOrEmpty gt)).
  pose proof (stripUpper_noSpace (Js.stringOrEmpty gt)) as Hs. fold c in Hs.
  destruct (spaceAfterLetters_cases c) as [[_ ->]|[_ (l & d & t & Ec & ->)]].
  - now apply noSpace_replaceSpace.
  - rewrite <- (noSpace_replaceSpace c Hs), Ec.
    now rewrite !replaceSpace_app.
Qed.

(** [REPLACE(X, ' ', '')] removes the spaces, and nothing else. *)
Lemma replaceSpace_withoutSpaces s : Sql.replaceSpace s = withoutSpaces s.
Proof.
  unfold withoutSpaces. induction s as [|c r IH]; [reflexivity|].
  cbn [Sql.replaceSpace list_ascii_of_string filter].
  destruct (Ascii.eqb c " "); cbn [negb string_of_list_ascii]; now rewrite IH.
Qed.

Lemma selectGTCourse_none db c :
  (forall g, In g (rows (GTCourse db)) ->
     Sql.replaceSpace (GTCourse.code g) <> Sql.replaceSpace c) ->
  selectGTCourse db c = None.
Proof.
  intros H. unfold selectGTCourse.
  destruct (find _ _) as [g|] eqn:E; [|reflexivity].
  apply find_some in E. destruct E as [Hin Heq].
  apply String.eqb_eq in Heq. now apply H in Hin.
Qed.

Lemma selectGTCourse_some db c g :
  selectGTCourse db c = Some g ->
  In g (rows (GTCourse db))
  /\ Sql.replaceSpace (GTCourse.code g) = Sql.replaceSpace c.
Proof.
  unfold selectGTCourse. intros E. apply find_some in E.
  destruct E as [Hin Heq]. now apply String.eqb_eq in Heq.
Qed.

Lemma selectGTCourse_exists db c g :
  In g (rows (GTCourse db)) ->
  Sql.replaceSpace (GTCourse.code g) = Sql.replaceSpace c ->
  exists g', selectGTCourse db c = Some g'.
Proof.
  intros Hin Heq. unfold selectGTCourse.
  destruct (find _ _) as [g'|] eqn:E; [eauto|].
  eapply find_none in E; [|exact Hin].
  simpl in E. rewrite Heq, String.eqb_refl in E. discriminate.
Qed.

(** [.get()] returns the first row of the scan that satisfies the
    condition. *)
Lemma find_first {A : Type} (p : A -> bool) l x :
  find p l = Some x ->
  exists before after,
    l = (before ++ x :: after)%list /\ (forall y, In y before -> p y = false).
Proof.
  induction l as [|a l IH]; simpl; [discriminate|].
  destruct (p a) eqn:E.
  - intros [= ->]. exists [], l. split; [reflexivity | intros y []].
  - intros H. destruct (IH H) as (before & after & -> & Hb).
    exists (a :: before), after. split; [reflexivity|].
    intros y [<-|Hy]; auto.
Qed.

(** The course the handler selects for a string parameter: the first in
    the table whose code, spaces removed, is the parameter stripped of white
    space and uppercased. *)
Lemma selectGTCourse_first db s g :
  selectGTCourse db (normalizeGT (gtParam s)) = Some g ->
  exists before after,
    rows (GTCourse db) = (before ++ g :: after)%list
    /\ withoutSpaces (GTCourse.code g) = stripUpper s
    /\ (forall g', In g' before -> withoutSpaces (GTCourse.code g') <> stripUpper s).
Proof.
  intros E. pose proof (replaceSpace_normalizeGT (gtParam s)) as En. simpl in En.
  destruct (selectGTCourse_some db _ g E) as [_ Eg].
  rewrite En, replaceSpace_withoutSpaces in Eg.
  unfold selectGTCourse in E. apply find_first in E.
  destruct E as (before & after & Er & Hb).
  exists before, after. split; [assumption|]. split; [assumption|].
  intros g' Hg' Eq. apply Hb in Hg'. rewrite En in Hg'.
  rewrite replaceSpace_withoutSpaces, Eq, String.eqb_refl in Hg'. discriminate.
Qed.

(** ** The order of the items *)

Lemma ascii_compare_lt c d :
  Ascii.compare c d = Lt <-> (nat_of_ascii c < nat_of_ascii d)%nat.
Proof.
  unfold Ascii.compare, nat_of_ascii. rewrite N.compare_lt_iff. lia.
Qed.

(** The comparison of [BINARY] text is the order of text. *)
Lemma compare_strLt a b : String.compare a b = Lt <-> strLt a b.
Proof.
  revert b. induction a as [|c a IH]; intros [|d b]; simpl.
  - split; [discriminate | inversion 1].
  - split; [constructor | reflexivity].
  - split; [discriminate | inversion 1].
  - destruct (Ascii.compare c d) eqn:E.
    + apply Ascii.compare_eq_iff in E. subst d. rewrite IH. split.
      * now constructor.
      * inversion 1; subst; [lia | assumption].
    + split; [intros _; constructor; now apply ascii_compare_lt | reflexivity].
    + split; [discriminate|].
      assert (Hgt : (nat_of_ascii d < nat_of_ascii c)%nat).
      { apply ascii_compare_lt. rewrite Ascii.compare_antisym, E. reflexivity. }
      inversion 1; subst; lia.
Qed.

Lemma leb_strLe x y : String.leb x y = true <-> x = y \/ strLt x y.
Proof.
  unfold String.leb. destruct (String.compare x y) eqn:E.
  - apply String.compare_eq_iff in E. tauto.
  - apply compare_strLt in E. tauto.
  - split; [discriminate|]. intros [->|H].
    + rewrite compare_refl in E. discriminate.
    + apply compare_strLt in H. congruence.
Qed.

(** [ORDER BY s.name, ec.code] compares as the order by school name, then
    external course code does. *)
Lemma itemLe_byNameThenCode a b : itemLe a b <-> byNameThenCode a b.
Proof.
  unfold itemLe, itemLeb, byNameThenCode.
  destruct (String.compare (schoolName a) (schoolName b)) eqn:E.
  - apply String.compare_eq_iff in E. rewrite E.
    assert (Hirr : ~ strLt (schoolName b) (schoolName b)).
    { intros H. apply compare_strLt in H. rewrite compare_refl in H. discriminate. }
    assert (Hn : Sql.nullableLeb (externalCourseCode a) (externalCourseCode b) = true
                 <-> nullFirst (externalCourseCode a) (externalCourseCode b)).
    { unfold Sql.nullableLeb, nullFirst.
      destruct (externalCourseCode a), (externalCourseCode b);
        try apply leb_strLe; split; auto; discriminate. }
    rewrite Hn. tauto.
  - apply compare_strLt in E. tauto.
  - split; [discriminate|]. intros [H|[H _]].
    + apply compare_strLt in H. congruence.
    + rewrite H, compare_refl in E. discriminate.
Qed.

Lemma StronglySorted_byNameThenCode l :
  StronglySorted itemLe l -> StronglySorted byNameThenCode l.
Proof.
  induction 1 as [|a l Hs IH Hall]; constructor; [assumption|].
  eapply Forall_impl; [|exact Hall]. intros b. apply itemLe_byNameThenCode.
Qed.

Lemma reachable_steps sts db :
  reachable db -> reachable (fold_left (fun d st => run st d) sts db).
Proof.
  revert db. induction sts as [|st sts IH]; intros db H; [exact H|].
  simpl. apply IH. now constructor.
Qed.

(** ** Course-code normalization *)

(** C1.  The three spellings ["CS1331"], ["cs 1331"] and ["CS  1331"] of the
    query parameter normalize to the same canonical code ["CS 1331"]. *)
Theorem normalizeGT_canonical :
  normalizeGT (gtParam "CS1331") = "CS 1331"
  /\ normalizeGT (gtParam "cs 1331") = "CS 1331"
  /\ normalizeGT (gtParam "CS  1331") = "CS 1331".
Proof. repeat split; reflexivity. Qed.

Lemma normalize_malformed_code parseReal r :
  Scraper.normalizeCode (Scraper.gt r) = None
  \/ Scraper.normalizeCode (Scraper.ext r) = None ->
  exists reasons,
    Scraper.normalize parseReal r = inr reasons
    /\ In Scraper.MALFORMED_CODE reasons.
Proof.
  intros H. unfold Scraper.normalize.
  destruct (Scraper.normalizeCode (Scraper.gt r)) as [g|];
    destruct (Scraper.normalizeCode (Scraper.ext r)) as [x|];
    try (destruct H; discriminate);
    destruct (Scraper.creditHours parseReal (Scraper.gtCredit r)) as [gh|];
    destruct (Scraper.creditHours parseReal (Scraper.extCredit r)) as [xh|];
    eexists; (split; [reflexivity|]); simpl; auto.
Qed.

(** C2.  The normalizer of the pipeline returns no code for an input whose
    white-space-stripped, uppercased form is not LETTERS followed by DIGITS;
    a record whose GT course code or external course code is such an input
    is rejected with the reason MALFORMED_CODE, is counted under that reason
    and leaves the store exactly as it was.  An input whose form is LETTERS
    followed by DIGITS is not rejected: its code is the letters, one space
    and the digits. *)
Theorem malformed_code_rejected (parseReal : string -> option Q) :
  (forall s, ~ lettersDigits (stripUpper s) -> Scraper.normalizeCode s = None)
  /\ (forall st r,
        ~ lettersDigits (stripUpper (Scraper.gt r))
        \/ ~ lettersDigits (stripUpper (Scraper.ext r)) ->
        (exists reasons,
           Scraper.normalize parseReal r = inr reasons
           /\ In Scraper.MALFORMED_CODE reasons)
        /\ Scraper.store (Scraper.processRecord parseReal st r) = Scraper.store st
        /\ In Scraper.MALFORMED_CODE
              (Scraper.rejected
                 (Scraper.summary (Scraper.processRecord parseReal st r))))
  /\ (forall s L D,
        stripUpper s = L ++ D ->
        L <> EmptyString -> allChars Js.isUpper L = true ->
        D <> EmptyString -> allChars Js.isDigit D = true ->
        Scraper.normalizeCode s = Some (L ++ " " ++ D)).
Proof.
  split; [exact normalizeCode_rejects|]. split; [|exact normalizeCode_accepts].
  intros st r Hbad.
  assert (Hn : exists reasons,
             Scraper.normalize parseReal r = inr reasons
             /\ In Scraper.MALFORMED_CODE reasons).
  { apply normalize_malformed_code.
    destruct Hbad as [H|H]; [left|right]; now apply normalizeCode_rejects. }
  split; [exact Hn|].
  destruct Hn as (reasons & En & Hin).
  unfold Scraper.processRecord. rewrite En. simpl.
  split; [reflexivity|]. apply in_or_app. now right.
Qed.

Lemma malformed_code_rejected_witness :
  Scraper.normalizeCode "123ABC" = None
  /\ Scraper.normalizeCode "CS" = None
  /\ Scraper.store
       (Scraper.processRecord parseDigits (Scraper.start seededStore)
          {| Scraper.school := "Georgia State University";
             Scraper.gt := "123ABC"; Scraper.gtTitle := "Intro to OOP";
             Scraper.gtCredit := Scraper.Num 3%Q;
             Scraper.ext := "CSC2510"; Scraper.extTitle := "OOP";
             Scraper.extCredit := Scraper.Num 3%Q;
             Scraper.semester := "Fall 2025" |}) = seededStore
  /\ Scraper.normalizeCode "cs 1331" = Some ("CS" ++ " " ++ "1331").
Proof.
  assert (Hno : forall s, lettersThenDigits (stripUpper s) = false ->
                          ~ lettersDigits (stripUpper s)).
  { intros s E H. apply lettersThenDigits_shape in H. congruence. }
  destruct (malformed_code_rejected parseDigits) as (Hcode & Hrec & Hgood).
  split; [apply Hcode, Hno; reflexivity|].
  split; [apply Hcode, Hno; reflexivity|]. split.
  - match goal with
    | |- Scraper.store (Scraper.processRecord _ ?st ?r) = _ =>
        destruct (Hrec st r) as (_ & E & _); [|exact E]
    end.
    left. apply Hno. reflexivity.
  - apply (Hgood "cs 1331" "CS" "1331"); reflexivity || discriminate.
Defined.

(** ** The endpoint: missing parameter and unknown course *)

(** C9.  A request whose [gt] is absent, empty or only white space is
    answered with status 400 and no statement is run on the store; a request
    whose [gt] normalizes to a non-empty code that equals no stored GT course
    code once spaces are removed is answered with [{items: [], total: 0}].
    For a string that is not blank, that is the case when no stored code
    with its spaces removed is the string stripped of white space and
    uppercased. *)
Theorem equivalents_missing_or_unknown (db : Store) (gt : option Js.value) :
  (gt = None \/ (exists s, gt = gtParam s /\ isBlank s = true) ->
   normalizeGT gt = EmptyString
   /\ getEquivalents db gt = ([], Status400 gtRequired))
  /\ (normalizeGT gt <> EmptyString ->
      (forall g, In g (rows (GTCourse db)) ->
         Sql.replaceSpace (GTCourse.code g) <> Sql.replaceSpace (normalizeGT gt)) ->
      snd (getEquivalents db gt) = Json [] 0)
  /\ (forall s,
        gt = gtParam s ->
        isBlank s = false ->
        (forall g, In g (rows (GTCourse db)) ->
           withoutSpaces (GTCourse.code g) <> stripUpper s) ->
        snd (getEquivalents db gt) = Json [] 0).
Proof.
  assert (Hnone : normalizeGT gt <> EmptyString ->
            (forall g, In g (rows (GTCourse db)) ->
               Sql.replaceSpace (GTCourse.code g)
               <> Sql.replaceSpace (normalizeGT gt)) ->
            snd (getEquivalents db gt) = Json [] 0).
  { intros Hne Hno. unfold getEquivalents.
    destruct (normalizeGT gt) as [|c r] eqn:E; [contradiction|].
    now rewrite (selectGTCourse_none db (String c r) Hno). }
  split; [|split; [exact Hnone|]].
  - intros H.
    assert (E : normalizeGT gt = EmptyString).
    { destruct H as [->|(s & -> & Hs)]; [reflexivity|].
      now apply normalizeGT_blank. }
    split; [assumption|]. unfold getEquivalents. now rewrite E.
  - intros s -> Hs Hno. apply Hnone; [now apply normalizeGT_nonblank|].
    intros g Hg. rewrite replaceSpace_withoutSpaces.
    rewrite (replaceSpace_normalizeGT (gtParam s)). simpl. now apply Hno.
Qed.

Lemma equivalents_missing_or_unknown_witness :
  (isBlank "  " = true
   /\ getEquivalents seededStore (gtParam "  ") = ([], Status400 gtRequired))
  /\ (normalizeGT (gtParam "math 1551") <> EmptyString
      /\ snd (getEquivalents seededStore (gtParam "math 1551")) = Json [] 0)
  /\ (isBlank "phys 2211" = false
      /\ snd (getEquivalents seededStore (gtParam "phys 2211")) = Json [] 0).
Proof.
  split; [|split].
  - split; [reflexivity|].
    apply (equivalents_missing_or_unknown seededStore (gtParam "  ")).
    right. exists "  ". split; reflexivity.
  - split; [discriminate|].
    apply (equivalents_missing_or_unknown seededStore (gtParam "math 1551")).
    + discriminate.
    + intros g Hin. vm_compute in Hin.
      destruct Hin as [<-|[<-|[]]]; vm_compute; discriminate.
  - split; [reflexivity|].
    apply (proj2 (proj2 (equivalents_missing_or_unknown seededStore
                           (gtParam "phys 2211"))) "phys 2211");
      [reflexivity | reflexivity |].
    intros g Hin. vm_compute in Hin.
    destruct Hin as [<-|[<-|[]]]; vm_compute; discriminate.
Defined.

(** ** The store: uniqueness, references, credit hours *)

Lemma storeOk_referencesExist db : storeOk db -> referencesExist db.
Proof.
  intros [S _ _ _ _]. destruct S. split.
  - intros e He. split.
    + apply Equivalency_fk_school0, in_map_iff in He.
      destruct He as (s & E & Hs). eauto.
    + apply Equivalency_fk_gt0, in_map_iff in He.
      destruct He as (g & E & Hg). eauto.
  - intros x Hx. apply ExternalCourse_fk0, in_map_iff in Hx.
    destruct Hx as (s & E & Hs). eauto.
Qed.

(** C4.  In every state of the store no two Equivalency rows have the same
    (gtCourseId, schoolId, externalCourseCode): inserting a triple that is
    there throws and changes nothing, and neither a further statement nor a
    run of the scraper over any records (re-scraping) produces a second row
    with a triple. *)
Theorem equivalency_unique_per_fact (db : Store) :
  reachable db ->
  NoDup (map fact (rows (Equivalency db)))
  /\ (forall e sem, In e (rows (Equivalency db)) ->
        insEq (Equivalency.gtCourseId e) (Equivalency.schoolId e)
              (Equivalency.externalCourseCode e) sem db
        = (inr SQLITE_CONSTRAINT_UNIQUE, db))
  /\ (forall st, NoDup (map fact (rows (Equivalency (run st db)))))
  /\ (forall parseReal records,
        NoDup (map fact (rows (Equivalency
          (Scraper.store (Scraper.processRecords parseReal records db)))))).
Proof.
  intros Hr. repeat split.
  - apply reachable_ok in Hr. apply Hr.
  - intros e sem He. unfold insEq.
    assert (E : existsb (sameFact (Equivalency.gtCourseId e) (Equivalency.schoolId e)
                           (Equivalency.externalCourseCode e))
                        (rows (Equivalency db)) = true).
    { apply existsb_exists. exists e. split; [assumption|].
      now apply sameFact_fact. }
    now rewrite E.
  - intros st. apply (reachable_ok (run st db)). now constructor.
  - intros parseReal records.
    apply (reachable_ok _ (processRecords_reachable parseReal records db Hr)).
Qed.

Lemma equivalency_unique_per_fact_witness :
  reachable seededStore
  /\ NoDup (map fact (rows (Equivalency seededStore)))
  /\ snd (insEq 1 1 "CSC 2510" "Spring 2026" seededStore) = seededStore.
Proof.
  pose proof (equivalency_unique_per_fact seededStore seededStore_reachable)
    as (Hnd & Hins & _).
  split; [exact seededStore_reachable|]. split; [exact Hnd|].
  assert (Hin : In {| Equivalency.id := 1; Equivalency.gtCourseId := 1;
                      Equivalency.schoolId := 1;
                      Equivalency.externalCourseCode := "CSC 2510";
                      Equivalency.semester := "Fall 2025" |}
                   (rows (Equivalency seededStore))) by (vm_compute; auto).
  apply (Hins _ "Spring 2026") in Hin.
  cbn [Equivalency.gtCourseId Equivalency.schoolId Equivalency.externalCourseCode] in Hin.
  now rewrite Hin.
Defined.

(** C5.  In every state of the store each Equivalency row references a
    School row and a GTCourse row that exist (and each ExternalCourse row a
    School row); an insert that references a missing row changes nothing;
    deleting a School removes exactly that school together with its
    ExternalCourse and Equivalency rows, deleting a GTCourse exactly that
    course together with its Equivalency rows, and no reference is left
    dangling afterwards. *)
Theorem referential_integrity (db : Store) :
  reachable db ->
  referencesExist db
  /\ (forall g s c sem,
        ~ (In g (map GTCourse.id (rows (GTCourse db)))
           /\ In s (map School.id (rows (School db)))) ->
        snd (insEq g s c sem db) = db)
  /\ (forall i,
        let db' := run (DelSchool i) db in
        referencesExist db'
        /\ (forall s, In s (rows (School db')) <->
                      In s (rows (School db)) /\ School.id s <> i)
        /\ (forall x, In x (rows (ExternalCourse db')) <->
                      In x (rows (ExternalCourse db)) /\ ExternalCourse.schoolId x <> i)
        /\ (forall e, In e (rows (Equivalency db')) <->
                      In e (rows (Equivalency db)) /\ Equivalency.schoolId e <> i)
        /\ GTCourse db' = GTCourse db)
  /\ (forall i,
        let db' := run (DelGT i) db in
        referencesExist db'
        /\ (forall g, In g (rows (GTCourse db')) <->
                      In g (rows (GTCourse db)) /\ GTCourse.id g <> i)
        /\ (forall e, In e (rows (Equivalency db')) <->
                      In e (rows (Equivalency db)) /\ Equivalency.gtCourseId e <> i)
        /\ School db' = School db /\ ExternalCourse db' = ExternalCourse db).
Proof.
  intros Hr.
  assert (Hne : forall a b, negb (a =? b)%Z = true <-> a <> b).
  { intros a b. destruct (Z.eqb_spec a b); simpl; split; congruence. }
  split; [|split; [|split]].
  - now apply storeOk_referencesExist, reachable_ok.
  - intros g s c sem Hmiss. unfold insEq.
    destruct (existsb _ _); [reflexivity|].
    destruct (hasId GTCourse.id g (GTCourse db)) eqn:Hg;
      destruct (hasId School.id s (School db)) eqn:Hs; try reflexivity.
    exfalso. apply Hmiss. split; now apply hasId_In.
  - intros i db'. split.
    + apply storeOk_referencesExist, reachable_ok. now constructor.
    + subst db'. cbn [run]. unfold delSchool.
      destruct (hasId School.id i (School db)) eqn:Hi; cbn [negb].
      * simpl. split; [|split; [|split]]; try reflexivity;
          intros; rewrite filter_In, Hne; tauto.
      * apply hasId_false in Hi.
        destruct (reachable_ok db Hr) as [S _ _ _ _]. destruct S.
        cbn [snd ret].
        split; [|split; [|split]]; try reflexivity; intros r;
          (split; [intros Hin; split; [exact Hin|] | tauto]); intros E; apply Hi.
        -- rewrite <- E. now apply in_map.
        -- rewrite <- E. auto.
        -- rewrite <- E. auto.
  - intros i db'. split.
    + apply storeOk_referencesExist, reachable_ok. now constructor.
    + subst db'. cbn [run]. unfold delGT.
      destruct (hasId GTCourse.id i (GTCourse db)) eqn:Hi; cbn [negb].
      * simpl. split; [|split; [|split]]; try reflexivity;
          intros; rewrite filter_In, Hne; tauto.
      * apply hasId_false in Hi.
        destruct (reachable_ok db Hr) as [S _ _ _ _]. destruct S.
        cbn [snd ret].
        split; [|split; [|split]]; try reflexivity; intros r;
          (split; [intros Hin; split; [exact Hin|] | tauto]); intros E; apply Hi.
        -- rewrite <- E. now apply in_map.
        -- rewrite <- E. auto.
Qed.

Lemma referential_integrity_witness :
  reachable seededStore
  /\ referencesExist seededStore
  /\ map Equivalency.id (rows (Equivalency (run (DelSchool 1) seededStore))) = [2%Z].
Proof.
  pose proof (referential_integrity seededStore seededStore_reachable) as (Hrefs & _).
  split; [exact seededStore_reachable|]. split; [exact Hrefs | reflexivity].
Defined.

(** ** The pipeline: rejected credit hours, end to end *)

Lemma invalidCredit_rejected parseReal c :
  invalidCredit parseReal c -> Scraper.creditHours parseReal c = None.
Proof.
  assert (Hp : forall q, (q <= 0)%Q -> Scraper.positive q = false).
  { intros q Hq. unfold Scraper.positive.
    apply Qle_bool_iff in Hq. now rewrite Hq. }
  destruct c as [q|s]; simpl.
  - intros Hq. now rewrite Hp.
  - intros [->|(q & -> & Hq)]; [reflexivity|]. now rewrite Hp.
Qed.

Lemma normalize_invalid_credit parseReal r :
  Scraper.creditHours parseReal (Scraper.gtCredit r) = None
  \/ Scraper.creditHours parseReal (Scraper.extCredit r) = None ->
  exists reasons,
    Scraper.normalize parseReal r = inr reasons
    /\ In Scraper.INVALID_CREDIT_HOURS reasons.
Proof.
  intros H. unfold Scraper.normalize.
  destruct (Scraper.normalizeCode (Scraper.gt r)) as [g|];
    destruct (Scraper.normalizeCode (Scraper.ext r)) as [x|];
    destruct (Scraper.creditHours parseReal (Scraper.gtCredit r)) as [gh|];
    destruct (Scraper.creditHours parseReal (Scraper.extCredit r)) as [xh|];
    try (destruct H; discriminate);
    eexists; (split; [reflexivity|]); simpl; auto.
Qed.

(** C6.  Run from a store whose credit hours are all strictly positive, the
    pipeline keeps them so whatever records it is given; and a record whose
    GT or external credit hours are not strictly positive, or do not parse,
    is rejected with INVALID_CREDIT_HOURS, is counted under that reason and
    leaves the store exactly as it was. *)
Theorem credit_hours_strictly_positive
    (parseReal : string -> option Q) (db : Store) :
  creditsPositive db ->
  (forall records,
     creditsPositive (Scraper.store (Scraper.processRecords parseReal records db)))
  /\ (forall st r,
        invalidCredit parseReal (Scraper.gtCredit r)
        \/ invalidCredit parseReal (Scraper.extCredit r) ->
        (exists reasons,
           Scraper.normalize parseReal r = inr reasons
           /\ In Scraper.INVALID_CREDIT_HOURS reasons)
        /\ Scraper.store (Scraper.processRecord parseReal st r) = Scraper.store st
        /\ In Scraper.INVALID_CREDIT_HOURS
              (Scraper.rejected
                 (Scraper.summary (Scraper.processRecord parseReal st r)))).
Proof.
  intros Hdb. split.
  - intros records. apply processRecords_keeps; [|assumption].
    intros st d. apply run_creditsPositive.
  - intros st r Hbad.
    assert (Hn : exists reasons,
               Scraper.normalize parseReal r = inr reasons
               /\ In Scraper.INVALID_CREDIT_HOURS reasons).
    { apply normalize_invalid_credit.
      destruct Hbad as [H|H]; [left|right]; now apply invalidCredit_rejected. }
    split; [exact Hn|].
    destruct Hn as (reasons & En & Hin).
    unfold Scraper.processRecord. rewrite En. simpl.
    split; [reflexivity|]. apply in_or_app. now right.
Qed.

Lemma emptyStore_creditsPositive : creditsPositive emptyStore.
Proof. split; intros ? []. Qed.

Lemma credit_hours_strictly_positive_witness :
  creditsPositive emptyStore
  /\ creditsPositive
       (Scraper.store (Scraper.processRecords parseDigits [scenario] emptyStore))
  /\ Scraper.store
       (Scraper.processRecord parseDigits (Scraper.start emptyStore)
          (scenarioWithCredit (Scraper.Num 0%Q))) = emptyStore
  /\ Scraper.store
       (Scraper.processRecord parseDigits (Scraper.start emptyStore)
          (scenarioWithCredit (Scraper.Text "N/A"))) = emptyStore.
Proof.
  pose proof (credit_hours_strictly_positive parseDigits emptyStore
                emptyStore_creditsPositive) as [Hall Hrej].
  split; [exact emptyStore_creditsPositive|]. split; [apply Hall|]. split.
  - destruct (Hrej (Scraper.start emptyStore) (scenarioWithCredit (Scraper.Num 0%Q)))
      as (_ & E & _); [|exact E].
    left. simpl. discriminate.
  - destruct (Hrej (Scraper.start emptyStore)
                (scenarioWithCredit (Scraper.Text "N/A"))) as (_ & E & _); [|exact E].
    left. simpl. left. reflexivity.
Defined.

(** C7.  Processing the scenario's record on the empty store leaves exactly
    one School, one GTCourse with code ["CS 1331"], one ExternalCourse with
    code ["CSC 2510"] and one Equivalency; the server started on that store
    does not seed it, and its answer to a query for ["CS 1331"] is exactly
    that one item. *)
Theorem end_to_end_scenario (parseReal : string -> option Q) :
  let db := Scraper.store (Scraper.processRecords parseReal [scenario] emptyStore) in
  rows (School db)
    = [{| School.id := 1; School.name := "Georgia State University" |}]
  /\ rows (GTCourse db)
    = [{| GTCourse.id := 1; GTCourse.code := "CS 1331";
          GTCourse.title := "Intro to OOP"; GTCourse.creditHours := 3%Q |}]
  /\ rows (ExternalCourse db)
    = [{| ExternalCourse.id := 1; ExternalCourse.schoolId := 1;
          ExternalCourse.code := "CSC 2510"; ExternalCourse.title := "OOP";
          ExternalCourse.creditHours := 3%Q |}]
  /\ rows (Equivalency db)
    = [{| Equivalency.id := 1; Equivalency.gtCourseId := 1;
          Equivalency.schoolId := 1; Equivalency.externalCourseCode := "CSC 2510";
          Equivalency.semester := "Fall 2025" |}]
  /\ startup db = (inl tt, db)
  /\ snd (getEquivalents db (gtParam "CS 1331"))
    = Json [{| schoolName := "Georgia State University";
               gtCourseCode := "CS 1331";
               gtCourseName := "Intro to OOP";
               gtCreditHours := 3%Q;
               externalCourseCode := Some "CSC 2510";
               externalCourseName := Some "OOP";
               externalCreditHours := Some 3%Q;
               semester := "Fall 2025" |}] 1.
Proof.
  repeat split.
Qed.

(** ** The endpoint: the joined, ordered result *)

Lemma seededStore_schemaOk : schemaOk seededStore.
Proof. apply reachable_ok, seededStore_reachable. Qed.

Lemma lowercaseCatalog_reachable : reachable lowercaseCatalog.
Proof. apply reachable_steps. constructor. Qed.

Lemma twoSpellings_reachable : reachable twoSpellings.
Proof. apply reachable_steps, seededStore_reachable. Qed.

(** C3, as stated, fails.  In the store [lowercaseCatalog] the course stored
    as ["cs 1331"] has an equivalency, and the query for ["cs 1331"], which
    is that very code, is answered with no item: the parameter is uppercased
    before it is compared, the stored code is not.  In the store
    [twoSpellings] the course stored as ["CS1331"] has an equivalency of
    Spring 2026, and the query for ["CS1331"] is answered with the two rows
    of the other course, ["CS 1331"], which comes first in the table. *)
Lemma equivalents_raw_match_counterexample :
  (reachable lowercaseCatalog
   /\ (exists g e,
         In g (rows (GTCourse lowercaseCatalog))
         /\ GTCourse.code g = "cs 1331"
         /\ withoutSpaces (GTCourse.code g) = withoutSpaces "cs 1331"
         /\ In e (rows (Equivalency lowercaseCatalog))
         /\ Equivalency.gtCourseId e = GTCourse.id g)
   /\ snd (getEquivalents lowercaseCatalog (gtParam "cs 1331")) = Json [] 0)
  /\ (reachable twoSpellings
      /\ (exists g e,
            In g (rows (GTCourse twoSpellings))
            /\ GTCourse.code g = "CS1331"
            /\ withoutSpaces (GTCourse.code g) = withoutSpaces "CS1331"
            /\ In e (rows (Equivalency twoSpellings))
            /\ Equivalency.gtCourseId e = GTCourse.id g
            /\ Equivalency.semester e = "Spring 2026")
      /\ snd (getEquivalents twoSpellings (gtParam "CS1331"))
         = Json [{| schoolName := "Georgia State University";
                    gtCourseCode := "CS 1331";
                    gtCourseName := "Introduction to Object Oriented Programming";
                    gtCreditHours := 3%Q;
                    externalCourseCode := Some "CSC 2510";
                    externalCourseName := Some "Object Oriented Programming";
                    externalCreditHours := Some 3%Q;
                    semester := "Fall 2025" |};
                 {| schoolName := "Kennesaw State University";
                    gtCourseCode := "CS 1331";
                    gtCourseName := "Introduction to Object Oriented Programming";
                    gtCreditHours := 3%Q;
                    externalCourseCode := Some "CS 2302";
                    externalCourseName := Some "Object Oriented Programming";
                    externalCreditHours := Some 3%Q;
                    semester := "Fall 2025" |}] 2).
Proof.
  split; (split; [|split]).
  - exact lowercaseCatalog_reachable.
  - exists {| GTCourse.id := 1; GTCourse.code := "cs 1331";
              GTCourse.title := "Intro to OOP"; GTCourse.creditHours := 3%Q |},
           {| Equivalency.id := 1; Equivalency.gtCourseId := 1;
              Equivalency.schoolId := 1;
              Equivalency.externalCourseCode := "CSC 2510";
              Equivalency.semester := "Fall 2025" |}.
    repeat split; vm_compute; auto.
  - reflexivity.
  - exact twoSpellings_reachable.
  - exists {| GTCourse.id := 3; GTCourse.code := "CS1331";
              GTCourse.title := "Object Oriented Programming";
              GTCourse.creditHours := 3%Q |},
           {| Equivalency.id := 4; Equivalency.gtCourseId := 3;
              Equivalency.schoolId := 1;
              Equivalency.externalCourseCode := "CSC 9999";
              Equivalency.semester := "Spring 2026" |}.
    repeat split; vm_compute; auto 10.
  - reflexivity.
Qed.

(** C3, amended.  On every store that satisfies the declared constraints, a
    query by a code that is not blank and whose form, stripped of white
    space and uppercased, is the code, spaces removed, of a stored GT course
    is answered with one item for each Equivalency row of the first such
    course of the table, every item being the row joined with its School,
    its GTCourse and the matching ExternalCourse, and the items are sorted
    by school name first and external course code second: each may stand
    before every item after it. *)
Theorem equivalents_of_matching_course (db : Store) (s : string) :
  schemaOk db ->
  Js.upperFits s = true ->
  isBlank s = false ->
  (exists g0, In g0 (rows (GTCourse db))
     /\ withoutSpaces (GTCourse.code g0) = stripUpper s) ->
  exists before g after es items,
    rows (GTCourse db) = (before ++ g :: after)%list
    /\ withoutSpaces (GTCourse.code g) = stripUpper s
    /\ (forall g', In g' before -> withoutSpaces (GTCourse.code g') <> stripUpper s)
    /\ snd (getEquivalents db (gtParam s)) = Json items (List.length items)
    /\ Permutation (equivalenciesOf db (GTCourse.id g)) es
    /\ Forall2 (itemOf db) es items
    /\ StronglySorted byNameThenCode items.
Proof.
  intros Hok _ Hs (g0 & Hg0 & E0).
  pose proof (replaceSpace_normalizeGT (gtParam s)) as En. simpl in En.
  destruct (selectGTCourse_exists db (normalizeGT (gtParam s)) g0 Hg0) as (g & Eg).
  { now rewrite En, replaceSpace_withoutSpaces. }
  destruct (selectGTCourse_first db s g Eg) as (before & after & Er & Ec & Hb).
  destruct (selectEquivalents_spec db Hok (GTCourse.id g)) as (es & Hp & HF & Hsort).
  exists before, g, after, es, (selectEquivalents db (GTCourse.id g)).
  repeat split; try assumption.
  - unfold getEquivalents.
    destruct (normalizeGT (gtParam s)) eqn:E;
      [now apply normalizeGT_nonblank in Hs|].
    now rewrite Eg.
  - now apply StronglySorted_byNameThenCode.
Qed.

Lemma equivalents_of_matching_course_witness :
  schemaOk seededStore
  /\ Js.upperFits "cs1331" = true
  /\ isBlank "cs1331" = false
  /\ exists before g after es items,
       rows (GTCourse seededStore) = (before ++ g :: after)%list
       /\ withoutSpaces (GTCourse.code g) = stripUpper "cs1331"
       /\ (forall g', In g' before ->
             withoutSpaces (GTCourse.code g') <> stripUpper "cs1331")
       /\ snd (getEquivalents seededStore (gtParam "cs1331"))
          = Json items (List.length items)
       /\ Permutation (equivalenciesOf seededStore (GTCourse.id g)) es
       /\ Forall2 (itemOf seededStore) es items
       /\ StronglySorted byNameThenCode items.
Proof.
  split; [exact seededStore_schemaOk|]. split; [reflexivity|].
  split; [reflexivity|].
  apply (equivalents_of_matching_course seededStore "cs1331").
  - exact seededStore_schemaOk.
  - reflexivity.
  - reflexivity.
  - exists {| GTCourse.id := 1; GTCourse.code := "CS 1331";
              GTCourse.title := "Introduction to Object Oriented Programming";
              GTCourse.creditHours := 3%Q |}.
    split; [vm_compute; auto | reflexivity].
Defined.

(** C10.  The response's total is always the number of its items; and on
    every store that satisfies the declared constraints the answer for a
    stored GT course has as many items as the course has Equivalency rows,
    and an Equivalency row whose school has no ExternalCourse with the cited
    code is among them, as an item whose externalCourseCode,
    externalCourseName and externalCreditHours are null. *)
Theorem equivalents_keep_unmatched (db : Store) (gt : option Js.value) :
  (forall items total,
     snd (getEquivalents db gt) = Json items total -> total = List.length items)
  /\ (schemaOk db ->
      normalizeGT gt <> EmptyString ->
      forall g, selectGTCourse db (normalizeGT gt) = Some g ->
      exists items,
        snd (getEquivalents db gt) = Json items (List.length items)
        /\ List.length items = List.length (equivalenciesOf db (GTCourse.id g))
        /\ forall e,
             In e (rows (Equivalency db)) ->
             Equivalency.gtCourseId e = GTCourse.id g ->
             (forall ec, In ec (rows (ExternalCourse db)) ->
                ~ (ExternalCourse.schoolId ec = Equivalency.schoolId e
                   /\ ExternalCourse.code ec = Equivalency.externalCourseCode e)) ->
             exists it,
               In it items /\ itemOf db e it
               /\ externalCourseCode it = None
               /\ externalCourseName it = None
               /\ externalCreditHours it = None).
Proof.
  split.
  - intros items total. unfold getEquivalents.
    destruct (normalizeGT gt); [discriminate|].
    destruct (selectGTCourse db _); simpl; intros [= <- <-]; reflexivity.
  - intros Hok Hne g Eg.
    destruct (selectEquivalents_spec db Hok (GTCourse.id g)) as (es & Hp & HF & _).
    exists (selectEquivalents db (GTCourse.id g)). split; [|split].
    + unfold getEquivalents. destruct (normalizeGT gt) eqn:En; [contradiction|].
      now rewrite Eg.
    + rewrite (Permutation_length Hp). symmetry. eapply Forall2_length, HF.
    + intros e He Hgt Hnone.
      assert (Hes : In e es).
      { apply (Permutation_in _ Hp). apply filter_In. split; [assumption|].
        now apply Z.eqb_eq. }
      destruct (Forall2_In_l _ _ _ _ HF Hes) as (it & Hit & Hof).
      exists it. split; [assumption|]. split; [assumption|].
      destruct Hof as (_ & _ & _ & [(ec & Hec & Es & Ec & _)|(_ & H1 & H2 & H3)]).
      * exfalso. apply (Hnone ec Hec). auto.
      * auto.
Qed.

Lemma citedBeforeKnown_schemaOk : schemaOk citedBeforeKnown.
Proof. apply reachable_ok. constructor. apply seededStore_reachable. Qed.

Lemma equivalents_keep_unmatched_witness :
  schemaOk citedBeforeKnown
  /\ normalizeGT (gtParam "cs 1331") <> EmptyString
  /\ exists items,
       snd (getEquivalents citedBeforeKnown (gtParam "cs 1331"))
       = Json items (List.length items)
       /\ List.length items = 3%nat
       /\ exists it, In it items
            /\ schoolName it = "Kennesaw State University"
            /\ semester it = "Spring 2026"
            /\ externalCourseCode it = None
            /\ externalCourseName it = None
            /\ externalCreditHours it = None.
Proof.
  split; [exact citedBeforeKnown_schemaOk|]. split; [discriminate|].
  destruct (proj2 (equivalents_keep_unmatched citedBeforeKnown (gtParam "cs 1331"))
              citedBeforeKnown_schemaOk ltac:(discriminate)
              {| GTCourse.id := 1; GTCourse.code := "CS 1331";
                 GTCourse.title := "Introduction to Object Oriented Programming";
                 GTCourse.creditHours := 3%Q |} eq_refl)
    as (items & E & Hlen & Hun).
  exists items. split; [exact E|]. split; [rewrite Hlen; reflexivity|].
  destruct (Hun {| Equivalency.id := 4; Equivalency.gtCourseId := 1;
                   Equivalency.schoolId := 2;
                   Equivalency.externalCourseCode := "CS 9999";
                   Equivalency.semester := "Spring 2026" |})
    as (it & Hin & Hof & H1 & H2 & H3).
  - vm_compute. auto 10.
  - reflexivity.
  - intros ec Hec [Hs Hc]. vm_compute in Hec.
    destruct Hec as [<-|[<-|[<-|[]]]]; discriminate.
  - exists it. split; [exact Hin|].
    destruct Hof as ((s & Hs & Eid & En) & _ & Esem & _).
    rewrite En, Esem. simpl in Eid.
    vm_compute in Hs. destruct Hs as [<-|[<-|[]]]; [discriminate|].
    repeat split; assumption.
Defined.

(** ** Rate compliance *)

(** C8.  Whatever the limit, the retry budget, the backoff, the units of
    the run and the behaviour of the network, the requests of a crawl run
    number at most REQUESTS_PER_MINUTE in any 60 seconds (from [start]
    inclusive to [start + 60] exclusive), and they are as many as the
    limiter granted: none goes out without a grant. *)
Theorem rate_compliance
    (REQUESTS_PER_MINUTE : positive) (RETRY_MAX : nat) (backoffBase backoffCap : Q)
    (units : list string) (network : string -> nat -> Crawler.exchange)
    (now start : Q) :
  let w := snd (Crawler.crawl REQUESTS_PER_MINUTE RETRY_MAX backoffBase backoffCap
                  units network (Crawler.initial now)) in
  (Crawler.issuedInWindow start w <= Pos.to_nat REQUESTS_PER_MINUTE)%nat
  /\ List.length (Crawler.issued w) = Crawler.granted (Crawler.limiter w).
Proof.
  intros w.
  assert (Hw : paced (Crawler.interval REQUESTS_PER_MINUTE) w).
  { apply crawl_paced, initial_paced. }
  split; [now apply paced_window|].
  destruct Hw as (_ & _ & Hg). now rewrite Hg.
Qed.

(** * Further properties of the server *)

(** ** normalizeGT *)

(** X1.  [normalizeGT] is idempotent: given its own result as the parameter
    it returns it unchanged, whatever the first parameter was. *)
Theorem normalizeGT_idempotent (gt : option Js.value) :
  normalizeGT (gtParam (normalizeGT gt)) = normalizeGT gt.
Proof.
  rewrite normalizeGT_string, (normalizeGT_value gt).
  set (c := stripUpper (Js.stringOrEmpty gt)).
  pose proof (stripUpper_stable (Js.stringOrEmpty gt)) as Hl.
  pose proof (stripUpper_noSpace (Js.stringOrEmpty gt)) as Hs.
  fold c in Hl, Hs.
  assert (E : stripUpper (Js.spaceAfterLetters c) = c); [|now rewrite E].
  unfold stripUpper.
  destruct (spaceAfterLetters_cases c) as [[_ ->]|[_ (l & d & t & Ec & ->)]].
  - now rewrite toUpperCase_fixed, noSpace_removeSpaces.
  - rewrite Ec in Hl, Hs. rewrite !allChars_app, !andb_true_iff in Hl, Hs.
    destruct Hl as (Hl1 & Hl2 & Hl3). destruct Hs as (Hs1 & Hs2 & Hs3).
    rewrite toUpperCase_fixed.
    + rewrite !removeSpaces_app. simpl.
      now rewrite !noSpace_removeSpaces, Ec.
    + rewrite !allChars_app, Hl1, Hl2, Hl3. reflexivity.
Qed.

(** X3.  The result of [normalizeGT] holds no lowercase letter and no white
    space except at most one space. *)
Theorem normalizeGT_alphabet (gt : option Js.value) :
  allChars codeChar (normalizeGT gt) = true
  /\ (countChar " " (normalizeGT gt) <= 1)%nat.
Proof.
  split; [apply normalizeGT_codeChars|].
  rewrite (normalizeGT_value gt).
  set (c := stripUpper (Js.stringOrEmpty gt)).
  pose proof (stripUpper_noSpace (Js.stringOrEmpty gt)) as Hs. fold c in Hs.
  destruct (spaceAfterLetters_cases c) as [[_ ->]|[_ (l & d & t & Ec & ->)]].
  - rewrite noSpace_count by assumption. lia.
  - rewrite Ec in Hs. rewrite !allChars_app, !andb_true_iff in Hs.
    destruct Hs as (Hs1 & Hs2 & Hs3). rewrite !countChar_app.
    rewrite (noSpace_count l), (noSpace_count d), (noSpace_count t) by assumption.
    simpl. lia.
Qed.

(** X2.  A code that, stripped of white space and uppercased, is letters
    [L] followed by digits [D] normalizes to [L], one space, [D]. *)
Theorem normalizeGT_letters_digits (s L D : string) :
  stripUpper s = L ++ D ->
  L <> EmptyString -> allChars Js.isUpper L = true ->
  D <> EmptyString -> allChars Js.isDigit D = true ->
  normalizeGT (gtParam s) = L ++ " " ++ D.
Proof.
  intros E HL HLu HD HDd. rewrite normalizeGT_string, E.
  unfold Js.spaceAfterLetters.
  rewrite (span_all Js.isUpper L D HLu).
  - rewrite (span_all_nil Js.isDigit D HDd).
    destruct L; [contradiction|]. destruct D; [contradiction|].
    now rewrite append_empty.
  - destruct D as [|d r]; [exact I|]. simpl in HDd.
    apply andb_true_iff in HDd. now apply isDigit_not_upper.
Qed.

Lemma normalizeGT_letters_digits_witness :
  stripUpper "math 1551" = "MATH" ++ "1551"
  /\ normalizeGT (gtParam "math 1551") = "MATH" ++ " " ++ "1551".
Proof.
  split; [reflexivity|].
  apply (normalizeGT_letters_digits "math 1551" "MATH" "1551");
    reflexivity || discriminate.
Defined.

(** X24.  [normalizeGT] rejects nothing.  A string parameter whose form,
    stripped of white space and uppercased, does not start with capital
    letters followed by a digit is returned in that form, unchanged; one
    whose form is capital letters [L], digits [D] and a rest [T] that does
    not start with a digit is returned as [L], one space, [D] and [T]; and
    whenever the parameter is not blank the result is not empty, so that the
    handler looks it up.  The parameter is one whose capital form the strings
    can hold. *)
Theorem normalizeGT_rejects_nothing (s : string) :
  Js.upperFits s = true ->
  (startsLettersDigit (stripUpper s) = false ->
   normalizeGT (gtParam s) = stripUpper s)
  /\ (forall L D T,
        stripUpper s = L ++ D ++ T ->
        L <> EmptyString -> allChars Js.isUpper L = true ->
        D <> EmptyString -> allChars Js.isDigit D = true ->
        match T with
        | String c _ => Js.isDigit c = false
        | EmptyString => True
        end ->
        normalizeGT (gtParam s) = L ++ " " ++ D ++ T)
  /\ (isBlank s = false -> normalizeGT (gtParam s) <> EmptyString).
Proof.
  intros _. split; [|split].
  - intros Hp. rewrite normalizeGT_string.
    destruct (spaceAfterLetters_cases (stripUpper s)) as [[_ E]|[Ht _]];
      [assumption | congruence].
  - intros L D T E HL HLu HD HDd HT. rewrite normalizeGT_string, E.
    unfold Js.spaceAfterLetters.
    rewrite (span_all Js.isUpper L (D ++ T) HLu).
    + rewrite (span_all Js.isDigit D T HDd HT).
      destruct L; [contradiction|]. destruct D; [contradiction|]. reflexivity.
    + destruct D as [|d r]; [contradiction|]. simpl in HDd |- *.
      apply andb_true_iff in HDd. now apply isDigit_not_upper.
  - apply normalizeGT_nonblank.
Qed.

Lemma normalizeGT_rejects_nothing_witness :
  Js.upperFits "123abc" = true
  /\ startsLettersDigit (stripUpper "123abc") = false
  /\ normalizeGT (gtParam "123abc") = "123ABC"
  /\ normalizeGT (gtParam "cs1331x") = "CS" ++ " " ++ "1331" ++ "X".
Proof.
  split; [reflexivity|]. split; [reflexivity|]. split.
  - apply (normalizeGT_rejects_nothing "123abc" eq_refl). reflexivity.
  - apply (proj1 (proj2 (normalizeGT_rejects_nothing "cs1331x" eq_refl))
             "CS" "1331" "X"); reflexivity || discriminate.
Defined.

(** ** The endpoint *)

(** X4.  For a string parameter the endpoint answers 400 exactly when the
    string is empty or only white space; every other string gets a result. *)
Theorem equivalents_400_iff_blank (db : Store) (s : string) :
  (exists e, snd (getEquivalents db (gtParam s)) = Status400 e)
  <-> isBlank s = true.
Proof.
  split.
  - intros [e He]. destruct (isBlank s) eqn:Hb; [reflexivity|]. exfalso.
    apply normalizeGT_nonblank in Hb. unfold getEquivalents in He.
    destruct (normalizeGT (gtParam s)); [contradiction|].
    destruct (selectGTCourse db _); discriminate.
  - intros Hb. exists gtRequired. unfold getEquivalents.
    now rewrite normalizeGT_blank.
Qed.

(** X5.  The search ignores case and white space in the parameter: white
    space put anywhere into the code, and the code in capitals, get the
    same answer (and run the same statements) as the code itself. *)
Theorem equivalents_ignore_case_and_space (db : Store) :
  (forall a w b, isBlank w = true ->
     getEquivalents db (gtParam (a ++ w ++ b)) = getEquivalents db (gtParam (a ++ b)))
  /\ (forall s,
        getEquivalents db (gtParam (Js.toUpperCase s)) = getEquivalents db (gtParam s)).
Proof.
  split.
  - intros a w b Hw. unfold getEquivalents.
    rewrite (normalizeGT_spelling (a ++ w ++ b) (a ++ b)); [reflexivity|].
    now rewrite !stripUpper_app, (stripUpper_blank w Hw).
  - intros s. unfold getEquivalents.
    rewrite (normalizeGT_spelling (Js.toUpperCase s) s); [reflexivity|].
    unfold stripUpper. now rewrite toUpperCase_idem.
Qed.

Lemma equivalents_ignore_case_and_space_witness :
  isBlank "  " = true
  /\ getEquivalents seededStore (gtParam ("cs" ++ "  " ++ "1331"))
     = getEquivalents seededStore (gtParam ("cs" ++ "1331")).
Proof.
  split; [reflexivity|].
  apply (proj1 (equivalents_ignore_case_and_space seededStore)). reflexivity.
Defined.

(** X6.  What the lookup compares is the parameter uppercased and stripped
    of all white space: the space [normalizeGT] puts in is taken out again
    by [REPLACE], and a course is found exactly when some stored code,
    spaces removed, equals that form.  The parameter is one whose capital
    form the strings can hold. *)
Theorem lookup_by_stripped_code (db : Store) (s : string) :
  Js.upperFits s = true ->
  Sql.replaceSpace (normalizeGT (gtParam s)) = stripUpper s
  /\ ((exists g, selectGTCourse db (normalizeGT (gtParam s)) = Some g)
      <-> (exists g, In g (rows (GTCourse db))
             /\ withoutSpaces (GTCourse.code g) = stripUpper s)).
Proof.
  intros _.
  pose proof (replaceSpace_normalizeGT (gtParam s)) as E. simpl in E.
  split; [exact E|]. split.
  - intros [g Hg]. apply selectGTCourse_some in Hg. exists g.
    now rewrite <- replaceSpace_withoutSpaces, <- E.
  - intros (g & Hin & Hg). apply (selectGTCourse_exists db _ g Hin).
    now rewrite E, replaceSpace_withoutSpaces.
Qed.

Lemma lookup_by_stripped_code_witness :
  Js.upperFits " cs 1332 " = true
  /\ Sql.replaceSpace (normalizeGT (gtParam " cs 1332 ")) = stripUpper " cs 1332 "
  /\ exists g, selectGTCourse seededStore (normalizeGT (gtParam " cs 1332 ")) = Some g.
Proof.
  destruct (lookup_by_stripped_code seededStore " cs 1332 " eq_refl) as [E H].
  split; [reflexivity|]. split; [exact E|].
  apply H.
  exists {| GTCourse.id := 2; GTCourse.code := "CS 1332";
            GTCourse.title := "Data Structures and Algorithms";
            GTCourse.creditHours := 3%Q |}.
  split; [vm_compute; auto | reflexivity].
Defined.

Lemma codeChar_replaceSpace s :
  allChars codeChar (Sql.replaceSpace s) = allChars codeChar s.
Proof.
  induction s as [|c r IH]; simpl; [reflexivity|].
  destruct (Ascii.eqb_spec c " "%char) as [->|_]; simpl; now rewrite IH.
Qed.

(** X7.  A course whose stored code holds a lowercase letter, or white
    space other than spaces, is never the one the endpoint selects,
    whatever the parameter. *)
Theorem lowercase_code_never_selected (db : Store) (gt : option Js.value)
    (g : GTCourse.row) :
  allChars codeChar (GTCourse.code g) = false ->
  selectGTCourse db (normalizeGT gt) <> Some g.
Proof.
  intros Hbad Hsel. apply selectGTCourse_some in Hsel. destruct Hsel as [_ E].
  pose proof (normalizeGT_codeChars gt) as Ha.
  rewrite <- codeChar_replaceSpace, <- E, codeChar_replaceSpace in Ha.
  congruence.
Qed.

Lemma lowercase_code_never_selected_witness :
  allChars codeChar "cs 1331" = false
  /\ selectGTCourse lowercaseStore (normalizeGT (gtParam "cs 1331"))
     <> Some {| GTCourse.id := 1; GTCourse.code := "cs 1331";
                GTCourse.title := "Intro"; GTCourse.creditHours := 3%Q |}.
Proof.
  split; [reflexivity|].
  apply (lowercase_code_never_selected lowercaseStore (gtParam "cs 1331")).
  reflexivity.
Defined.

Lemma Forall2_In_r {A B : Type} (P : A -> B -> Prop) l its b :
  Forall2 P l its -> In b its -> exists a, In a l /\ P a b.
Proof.
  induction 1 as [|x y l its Hxy HF IH]; intros Hin; [contradiction|].
  destruct Hin as [<-|Hin]; [exists x; simpl; auto|].
  destruct (IH Hin) as (a & Ha & Pa). exists a. simpl. auto.
Qed.

Lemma NoDup_map_eq {A B : Type} (f : A -> B) l a b :
  NoDup (map f l) -> In a l -> In b l -> f a = f b -> a = b.
Proof.
  induction l as [|x l IH]; simpl; intros Hnd Ha Hb E; [contradiction|].
  inversion Hnd as [|? ? Hx Hl]; subst.
  destruct Ha as [->|Ha], Hb as [->|Hb]; auto.
  - exfalso. apply Hx. rewrite E. now apply in_map.
  - exfalso. apply Hx. rewrite <- E. now apply in_map.
Qed.

(** X8.  On a store that satisfies the declared constraints every item of
    an answer is about the course the lookup selected: it carries that
    course's code, title and credit hours, and its code, spaces removed, is
    the parameter uppercased and stripped of white space.  The parameter is
    one whose capital form the strings can hold. *)
Theorem items_are_of_selected_course (db : Store) (gt : option Js.value)
    (g : GTCourse.row) (items : list Item) (total : nat) :
  schemaOk db ->
  Js.upperFits (Js.stringOrEmpty gt) = true ->
  selectGTCourse db (normalizeGT gt) = Some g ->
  snd (getEquivalents db gt) = Json items total ->
  forall it, In it items ->
    gtCourseCode it = GTCourse.code g
    /\ gtCourseName it = GTCourse.title g
    /\ gtCreditHours it = GTCourse.creditHours g
    /\ withoutSpaces (gtCourseCode it) = stripUpper (Js.stringOrEmpty gt).
Proof.
  intros Hok _ Hsel Hres it Hit.
  unfold getEquivalents in Hres.
  destruct (normalizeGT gt) as [|c r] eqn:En; [discriminate|].
  rewrite Hsel in Hres. simpl in Hres. injection Hres as <- _.
  destruct (selectEquivalents_spec db Hok (GTCourse.id g)) as (es & Hp & HF & _).
  destruct (Forall2_In_r _ _ _ _ HF Hit) as (e & He & Hof).
  apply (Permutation_in _ (Permutation_sym Hp)), filter_In in He.
  destruct He as [_ Hid]. apply Z.eqb_eq in Hid.
  destruct Hof as (_ & (gc & Hgc & Egc & Ecode & Etitle & Ehours) & _).
  apply selectGTCourse_some in Hsel. destruct Hsel as [Hg Hcode].
  assert (gc = g).
  { apply (NoDup_map_eq GTCourse.id (rows (GTCourse db))); auto.
    - apply Hok.
    - congruence. }
  subst gc. repeat split; try assumption.
  rewrite <- replaceSpace_withoutSpaces, Ecode, Hcode, <- En.
  apply replaceSpace_normalizeGT.
Qed.

Lemma items_are_of_selected_course_witness :
  schemaOk seededStore
  /\ Js.upperFits "cs1332" = true
  /\ forall it,
       In it (selectEquivalents seededStore 2) ->
       gtCourseCode it = "CS 1332"
       /\ withoutSpaces (gtCourseCode it) = "CS1332".
Proof.
  split; [exact seededStore_schemaOk|]. split; [reflexivity|]. intros it Hit.
  destruct (items_are_of_selected_course seededStore (gtParam "cs1332")
              {| GTCourse.id := 2; GTCourse.code := "CS 1332";
                 GTCourse.title := "Data Structures and Algorithms";
                 GTCourse.creditHours := 3%Q |}
              (selectEquivalents seededStore 2) 1
              seededStore_schemaOk eq_refl eq_refl eq_refl it Hit)
    as (H1 & _ & _ & H4).
  split; assumption.
Defined.

Lemma filter_nil_inv {A : Type} (p : A -> bool) l :
  filter p l = [] -> forall a, In a l -> p a = false.
Proof.
  intros E a Ha. destruct (p a) eqn:Ep; [|reflexivity].
  assert (In a (filter p l)) by (apply filter_In; auto).
  rewrite E in H. contradiction.
Qed.

Lemma flat_map_nil {A B : Type} (f : A -> list B) l :
  (forall a, In a l -> f a = []) -> flat_map f l = [].
Proof.
  induction l as [|a l IH]; simpl; intros H; [reflexivity|].
  rewrite (H a) by auto. apply IH. auto.
Qed.

(** X9.  On any store, also one that breaks the declared constraints, every
    item of the join stems from an Equivalency row of the course, joined
    with a School row and a GTCourse row that exist; and if no equivalency
    of the course has its school in the School table the join is empty: the
    inner join drops such rows. *)
Theorem items_stem_from_rows (db : Store) (gtId : Z) :
  (forall it, In it (selectEquivalents db gtId) ->
     exists e, In e (equivalenciesOf db gtId) /\ itemOf db e it)
  /\ ((forall e s, In e (equivalenciesOf db gtId) -> In s (rows (School db)) ->
         School.id s <> Equivalency.schoolId e) ->
      selectEquivalents db gtId = []).
Proof.
  split.
  - intros it Hit. unfold selectEquivalents in Hit.
    apply (Permutation_in _ (Permutation_sym (orderBy_perm itemLeb _))) in Hit.
    apply in_flat_map in Hit. destruct Hit as (e & He & Hit).
    exists e. split; [exact He|].
    apply in_flat_map in Hit. destruct Hit as (s & Hs & Hit).
    apply in_flat_map in Hit. destruct Hit as (gc & Hgc & Hit).
    apply filter_In in Hs. destruct Hs as [Hs Es]. apply Z.eqb_eq in Es.
    apply filter_In in Hgc. destruct Hgc as [Hgc Eg]. apply Z.eqb_eq in Eg.
    unfold leftJoinExternal in Hit.
    destruct (filter _ (rows (ExternalCourse db))) as [|ec0 ecs] eqn:Ef.
    + destruct Hit as [<-|[]]. unfold itemOf. simpl.
      split; [eauto|]. split; [exists gc; auto|]. split; [reflexivity|].
      right. split; [|auto]. intros ec Hec [E1 E2].
      apply (filter_nil_inv _ _ Ef) in Hec.
      rewrite E1, E2, Z.eqb_refl, String.eqb_refl in Hec. discriminate.
    + apply in_map_iff in Hit. destruct Hit as (ec & <- & Hec).
      rewrite <- Ef in Hec. apply filter_In in Hec. destruct Hec as [Hec Hp].
      apply andb_true_iff in Hp. destruct Hp as [E1 E2].
      apply Z.eqb_eq in E1. apply String.eqb_eq in E2.
      unfold itemOf. simpl.
      split; [eauto|]. split; [exists gc; auto|]. split; [reflexivity|].
      left. exists ec. auto 10.
  - intros Hmiss. unfold selectEquivalents.
    rewrite flat_map_nil; [reflexivity|].
    intros e He. fold (equivalenciesOf db gtId) in He.
    rewrite (filter_none (fun s => (School.id s =? Equivalency.schoolId e)%Z)
               (rows (School db))); [reflexivity|].
    intros s Hs. destruct (Z.eqb_spec (School.id s) (Equivalency.schoolId e));
      [|reflexivity].
    exfalso. now apply (Hmiss e s).
Qed.

Lemma items_stem_from_rows_witness :
  (forall e s, In e (equivalenciesOf danglingStore 1) ->
     In s (rows (School danglingStore)) ->
     School.id s <> Equivalency.schoolId e)
  /\ snd (getEquivalents danglingStore (gtParam "CS1331")) = Json [] 0.
Proof.
  assert (H : forall e s, In e (equivalenciesOf danglingStore 1) ->
                In s (rows (School danglingStore)) ->
                School.id s <> Equivalency.schoolId e)
    by (intros e s _ []).
  split; [exact H|].
  change (snd (getEquivalents danglingStore (gtParam "CS1331")))
    with (Json (selectEquivalents danglingStore 1)
               (List.length (selectEquivalents danglingStore 1))).
  now rewrite (proj2 (items_stem_from_rows danglingStore 1) H).
Defined.

(** ** The seed block and the start of the server *)

Lemma bind_ok {A B : Type} (c : stmt A) (k : A -> stmt B) db a db' :
  c db = (inl a, db') -> bind c k db = k a db'.
Proof. unfold bind. now intros ->. Qed.

Lemma bind_throw {A B : Type} (c : stmt A) (k : A -> stmt B) db e db' :
  c db = (inr e, db') -> bind c k db = (inr e, db').
Proof. unfold bind. now intros ->. Qed.

Lemma insSchool_new name db :
  ~ In name (map School.name (rows (School db))) ->
  insSchool name db
  = (inl (seq (School db) + 1)%Z,
     withSchool db (append (School db) (seq (School db) + 1)
                      {| School.id := (seq (School db) + 1)%Z; School.name := name |})).
Proof.
  intros H. unfold insSchool.
  destruct (existsb _ _) eqn:E; [|reflexivity].
  apply existsb_exists in E. destruct E as (s & Hs & Es).
  apply String.eqb_eq in Es. exfalso. apply H. rewrite <- Es. now apply in_map.
Qed.

Lemma insSchool_dup name db :
  In name (map School.name (rows (School db))) ->
  insSchool name db = (inr SQLITE_CONSTRAINT_UNIQUE, db).
Proof.
  intros H. unfold insSchool.
  apply in_map_iff in H. destruct H as (s & Es & Hs).
  assert (E : existsb (fun s => String.eqb (School.name s) name) (rows (School db)) = true).
  { apply existsb_exists. exists s. split; [assumption|]. now apply String.eqb_eq. }
  now rewrite E.
Qed.

(** X10.  The seed runs outside a transaction and is keyed on GTCourse
    alone: on a store without GT courses, if the first seed school is there
    the start throws and changes nothing; if only the second is there the
    start inserts the first, throws, and leaves it behind, after which every
    later start throws at once. *)
Theorem seed_is_not_atomic (db : Store) :
  rows (GTCourse db) = [] ->
  (In "Georgia State University" (map School.name (rows (School db))) ->
   startup db = (inr SQLITE_CONSTRAINT_UNIQUE, db))
  /\ (~ In "Georgia State University" (map School.name (rows (School db))) ->
      In "Kennesaw State University" (map School.name (rows (School db))) ->
      let db' := withSchool db (append (School db) (seq (School db) + 1)
                   {| School.id := (seq (School db) + 1)%Z;
                      School.name := "Georgia State University" |}) in
      startup db = (inr SQLITE_CONSTRAINT_UNIQUE, db')
      /\ startup db' = (inr SQLITE_CONSTRAINT_UNIQUE, db')).
Proof.
  intros Hgt. split.
  - intros Hgsu. unfold startup. rewrite Hgt. simpl. unfold seed.
    apply bind_throw. now apply insSchool_dup.
  - intros Hgsu Hksu db'. split.
    + unfold startup. rewrite Hgt. simpl. unfold seed.
      rewrite (bind_ok _ _ _ _ _ (insSchool_new _ db Hgsu)). fold db'.
      apply bind_throw. apply insSchool_dup.
      unfold db'. simpl. rewrite map_app. apply in_or_app. now left.
    + unfold startup. unfold db' at 1. simpl. rewrite Hgt. simpl. unfold seed.
      apply bind_throw. apply insSchool_dup.
      unfold db'. simpl. rewrite map_app. apply in_or_app. right. simpl. auto.
Qed.

Lemma seed_is_not_atomic_witness :
  let db := run (InsSchool "Kennesaw State University") emptyStore in
  rows (GTCourse db) = []
  /\ map School.name (rows (School (snd (startup db))))
     = ["Kennesaw State University"; "Georgia State University"]
  /\ fst (startup (snd (startup db))) = inr SQLITE_CONSTRAINT_UNIQUE.
Proof.
  intros db.
  destruct (proj2 (seed_is_not_atomic db eq_refl)) as [E1 E2].
  - vm_compute. intros [H|[]]. discriminate.
  - vm_compute. auto.
  - split; [reflexivity|]. rewrite E1. split; [reflexivity|].
    cbn [snd]. now rewrite E2.
Defined.

Lemma insSchool_GTCourse n db : GTCourse (snd (insSchool n db)) = GTCourse db.
Proof. unfold insSchool. now destruct (existsb _ _). Qed.

Lemma insExt_GTCourse s c t h db : GTCourse (snd (insExt s c t h db)) = GTCourse db.
Proof.
  unfold insExt. destruct (existsb _ _); [reflexivity|]. now destruct (negb _).
Qed.

Lemma insEq_GTCourse g s c m db : GTCourse (snd (insEq g s c m db)) = GTCourse db.
Proof.
  unfold insEq. destruct (existsb _ _); [reflexivity|]. now destruct (negb _).
Qed.

Lemma insGT_added c t h db i db' :
  insGT c t h db = (inl i, db') -> rows (GTCourse db') <> [].
Proof.
  unfold insGT. destruct (existsb _ _); [discriminate|].
  intros [= _ <-]. simpl. now destruct (rows (GTCourse db)).
Qed.

Lemma seed_adds_courses db : fst (seed db) = inl tt -> rows (GTCourse (snd (seed db))) <> [].
Proof.
  unfold seed, bind.
  destruct (insSchool _ db) as [[gsu|] db1]; [|discriminate].
  destruct (insSchool _ db1) as [[ksu|] db2]; [|discriminate].
  destruct (insGT _ _ _ db2) as [[c1|] db3]; [|discriminate].
  destruct (insGT _ _ _ db3) as [[c2|] db4] eqn:E4; [|discriminate].
  apply insGT_added in E4.
  pose proof (insExt_GTCourse gsu "CSC 2510" "Object Oriented Programming" 3%Q db4) as G5.
  destruct (insExt gsu _ _ _ db4) as [[x1|] db5]; [|discriminate]. simpl in G5.
  pose proof (insExt_GTCourse ksu "CS 2302" "Object Oriented Programming" 3%Q db5) as G6.
  destruct (insExt ksu _ _ _ db5) as [[x2|] db6]; [|discriminate]. simpl in G6.
  pose proof (insExt_GTCourse gsu "CSC 2720" "Data Structures" 3%Q db6) as G7.
  destruct (insExt gsu _ _ _ db6) as [[x3|] db7]; [|discriminate]. simpl in G7.
  pose proof (insEq_GTCourse c1 gsu "CSC 2510" "Fall 2025" db7) as G8.
  destruct (insEq c1 gsu _ _ db7) as [[e1|] db8]; [|discriminate]. simpl in G8.
  pose proof (insEq_GTCourse c1 ksu "CS 2302" "Fall 2025" db8) as G9.
  destruct (insEq c1 ksu _ _ db8) as [[e2|] db9]; [|discriminate]. simpl in G9.
  pose proof (insEq_GTCourse c2 gsu "CSC 2720" "Fall 2025" db9) as G10.
  destruct (insEq c2 gsu _ _ db9) as [[e3|] db10]; [|discriminate]. simpl in G10.
  intros _. simpl. congruence.
Qed.

(** X11.  A start that succeeded is not repeated: started again on the
    store it left, the server does not seed and changes nothing, so a
    restart never doubles the seed rows. *)
Theorem restart_does_not_seed_again (db : Store) :
  fst (startup db) = inl tt ->
  startup (snd (startup db)) = (inl tt, snd (startup db)).
Proof.
  intros H.
  assert (Hne : rows (GTCourse (snd (startup db))) <> []).
  { unfold startup in *.
    destruct (rows (GTCourse db)) as [|g r] eqn:Eg; simpl in *.
    - now apply seed_adds_courses.
    - rewrite Eg. discriminate. }
  unfold startup at 1.
  destruct (rows (GTCourse (snd (startup db)))); [contradiction | reflexivity].
Qed.

Lemma restart_does_not_seed_again_witness :
  fst (startup emptyStore) = inl tt
  /\ startup seededStore = (inl tt, seededStore).
Proof.
  split; [reflexivity|].
  exact (restart_does_not_seed_again emptyStore eq_refl).
Defined.

Section SeedInvariant.
Variable Inv : Store -> Prop.
Hypothesis Inv_run : forall st db, positiveCredit st -> Inv db -> Inv (run st db).

Lemma three_positive : (0 < 3)%Q.
Proof. reflexivity. Qed.

Lemma seed_keeps db : Inv db -> Inv (snd (seed db)).
Proof.
  intros H0. unfold seed, bind.
  pose proof (Inv_run (InsSchool "Georgia State University") db I H0) as H1.
  unfold run in H1.
  destruct (insSchool _ db) as [[gsu|] db1]; [|exact H1]. simpl in H1.
  pose proof (Inv_run (InsSchool "Kennesaw State University") db1 I H1) as H2.
  unfold run in H2.
  destruct (insSchool _ db1) as [[ksu|] db2]; [|exact H2]. simpl in H2.
  pose proof (Inv_run (InsGT "CS 1331" "Introduction to Object Oriented Programming" 3%Q)
                db2 three_positive H2) as H3.
  unfold run in H3.
  destruct (insGT _ _ _ db2) as [[c1|] db3]; [|exact H3]. simpl in H3.
  pose proof (Inv_run (InsGT "CS 1332" "Data Structures and Algorithms" 3%Q)
                db3 three_positive H3) as H4.
  unfold run in H4.
  destruct (insGT _ _ _ db3) as [[c2|] db4]; [|exact H4]. simpl in H4.
  pose proof (Inv_run (InsExt gsu "CSC 2510" "Object Oriented Programming" 3%Q)
                db4 three_positive H4) as H5.
  unfold run in H5.
  destruct (insExt gsu _ _ _ db4) as [[x1|] db5]; [|exact H5]. simpl in H5.
  pose proof (Inv_run (InsExt ksu "CS 2302" "Object Oriented Programming" 3%Q)
                db5 three_positive H5) as H6.
  unfold run in H6.
  destruct (insExt ksu _ _ _ db5) as [[x2|] db6]; [|exact H6]. simpl in H6.
  pose proof (Inv_run (InsExt gsu "CSC 2720" "Data Structures" 3%Q)
                db6 three_positive H6) as H7.
  unfold run in H7.
  destruct (insExt gsu _ _ _ db6) as [[x3|] db7]; [|exact H7]. simpl in H7.
  pose proof (Inv_run (InsEq c1 gsu "CSC 2510" "Fall 2025") db7 I H7) as H8.
  unfold run in H8.
  destruct (insEq c1 gsu _ _ db7) as [[e1|] db8]; [|exact H8]. simpl in H8.
  pose proof (Inv_run (InsEq c1 ksu "CS 2302" "Fall 2025") db8 I H8) as H9.
  unfold run in H9.
  destruct (insEq c1 ksu _ _ db8) as [[e2|] db9]; [|exact H9]. simpl in H9.
  pose proof (Inv_run (InsEq c2 gsu "CSC 2720" "Fall 2025") db9 I H9) as H10.
  unfold run in H10.
  destruct (insEq c2 gsu _ _ db9) as [[e3|] db10]; exact H10.
Qed.

Lemma startup_keeps db : Inv db -> Inv (snd (startup db)).
Proof.
  intros H. unfold startup.
  destruct (0 <? List.length (rows (GTCourse db)))%nat; [exact H|].
  now apply seed_keeps.
Qed.

End SeedInvariant.

(** X12.  However the start ends, with the seed run, skipped or broken off
    by a throw, it leaves a store that satisfies the declared constraints
    and whose courses all have strictly positive credit hours, if the store
    it found did. *)
Theorem startup_keeps_constraints (db : Store) :
  storeOk db -> creditsPositive db ->
  storeOk (snd (startup db)) /\ creditsPositive (snd (startup db)).
Proof.
  intros Hok Hpos. split.
  - apply startup_keeps; [|assumption]. intros st d _. apply run_ok.
  - apply startup_keeps; [|assumption]. apply run_creditsPositive.
Qed.

Lemma startup_keeps_constraints_witness :
  let db := run (InsSchool "Kennesaw State University") emptyStore in
  storeOk db /\ creditsPositive db
  /\ storeOk (snd (startup db)) /\ creditsPositive (snd (startup db)).
Proof.
  intros db.
  assert (Hok : storeOk db) by (apply run_ok, emptyStore_ok).
  assert (Hpos : creditsPositive db)
    by (apply run_creditsPositive; [exact I | apply emptyStore_creditsPositive]).
  split; [exact Hok|]. split; [exact Hpos|].
  exact (startup_keeps_constraints db Hok Hpos).
Defined.

Lemma insGT_new code title hours db :
  ~ In code (map GTCourse.code (rows (GTCourse db))) ->
  insGT code title hours db
  = (inl (seq (GTCourse db) + 1)%Z,
     withGTCourse db (append (GTCourse db) (seq (GTCourse db) + 1)
       {| GTCourse.id := (seq (GTCourse db) + 1)%Z; GTCourse.code := code;
          GTCourse.title := title; GTCourse.creditHours := hours |})).
Proof.
  intros H. unfold insGT.
  destruct (existsb _ _) eqn:E; [|reflexivity].
  apply existsb_exists in E. destruct E as (g & Hg & Eg).
  apply String.eqb_eq in Eg. exfalso. apply H. rewrite <- Eg. now apply in_map.
Qed.

Lemma insExt_new sid code title hours db :
  ~ In (sid, code) (map extKey (rows (ExternalCourse db))) ->
  In sid (map School.id (rows (School db))) ->
  insExt sid code title hours db
  = (inl (seq (ExternalCourse db) + 1)%Z,
     withExternalCourse db (append (ExternalCourse db) (seq (ExternalCourse db) + 1)
       {| ExternalCourse.id := (seq (ExternalCourse db) + 1)%Z;
          ExternalCourse.schoolId := sid; ExternalCourse.code := code;
          ExternalCourse.title := title; ExternalCourse.creditHours := hours |})).
Proof.
  intros Hnew Hs. unfold insExt.
  destruct (existsb _ _) eqn:E.
  - apply existsb_exists in E. destruct E as (x & Hx & Ex).
    apply andb_true_iff in Ex. destruct Ex as [E1 E2].
    apply Z.eqb_eq in E1. apply String.eqb_eq in E2.
    exfalso. apply Hnew. apply in_map_iff. exists x. split; [|assumption].
    unfold extKey. now rewrite E1, E2.
  - now rewrite (In_hasId School.id sid (School db) Hs).
Qed.

Lemma insEq_new g s code sem db :
  ~ In (g, s, code) (map fact (rows (Equivalency db))) ->
  In g (map GTCourse.id (rows (GTCourse db))) ->
  In s (map School.id (rows (School db))) ->
  insEq g s code sem db
  = (inl (seq (Equivalency db) + 1)%Z,
     withEquivalency db (append (Equivalency db) (seq (Equivalency db) + 1)
       {| Equivalency.id := (seq (Equivalency db) + 1)%Z;
          Equivalency.gtCourseId := g; Equivalency.schoolId := s;
          Equivalency.externalCourseCode := code; Equivalency.semester := sem |})).
Proof.
  intros Hnew Hg Hs. unfold insEq.
  destruct (existsb _ _) eqn:E.
  - apply existsb_exists in E. destruct E as (e & He & Ee).
    apply sameFact_fact in Ee. exfalso. apply Hnew. rewrite <- Ee. now apply in_map.
  - now rewrite (In_hasId GTCourse.id g (GTCourse db) Hg),
                (In_hasId School.id s (School db) Hs).
Qed.

Ltac fields :=
  cbn [withSchool withGTCourse withExternalCourse withEquivalency append
       School GTCourse ExternalCourse Equivalency rows seq].

Lemma seed_fresh db :
  storeOk db -> rows (GTCourse db) = [] ->
  ~ In "Georgia State University" (map School.name (rows (School db))) ->
  ~ In "Kennesaw State University" (map School.name (rows (School db))) ->
  exists db',
    seed db = (inl tt, db')
    /\ (rows (School db')
        = (rows (School db)
           ++ [{| School.id := seq (School db) + 1;
                  School.name := "Georgia State University" |};
               {| School.id := seq (School db) + 2;
                  School.name := "Kennesaw State University" |}])%list
     /\ rows (GTCourse db')
        = [{| GTCourse.id := seq (GTCourse db) + 1; GTCourse.code := "CS 1331";
              GTCourse.title := "Introduction to Object Oriented Programming";
              GTCourse.creditHours := 3%Q |};
           {| GTCourse.id := seq (GTCourse db) + 2; GTCourse.code := "CS 1332";
              GTCourse.title := "Data Structures and Algorithms";
              GTCourse.creditHours := 3%Q |}]
     /\ rows (ExternalCourse db')
        = (rows (ExternalCourse db)
           ++ [{| ExternalCourse.id := seq (ExternalCourse db) + 1;
                  ExternalCourse.schoolId := seq (School db) + 1;
                  ExternalCourse.code := "CSC 2510";
                  ExternalCourse.title := "Object Oriented Programming";
                  ExternalCourse.creditHours := 3%Q |};
               {| ExternalCourse.id := seq (ExternalCourse db) + 2;
                  ExternalCourse.schoolId := seq (School db) + 2;
                  ExternalCourse.code := "CS 2302";
                  ExternalCourse.title := "Object Oriented Programming";
                  ExternalCourse.creditHours := 3%Q |};
               {| ExternalCourse.id := seq (ExternalCourse db) + 3;
                  ExternalCourse.schoolId := seq (School db) + 1;
                  ExternalCourse.code := "CSC 2720";
                  ExternalCourse.title := "Data Structures";
                  ExternalCourse.creditHours := 3%Q |}])%list
     /\ rows (Equivalency db')
        = [{| Equivalency.id := seq (Equivalency db) + 1;
              Equivalency.gtCourseId := seq (GTCourse db) + 1;
              Equivalency.schoolId := seq (School db) + 1;
              Equivalency.externalCourseCode := "CSC 2510";
              Equivalency.semester := "Fall 2025" |};
           {| Equivalency.id := seq (Equivalency db) + 2;
              Equivalency.gtCourseId := seq (GTCourse db) + 1;
              Equivalency.schoolId := seq (School db) + 2;
              Equivalency.externalCourseCode := "CS 2302";
              Equivalency.semester := "Fall 2025" |};
           {| Equivalency.id := seq (Equivalency db) + 3;
              Equivalency.gtCourseId := seq (GTCourse db) + 2;
              Equivalency.schoolId := seq (School db) + 1;
              Equivalency.externalCourseCode := "CSC 2720";
              Equivalency.semester := "Fall 2025" |}]
     /\ seq (School db') = seq (School db) + 2
     /\ seq (GTCourse db') = seq (GTCourse db) + 2
     /\ seq (ExternalCourse db') = seq (ExternalCourse db) + 3
     /\ seq (Equivalency db') = seq (Equivalency db) + 3)%Z.
Proof.
  intros [S B1 B2 B3 B4] Hgt Hgsu Hksu.
  destruct S as [_ _ _ _ _ _ Xfk _ _ Efg _].
  assert (Heq : rows (Equivalency db) = []).
  { destruct (rows (Equivalency db)) as [|e r] eqn:E; [reflexivity|].
    specialize (Efg e (or_introl eq_refl)).
    rewrite Hgt in Efg. contradiction. }
  assert (Hx : forall x c, In x (rows (ExternalCourse db)) ->
                 (seq (School db) < c)%Z -> ExternalCourse.schoolId x <> c).
  { intros x c Hin Hc E. apply Xfk, in_map_iff in Hin.
    destruct Hin as (s & Es & Hs). apply B1 in Hs. lia. }
  eexists. unfold seed.
  erewrite bind_ok; [|apply insSchool_new; exact Hgsu]. cbv beta.
  erewrite bind_ok.
  2:{ apply insSchool_new. fields. rewrite map_app. intros H.
      apply in_app_or in H. destruct H as [H|[H|[]]]; [auto | discriminate]. }
  cbv beta; fields.
  erewrite bind_ok.
  2:{ apply insGT_new. fields. rewrite Hgt. intros []. }
  cbv beta; fields.
  erewrite bind_ok.
  2:{ apply insGT_new. fields. rewrite Hgt. cbn [app map GTCourse.code]. intros [H|[]]. discriminate. }
  cbv beta; fields.
  erewrite bind_ok.
  2:{ apply insExt_new; fields.
      - intros H. apply in_map_iff in H. destruct H as (x & Ex & Hin).
        injection Ex as E1 _. apply (Hx x _ Hin) in E1; [assumption | lia].
      - rewrite !map_app. apply in_or_app. left. apply in_or_app. right.
        now left. }
  cbv beta; fields.
  erewrite bind_ok.
  2:{ apply insExt_new; fields.
      - rewrite map_app. intros H. apply in_app_or in H.
        destruct H as [H|[H|[]]].
        + apply in_map_iff in H. destruct H as (x & Ex & Hin).
          injection Ex as E1 _. apply (Hx x _ Hin) in E1; [assumption | lia].
        + injection H as E1 _. lia.
      - rewrite !map_app. apply in_or_app. right. now left. }
  cbv beta; fields.
  erewrite bind_ok.
  2:{ apply insExt_new; fields.
      - rewrite !map_app. intros H. apply in_app_or in H.
        destruct H as [H|[H|[]]].
        + apply in_app_or in H. destruct H as [H|[H|[]]].
          * apply in_map_iff in H. destruct H as (x & Ex & Hin).
            injection Ex as E1 _. apply (Hx x _ Hin) in E1; [assumption | lia].
          * injection H as _ E2. discriminate.
        + injection H as E1 _. lia.
      - rewrite !map_app. apply in_or_app. left. apply in_or_app. right.
        now left. }
  cbv beta; fields.
  erewrite bind_ok.
  2:{ apply insEq_new; fields.
      - rewrite Heq. intros [].
      - rewrite Hgt. simpl. now left.
      - rewrite !map_app. apply in_or_app. left. apply in_or_app. right.
        now left. }
  cbv beta; fields.
  erewrite bind_ok.
  2:{ apply insEq_new; fields.
      - rewrite Heq. simpl. intros [H|[]]. injection H as _ E _. lia.
      - rewrite Hgt. simpl. now left.
      - rewrite !map_app. apply in_or_app. right. now left. }
  cbv beta; fields.
  erewrite bind_ok.
  2:{ apply insEq_new; fields.
      - rewrite Heq. simpl. intros [H|[H|[]]]; injection H as E _ _; lia.
      - rewrite Hgt. simpl. right. now left.
      - rewrite !map_app. apply in_or_app. left. apply in_or_app. right.
        now left. }
  cbv beta. unfold ret. split; [reflexivity|]. fields.
  rewrite Hgt, Heq, <- !app_assoc. cbn [app].
  repeat split; repeat (lia || f_equal).
Qed.

(** X23.  On a store that satisfies the declared constraints and holds no
    GT course, the start succeeds exactly when neither seed school is there
    by name; it then appends exactly the rows of the seed: the two schools,
    the two courses, the three external courses, each under its school, and
    the three equivalencies, each with its course, its school, the code it
    cites and its semester; every new row takes the next rowid of its
    table. *)
Theorem start_seeds_when_schools_are_new (db : Store) :
  storeOk db -> rows (GTCourse db) = [] ->
  (fst (startup db) = inl tt
   <-> ~ In "Georgia State University" (map School.name (rows (School db)))
       /\ ~ In "Kennesaw State University" (map School.name (rows (School db))))
  /\ (fst (startup db) = inl tt ->
      let db' := snd (startup db) in
      (rows (School db')
          = (rows (School db)
             ++ [{| School.id := seq (School db) + 1;
                    School.name := "Georgia State University" |};
                 {| School.id := seq (School db) + 2;
                    School.name := "Kennesaw State University" |}])%list
       /\ rows (GTCourse db')
          = [{| GTCourse.id := seq (GTCourse db) + 1; GTCourse.code := "CS 1331";
                GTCourse.title := "Introduction to Object Oriented Programming";
                GTCourse.creditHours := 3%Q |};
             {| GTCourse.id := seq (GTCourse db) + 2; GTCourse.code := "CS 1332";
                GTCourse.title := "Data Structures and Algorithms";
                GTCourse.creditHours := 3%Q |}]
       /\ rows (ExternalCourse db')
          = (rows (ExternalCourse db)
             ++ [{| ExternalCourse.id := seq (ExternalCourse db) + 1;
                    ExternalCourse.schoolId := seq (School db) + 1;
                    ExternalCourse.code := "CSC 2510";
                    ExternalCourse.title := "Object Oriented Programming";
                    ExternalCourse.creditHours := 3%Q |};
                 {| ExternalCourse.id := seq (ExternalCourse db) + 2;
                    ExternalCourse.schoolId := seq (School db) + 2;
                    ExternalCourse.code := "CS 2302";
                    ExternalCourse.title := "Object Oriented Programming";
                    ExternalCourse.creditHours := 3%Q |};
                 {| ExternalCourse.id := seq (ExternalCourse db) + 3;
                    ExternalCourse.schoolId := seq (School db) + 1;
                    ExternalCourse.code := "CSC 2720";
                    ExternalCourse.title := "Data Structures";
                    ExternalCourse.creditHours := 3%Q |}])%list
       /\ rows (Equivalency db')
          = [{| Equivalency.id := seq (Equivalency db) + 1;
                Equivalency.gtCourseId := seq (GTCourse db) + 1;
                Equivalency.schoolId := seq (School db) + 1;
                Equivalency.externalCourseCode := "CSC 2510";
                Equivalency.semester := "Fall 2025" |};
             {| Equivalency.id := seq (Equivalency db) + 2;
                Equivalency.gtCourseId := seq (GTCourse db) + 1;
                Equivalency.schoolId := seq (School db) + 2;
                Equivalency.externalCourseCode := "CS 2302";
                Equivalency.semester := "Fall 2025" |};
             {| Equivalency.id := seq (Equivalency db) + 3;
                Equivalency.gtCourseId := seq (GTCourse db) + 2;
                Equivalency.schoolId := seq (School db) + 1;
                Equivalency.externalCourseCode := "CSC 2720";
                Equivalency.semester := "Fall 2025" |}]
       /\ seq (School db') = seq (School db) + 2
       /\ seq (GTCourse db') = seq (GTCourse db) + 2
       /\ seq (ExternalCourse db') = seq (ExternalCourse db) + 3
       /\ seq (Equivalency db') = seq (Equivalency db) + 3)%Z).
Proof.
  intros Hok Hgt.
  assert (Hstart : startup db = seed db).
  { unfold startup. rewrite Hgt. reflexivity. }
  rewrite Hstart.
  assert (Hnew : fst (seed db) = inl tt ->
            ~ In "Georgia State University" (map School.name (rows (School db)))
            /\ ~ In "Kennesaw State University" (map School.name (rows (School db)))).
  { intros Hs.
    assert (Hgsu : ~ In "Georgia State University" (map School.name (rows (School db)))).
    { intros H. unfold seed in Hs.
      rewrite (bind_throw _ _ _ _ _ (insSchool_dup _ db H)) in Hs. discriminate. }
    split; [exact Hgsu|]. intros H. unfold seed in Hs.
    rewrite (bind_ok _ _ _ _ _ (insSchool_new _ db Hgsu)) in Hs.
    erewrite bind_throw in Hs; [discriminate|].
    apply insSchool_dup. fields. rewrite map_app. apply in_or_app. now left. }
  split.
  - split; [exact Hnew|]. intros [Hgsu Hksu].
    destruct (seed_fresh db Hok Hgt Hgsu Hksu) as (db' & -> & _). reflexivity.
  - intros Hs. destruct (Hnew Hs) as [Hgsu Hksu].
    destruct (seed_fresh db Hok Hgt Hgsu Hksu) as (db' & -> & H). exact H.
Qed.

Lemma start_seeds_when_schools_are_new_witness :
  let db := run (InsSchool "Georgia Highlands College") emptyStore in
  storeOk db /\ rows (GTCourse db) = []
  /\ fst (startup db) = inl tt
  /\ rows (School (snd (startup db)))
     = [{| School.id := 1; School.name := "Georgia Highlands College" |};
        {| School.id := 2; School.name := "Georgia State University" |};
        {| School.id := 3; School.name := "Kennesaw State University" |}]
  /\ map Equivalency.schoolId (rows (Equivalency (snd (startup db))))
     = [2%Z; 3%Z; 2%Z].
Proof.
  intros db.
  assert (Hok : storeOk db) by (apply run_ok, emptyStore_ok).
  split; [exact Hok|]. split; [reflexivity|].
  destruct (start_seeds_when_schools_are_new db Hok eq_refl) as [Hiff Hrows].
  assert (Hs : fst (startup db) = inl tt).
  { apply Hiff. split; vm_compute; intros [H|[]]; discriminate. }
  split; [exact Hs|].
  destruct (Hrows Hs) as (H1 & _ & _ & H4 & _).
  split; [exact H1 | now rewrite H4].
Defined.

(** ** The tables *)

Lemma insGT_dup code title hours db :
  In code (map GTCourse.code (rows (GTCourse db))) ->
  insGT code title hours db = (inr SQLITE_CONSTRAINT_UNIQUE, db).
Proof.
  intros H. unfold insGT.
  apply in_map_iff in H. destruct H as (g & Eg & Hg).
  assert (E : existsb (fun g => String.eqb (GTCourse.code g) code)
                      (rows (GTCourse db)) = true).
  { apply existsb_exists. exists g. split; [assumption|]. now apply String.eqb_eq. }
  now rewrite E.
Qed.

(** X13.  In every state of the store School names, GTCourse codes and the
    (schoolId, code) pairs of ExternalCourse are unique: inserting a name,
    a code or a pair that is there throws and changes nothing, and so does
    renaming a school to the name of another. *)
Theorem names_and_codes_unique (db : Store) :
  reachable db ->
  NoDup (map School.name (rows (School db)))
  /\ NoDup (map GTCourse.code (rows (GTCourse db)))
  /\ NoDup (map extKey (rows (ExternalCourse db)))
  /\ (forall s, In s (rows (School db)) ->
        insSchool (School.name s) db = (inr SQLITE_CONSTRAINT_UNIQUE, db))
  /\ (forall g title hours, In g (rows (GTCourse db)) ->
        insGT (GTCourse.code g) title hours db = (inr SQLITE_CONSTRAINT_UNIQUE, db))
  /\ (forall x title hours, In x (rows (ExternalCourse db)) ->
        insExt (ExternalCourse.schoolId x) (ExternalCourse.code x) title hours db
        = (inr SQLITE_CONSTRAINT_UNIQUE, db))
  /\ (forall s1 s2, In s1 (rows (School db)) -> In s2 (rows (School db)) ->
        School.id s1 <> School.id s2 ->
        updSchool (School.id s1) (School.name s2) db
        = (inr SQLITE_CONSTRAINT_UNIQUE, db)).
Proof.
  intros Hr. pose proof (reachable_ok db Hr) as [S _ _ _ _]. destruct S.
  repeat split; try assumption.
  - intros s Hs. apply insSchool_dup. now apply in_map.
  - intros g title hours Hg. apply insGT_dup. now apply in_map.
  - intros x title hours Hx. unfold insExt.
    assert (E : existsb (fun y => (ExternalCourse.schoolId y =? ExternalCourse.schoolId x)%Z
                                  && String.eqb (ExternalCourse.code y) (ExternalCourse.code x))
                        (rows (ExternalCourse db)) = true).
    { apply existsb_exists. exists x. split; [assumption|].
      now rewrite Z.eqb_refl, String.eqb_refl. }
    now rewrite E.
  - intros s1 s2 H1 H2 Hne. unfold updSchool.
    assert (Ei : hasId School.id (School.id s1) (School db) = true).
    { apply existsb_exists. exists s1. split; [assumption | apply Z.eqb_refl]. }
    rewrite Ei. simpl.
    assert (E : existsb (fun s => negb (School.id s =? School.id s1)%Z
                                  && String.eqb (School.name s) (School.name s2))
                        (rows (School db)) = true).
    { apply existsb_exists. exists s2. split; [assumption|].
      rewrite String.eqb_refl, andb_true_r.
      destruct (Z.eqb_spec (School.id s2) (School.id s1)); [congruence | reflexivity]. }
    now rewrite E.
Qed.

Lemma names_and_codes_unique_witness :
  reachable seededStore
  /\ NoDup (map School.name (rows (School seededStore)))
  /\ insSchool "Kennesaw State University" seededStore
     = (inr SQLITE_CONSTRAINT_UNIQUE, seededStore).
Proof.
  pose proof (names_and_codes_unique seededStore seededStore_reachable)
    as (H1 & _ & _ & H4 & _).
  split; [exact seededStore_reachable|]. split; [exact H1|].
  apply (H4 {| School.id := 2; School.name := "Kennesaw State University" |}).
  vm_compute. auto.
Defined.

Lemma run_seq_mono st db :
  (seq (School db) <= seq (School (run st db)))%Z
  /\ (seq (GTCourse db) <= seq (GTCourse (run st db)))%Z
  /\ (seq (ExternalCourse db) <= seq (ExternalCourse (run st db)))%Z
  /\ (seq (Equivalency db) <= seq (Equivalency (run st db)))%Z.
Proof.
  destruct st; unfold run.
  - unfold insSchool. destruct (existsb _ _); simpl; lia.
  - unfold insGT. destruct (existsb _ _); simpl; lia.
  - unfold insExt. destruct (existsb _ _); [simpl; lia|].
    destruct (negb _); simpl; lia.
  - unfold insEq. destruct (existsb _ _); [simpl; lia|].
    destruct (negb _); simpl; lia.
  - unfold delSchool. destruct (negb _); simpl; lia.
  - unfold delGT. destruct (negb _); simpl; lia.
  - simpl. lia.
  - simpl. lia.
  - unfold updSchool. destruct (negb _); [simpl; lia|].
    destruct (existsb _ _); simpl; lia.
  - unfold updGT. destruct (negb _); [simpl; lia|].
    destruct (existsb _ _); simpl; lia.
  - unfold updExt. destruct (negb _); [simpl; lia|].
    destruct (existsb _ _); [simpl; lia|]. destruct (negb _); simpl; lia.
  - unfold updEq. destruct (negb _); [simpl; lia|].
    destruct (existsb _ _); [simpl; lia|]. destruct (negb _); simpl; lia.
Qed.

Lemma runs_seq_mono sts : forall db,
  let db' := fold_left (fun d st => run st d) sts db in
  (seq (School db) <= seq (School db'))%Z
  /\ (seq (GTCourse db) <= seq (GTCourse db'))%Z
  /\ (seq (ExternalCourse db) <= seq (ExternalCourse db'))%Z
  /\ (seq (Equivalency db) <= seq (Equivalency db'))%Z.
Proof.
  induction sts as [|st sts IH]; intros db; simpl; [lia|].
  pose proof (run_seq_mono st db). specialize (IH (run st db)). simpl in IH. lia.
Qed.

Lemma insSchool_id n db i db' :
  insSchool n db = (inl i, db') -> i = (seq (School db) + 1)%Z.
Proof. unfold insSchool. destruct (existsb _ _); [discriminate|]. now intros [= <- _]. Qed.

Lemma insGT_id c t h db i db' :
  insGT c t h db = (inl i, db') -> i = (seq (GTCourse db) + 1)%Z.
Proof. unfold insGT. destruct (existsb _ _); [discriminate|]. now intros [= <- _]. Qed.

Lemma insExt_id s c t h db i db' :
  insExt s c t h db = (inl i, db') -> i = (seq (ExternalCourse db) + 1)%Z.
Proof.
  unfold insExt. destruct (existsb _ _); [discriminate|].
  destruct (negb _); [discriminate|]. now intros [= <- _].
Qed.

Lemma insEq_id g s c m db i db' :
  insEq g s c m db = (inl i, db') -> i = (seq (Equivalency db) + 1)%Z.
Proof.
  unfold insEq. destruct (existsb _ _); [discriminate|].
  destruct (negb _); [discriminate|]. now intros [= <- _].
Qed.

(** X14.  Rowids are never given out twice: the rowid a later insert
    returns, after any statements in between (deletes of the row itself
    included), is larger than the rowid of every row the table held
    before. *)
Theorem rowids_never_reused (db : Store) (sts : list statement) :
  reachable db ->
  let db' := fold_left (fun d st => run st d) sts db in
  (forall s n i d, In s (rows (School db)) ->
     insSchool n db' = (inl i, d) -> (School.id s < i)%Z)
  /\ (forall g c t h i d, In g (rows (GTCourse db)) ->
        insGT c t h db' = (inl i, d) -> (GTCourse.id g < i)%Z)
  /\ (forall x s c t h i d, In x (rows (ExternalCourse db)) ->
        insExt s c t h db' = (inl i, d) -> (ExternalCourse.id x < i)%Z)
  /\ (forall e g s c m i d, In e (rows (Equivalency db)) ->
        insEq g s c m db' = (inl i, d) -> (Equivalency.id e < i)%Z).
Proof.
  intros Hr db'. pose proof (reachable_ok db Hr) as [_ B1 B2 B3 B4].
  pose proof (runs_seq_mono sts db) as (M1 & M2 & M3 & M4). fold db' in M1, M2, M3, M4.
  repeat split.
  - intros s n i d Hs Hi. apply insSchool_id in Hi. apply B1 in Hs. lia.
  - intros g c t h i d Hg Hi. apply insGT_id in Hi. apply B2 in Hg. lia.
  - intros x s c t h i d Hx Hi. apply insExt_id in Hi. apply B3 in Hx. lia.
  - intros e g s c m i d He Hi. apply insEq_id in Hi. apply B4 in He. lia.
Qed.

Lemma rowids_never_reused_witness :
  reachable seededStore
  /\ let db' := fold_left (fun d st => run st d) [DelSchool 2] seededStore in
     map School.id (rows (School db')) = [1%Z]
     /\ (2 < 3)%Z
     /\ fst (insSchool "Georgia Highlands College" db') = inl 3%Z.
Proof.
  split; [exact seededStore_reachable|]. intros db'.
  split; [reflexivity|]. split; [|reflexivity].
  apply (proj1 (rowids_never_reused seededStore [DelSchool 2] seededStore_reachable)
           {| School.id := 2; School.name := "Kennesaw State University" |}
           "Georgia Highlands College" 3%Z
           (snd (insSchool "Georgia Highlands College" db'))).
  - vm_compute. auto.
  - reflexivity.
Defined.

Lemma spacesOnly_removeSpaces c :
  allChars (fun ch => negb (Js.isSpace ch) || Ascii.eqb ch " "%char) c = true ->
  Js.removeSpaces c = Sql.replaceSpace c.
Proof.
  induction c as [|ch r IH]; simpl; [reflexivity|].
  rewrite andb_true_iff. intros [Hc Hr]. specialize (IH Hr).
  destruct (Ascii.eqb_spec ch " "%char) as [->|Hne]; simpl; [exact IH|].
  rewrite orb_false_r in Hc. apply negb_true_iff in Hc. now rewrite Hc, IH.
Qed.

Lemma find_snoc {A : Type} (p : A -> bool) l x :
  find p (l ++ [x]) = match find p l with
                      | Some y => Some y
                      | None => if p x then Some x else None
                      end.
Proof.
  induction l as [|a l IH]; simpl; [reflexivity|].
  destruct (p a); [reflexivity | exact IH].
Qed.

Lemma find_absent {A : Type} (p : A -> bool) l :
  (forall a, In a l -> p a = false) -> find p l = None.
Proof.
  intros H. destruct (find p l) as [a|] eqn:E; [|reflexivity].
  apply find_some in E. destruct E as [Ha Hp]. rewrite (H a Ha) in Hp. discriminate.
Qed.

(** X15.  A course inserted under a code that is in capitals already
    ([toUpperCase] leaves it as it is, and the strings can hold its capital
    form), that holds no white space other than spaces and is not blank, is
    found by a query for that code: the lookup selects a course with the
    same code up to spaces, the inserted row itself when no older code
    equals it up to spaces, and the endpoint answers with a result. *)
Theorem inserted_course_is_found
    (db db' : Store) (code title : string) (hours : Q) (i : Z) :
  insGT code title hours db = (inl i, db') ->
  Js.upperFits code = true ->
  Js.toUpperCase code = code ->
  allChars (fun ch => negb (Js.isSpace ch) || Ascii.eqb ch " "%char) code = true ->
  isBlank code = false ->
  (exists g, selectGTCourse db' (normalizeGT (gtParam code)) = Some g
     /\ withoutSpaces (GTCourse.code g) = withoutSpaces code)
  /\ ((forall g0, In g0 (rows (GTCourse db)) ->
         withoutSpaces (GTCourse.code g0) <> withoutSpaces code) ->
      selectGTCourse db' (normalizeGT (gtParam code))
      = Some {| GTCourse.id := i; GTCourse.code := code;
                GTCourse.title := title; GTCourse.creditHours := hours |})
  /\ (exists items,
        snd (getEquivalents db' (gtParam code)) = Json items (List.length items)).
Proof.
  intros Hins _ Hup Hcode Hnb.
  pose proof (replaceSpace_normalizeGT (gtParam code)) as E. simpl in E.
  unfold stripUpper in E. rewrite Hup, (spacesOnly_removeSpaces code Hcode) in E.
  unfold insGT in Hins. destruct (existsb _ _); [discriminate|].
  injection Hins as <- <-.
  set (new := {| GTCourse.id := (seq (GTCourse db) + 1)%Z; GTCourse.code := code;
                 GTCourse.title := title; GTCourse.creditHours := hours |}).
  assert (Hfound : exists g,
             selectGTCourse (withGTCourse db (append (GTCourse db) (seq (GTCourse db) + 1) new))
               (normalizeGT (gtParam code)) = Some g
             /\ withoutSpaces (GTCourse.code g) = withoutSpaces code).
  { destruct (selectGTCourse_exists
                (withGTCourse db (append (GTCourse db) (seq (GTCourse db) + 1) new))
                (normalizeGT (gtParam code)) new) as (g & Hg).
    - simpl. apply in_or_app. right. now left.
    - now rewrite E.
    - exists g. split; [exact Hg|].
      apply selectGTCourse_some in Hg. destruct Hg as [_ Hg].
      now rewrite <- !replaceSpace_withoutSpaces, Hg. }
  split; [exact Hfound|]. split.
  - intros Hold. unfold selectGTCourse. simpl. rewrite find_snoc.
    rewrite find_absent.
    + simpl. now rewrite E, String.eqb_refl.
    + intros g0 Hg0. apply String.eqb_neq. rewrite E.
      rewrite !replaceSpace_withoutSpaces. now apply Hold.
  - destruct Hfound as (g & Hg & _). unfold getEquivalents.
    destruct (normalizeGT (gtParam code)) eqn:En.
    + now apply normalizeGT_nonblank in Hnb.
    + rewrite Hg. eexists. reflexivity.
Qed.

Lemma inserted_course_is_found_witness :
  let db' := snd (insGT "MATH 1551" "Differential Calculus" 2%Q seededStore) in
  insGT "MATH 1551" "Differential Calculus" 2%Q seededStore = (inl 3%Z, db')
  /\ Js.toUpperCase "MATH 1551" = "MATH 1551"
  /\ option_map GTCourse.id
       (selectGTCourse db' (normalizeGT (gtParam "MATH 1551"))) = Some 3%Z.
Proof.
  intros db'. split; [reflexivity|]. split; [reflexivity|].
  destruct (inserted_course_is_found seededStore db' "MATH 1551"
              "Differential Calculus" 2%Q 3 eq_refl eq_refl eq_refl eq_refl eq_refl)
    as (_ & H & _).
  rewrite H; [reflexivity|].
  intros g0 Hg0. vm_compute in Hg0.
  destruct Hg0 as [<-|[<-|[]]]; vm_compute; discriminate.
Defined.

Lemma filter_all {A : Type} (p : A -> bool) l :
  (forall a, In a l -> p a = true) -> filter p l = l.
Proof.
  induction l as [|a l IH]; simpl; intros H; [reflexivity|].
  rewrite (H a) by auto. f_equal. apply IH. auto.
Qed.

Lemma keep_all {R : Type} (p : R -> bool) (t : table R) :
  (forall r, In r (rows t) -> p r = true) -> keep p t = t.
Proof.
  intros H. destruct t as [l s]. unfold keep. simpl in *. now rewrite filter_all.
Qed.

Lemma ne_negb_eqb a b : a <> b -> negb (a =? b)%Z = true.
Proof. intros H. now destruct (Z.eqb_spec a b). Qed.



Lemma existsb_filter_out {A : Type} (p q : A -> bool) l :
  (forall a, q a = true -> p a = false) -> existsb p (filter q l) = false.
Proof.
  intros H. induction l as [|a l IH]; simpl; [reflexivity|].
  destruct (q a) eqn:Eq; [|exact IH]. simpl. now rewrite (H a Eq), IH.
Qed.

Lemma hasId_deleted {R : Type} (rowid : R -> Z) i (t : table R) :
  hasId rowid i (keep (fun r => negb (rowid r =? i)%Z) t) = false.
Proof.
  unfold hasId. simpl. apply existsb_filter_out.
  intros a Ha. now apply negb_true_iff in Ha.
Qed.

(** X17.  On a store that satisfies the declared constraints, once a
    School is deleted (or if it never was there) an ExternalCourse or an
    Equivalency for its id is refused with a foreign-key error, and so is an
    Equivalency for the id of a deleted GTCourse; the refused insert changes
    nothing. *)
Theorem insert_for_deleted_parent_refused (db : Store) (i : Z) :
  schemaOk db ->
  (forall code title hours,
     insExt i code title hours (snd (delSchool i db))
     = (inr SQLITE_CONSTRAINT_FOREIGNKEY, snd (delSchool i db)))
  /\ (forall g code sem,
        insEq g i code sem (snd (delSchool i db))
        = (inr SQLITE_CONSTRAINT_FOREIGNKEY, snd (delSchool i db)))
  /\ (forall s code sem,
        insEq i s code sem (snd (delGT i db))
        = (inr SQLITE_CONSTRAINT_FOREIGNKEY, snd (delGT i db))).
Proof.
  intros Hok. destruct Hok.
  assert (Hs : hasId School.id i (School db) = false ->
               (forall x, In x (rows (ExternalCourse db)) ->
                  (ExternalCourse.schoolId x =? i)%Z = false)
               /\ (forall e, In e (rows (Equivalency db)) ->
                     (Equivalency.schoolId e =? i)%Z = false)).
  { intros H. apply hasId_false in H. split; intros r Hr; apply Z.eqb_neq;
      intros E; apply H; rewrite <- E; auto. }
  assert (Hg : hasId GTCourse.id i (GTCourse db) = false ->
               forall e, In e (rows (Equivalency db)) ->
                 (Equivalency.gtCourseId e =? i)%Z = false).
  { intros H e He. apply hasId_false in H. apply Z.eqb_neq.
    intros E. apply H. rewrite <- E. auto. }
  repeat split.
  - intros code title hours. unfold delSchool.
    destruct (hasId School.id i (School db)) eqn:Hi; cbn [negb snd ret].
    + unfold insExt. simpl. rewrite existsb_filter_out.
      * now rewrite hasId_deleted.
      * intros x Hx. apply negb_true_iff in Hx. now rewrite Hx.
    + unfold insExt. rewrite Hi. cbn [negb].
      destruct (existsb _ _) eqn:Ex; [|reflexivity].
      apply existsb_exists in Ex. destruct Ex as (x & Hx & Ex).
      rewrite (proj1 (Hs eq_refl) x Hx) in Ex. discriminate.
  - intros g code sem. unfold delSchool.
    destruct (hasId School.id i (School db)) eqn:Hi; cbn [negb snd ret].
    + unfold insEq. simpl. rewrite existsb_filter_out.
      * now rewrite hasId_deleted, andb_false_r.
      * intros e He. apply negb_true_iff in He. unfold sameFact.
        now rewrite He, andb_false_r.
    + unfold insEq. rewrite Hi, andb_false_r. cbn [negb].
      destruct (existsb _ _) eqn:Ex; [|reflexivity].
      apply existsb_exists in Ex. destruct Ex as (e & He & Ex).
      unfold sameFact in Ex. rewrite (proj2 (Hs eq_refl) e He), andb_false_r in Ex.
      discriminate.
  - intros s code sem. unfold delGT.
    destruct (hasId GTCourse.id i (GTCourse db)) eqn:Hi; cbn [negb snd ret].
    + unfold insEq. simpl. rewrite existsb_filter_out.
      * now rewrite hasId_deleted.
      * intros e He. apply negb_true_iff in He. unfold sameFact. now rewrite He.
    + unfold insEq. rewrite Hi. cbn [negb andb].
      destruct (existsb _ _) eqn:Ex; [|reflexivity].
      apply existsb_exists in Ex. destruct Ex as (e & He & Ex).
      unfold sameFact in Ex. rewrite (Hg eq_refl e He) in Ex. discriminate.
Qed.

Lemma insert_for_deleted_parent_refused_witness :
  schemaOk seededStore
  /\ insExt 1 "CSC 1301" "Principles of Computer Science" 4%Q
       (snd (delSchool 1 seededStore))
     = (inr SQLITE_CONSTRAINT_FOREIGNKEY, snd (delSchool 1 seededStore))
  /\ map School.name (rows (School (snd (delSchool 1 seededStore))))
     = ["Kennesaw State University"].
Proof.
  split; [exact seededStore_schemaOk|]. split; [|reflexivity].
  apply (insert_for_deleted_parent_refused seededStore 1 seededStore_schemaOk).
Defined.

(** X18.  Inserting a School or a GTCourse and deleting it again by the
    rowid the insert returned restores every table's rows; only the
    table's sequence stays advanced to that rowid. *)
Theorem insert_then_delete_restores_rows (db : Store) :
  storeOk db ->
  (forall name i db1,
     insSchool name db = (inl i, db1) ->
     let db2 := snd (delSchool i db1) in
     rows (School db2) = rows (School db)
     /\ seq (School db2) = i /\ i = (seq (School db) + 1)%Z
     /\ GTCourse db2 = GTCourse db
     /\ ExternalCourse db2 = ExternalCourse db
     /\ Equivalency db2 = Equivalency db)
  /\ (forall code title hours i db1,
        insGT code title hours db = (inl i, db1) ->
        let db2 := snd (delGT i db1) in
        rows (GTCourse db2) = rows (GTCourse db)
        /\ seq (GTCourse db2) = i /\ i = (seq (GTCourse db) + 1)%Z
        /\ School db2 = School db
        /\ ExternalCourse db2 = ExternalCourse db
        /\ Equivalency db2 = Equivalency db).
Proof.
  intros [S B1 B2 _ _]. destruct S. split.
  - intros name i db1 Hins db2. subst db2.
    unfold insSchool in Hins. destruct (existsb _ _); [discriminate|].
    injection Hins as <- <-. unfold delSchool.
    rewrite (In_hasId School.id (seq (School db) + 1)
               (School (withSchool db (append (School db) (seq (School db) + 1)
                  {| School.id := seq (School db) + 1; School.name := name |}))))
      by (simpl; rewrite map_app; apply in_or_app; right; now left).
    simpl.
    assert (Hfresh : forall j, In j (map School.id (rows (School db))) ->
                       j <> (seq (School db) + 1)%Z).
    { intros j Hj. apply in_map_iff in Hj. destruct Hj as (s & <- & Hs).
      apply B1 in Hs. lia. }
    repeat split.
    + rewrite filter_app. simpl. rewrite Z.eqb_refl. simpl. rewrite app_nil_r.
      apply filter_all. intros s Hs. apply ne_negb_eqb, Hfresh. now apply in_map.
    + apply keep_all. intros x Hx. apply ne_negb_eqb, Hfresh. auto.
    + apply keep_all. intros e He. apply ne_negb_eqb, Hfresh. auto.
  - intros code title hours i db1 Hins db2. subst db2.
    unfold insGT in Hins. destruct (existsb _ _); [discriminate|].
    injection Hins as <- <-. unfold delGT.
    rewrite (In_hasId GTCourse.id (seq (GTCourse db) + 1)
               (GTCourse (withGTCourse db (append (GTCourse db) (seq (GTCourse db) + 1)
                  {| GTCourse.id := seq (GTCourse db) + 1; GTCourse.code := code;
                     GTCourse.title := title; GTCourse.creditHours := hours |}))))
      by (simpl; rewrite map_app; apply in_or_app; right; now left).
    simpl.
    assert (Hfresh : forall j, In j (map GTCourse.id (rows (GTCourse db))) ->
                       j <> (seq (GTCourse db) + 1)%Z).
    { intros j Hj. apply in_map_iff in Hj. destruct Hj as (g & <- & Hg).
      apply B2 in Hg. lia. }
    repeat split.
    + rewrite filter_app. simpl. rewrite Z.eqb_refl. simpl. rewrite app_nil_r.
      apply filter_all. intros g Hg. apply ne_negb_eqb, Hfresh. now apply in_map.
    + apply keep_all. intros e He. apply ne_negb_eqb, Hfresh. auto.
Qed.

Lemma insert_then_delete_restores_rows_witness :
  storeOk seededStore
  /\ let db1 := snd (insSchool "Georgia Highlands College" seededStore) in
     rows (School (snd (delSchool 3 db1))) = rows (School seededStore)
     /\ seq (School (snd (delSchool 3 db1))) = 3%Z.
Proof.
  assert (Hok : storeOk seededStore) by apply reachable_ok, seededStore_reachable.
  split; [exact Hok|]. intros db1.
  destruct (proj1 (insert_then_delete_restores_rows seededStore Hok)
              "Georgia Highlands College" 3%Z db1 eq_refl) as (H1 & H2 & _).
  split; assumption.
Defined.

(** * Properties of the client *)

(** X19.  A search that runs alone, with no other search started before
    it has settled, and that ends in a network failure or in an answer of
    any status whose body is not JSON, is [null], or is a value whose
    [items] is missing, falsy or an array of items: the component is no
    longer loading and its button is enabled again, the code in the input is
    unchanged, and exactly one of three things is on the page: result cards
    and nothing else, the note "No results yet", or the error box with the
    failure message and no cards.  While the request is pending the button
    is disabled and neither cards, note nor error box are shown. *)
Theorem search_settles (API_BASE : string) (fetch : string -> Client.fetched)
    (st : Client.State) :
  let st' := Client.search API_BASE fetch st in
  Client.loading st' = false
  /\ Client.buttonDisabled st' = false
  /\ Client.code st' = Client.code st
  /\ ((Client.results st' <> [] /\ Client.showsNote st' = false
       /\ Client.showsError st' = false)
      \/ (Client.results st' = [] /\ Client.showsNote st' = true
          /\ Client.showsError st' = false)
      \/ (Client.results st' = [] /\ Client.showsNote st' = false
          /\ Client.showsError st' = true /\ Client.error st' = Client.failureMessage))
  /\ (Client.buttonDisabled (Client.searching st) = true
      /\ Client.results (Client.searching st) = []
      /\ Client.showsNote (Client.searching st) = false
      /\ Client.showsError (Client.searching st) = false).
Proof.
  intros st'. subst st'. unfold Client.search, Client.settled.
  destruct (fetch _) as [|status payload]; simpl.
  - repeat split. right. right. repeat split.
  - destruct (Client.ok status); simpl.
    + destruct payload as [| |[items|]]; simpl.
      * repeat split. right. right. repeat split.
      * repeat split. right. right. repeat split.
      * repeat split. destruct items as [|it r].
        -- right. left. repeat split.
        -- left. repeat split. discriminate.
      * repeat split. right. left. repeat split.
    + repeat split. right. right. repeat split.
Qed.

(** X20.  Against the server, a search for an empty or blank code ends in
    the error box with "Could not load results. Make sure the server at port
    5175 is running.": the client reports the server's 400 as a server that
    does not run. *)
Theorem blank_search_reports_server_down
    (API_BASE : string) (fetch : string -> Client.fetched)
    (db : Store) (st : Client.State) :
  fetch (Client.searchUrl API_BASE (Client.code st))
  = onTheWire (snd (getEquivalents db (gtParam (Client.code st)))) ->
  isBlank (Client.code st) = true ->
  let st' := Client.search API_BASE fetch st in
  Client.error st' = Client.failureMessage
  /\ Client.results st' = []
  /\ Client.showsError st' = true
  /\ Client.showsNote st' = false.
Proof.
  intros Hnet Hb st'. subst st'. unfold Client.search. rewrite Hnet.
  unfold getEquivalents. rewrite (normalizeGT_blank _ Hb). simpl.
  repeat split.
Qed.

Lemma blank_search_reports_server_down_witness :
  let st := Client.setCode "  " Client.initialState in
  let fetch := fun _ : string =>
    onTheWire (snd (getEquivalents seededStore (gtParam (Client.code st)))) in
  isBlank (Client.code st) = true
  /\ Client.error (Client.search "http://localhost:5175" fetch st)
     = Client.failureMessage.
Proof.
  intros st fetch. split; [reflexivity|].
  apply (blank_search_reports_server_down "http://localhost:5175" fetch
           seededStore st eq_refl eq_refl).
Defined.

(** X21.  Against the server, a search for a code that is not blank (and
    whose capital form the strings can hold) ends without error, with
    exactly the items of the server's answer as results; the note "No
    results yet" appears exactly when the answer has no items, so also for a
    course that is unknown or has no equivalencies. *)
Theorem search_shows_server_items
    (API_BASE : string) (fetch : string -> Client.fetched)
    (db : Store) (st : Client.State) :
  fetch (Client.searchUrl API_BASE (Client.code st))
  = onTheWire (snd (getEquivalents db (gtParam (Client.code st)))) ->
  Js.upperFits (Client.code st) = true ->
  isBlank (Client.code st) = false ->
  let st' := Client.search API_BASE fetch st in
  exists items,
    snd (getEquivalents db (gtParam (Client.code st))) = Json items (List.length items)
    /\ Client.results st' = items
    /\ Client.error st' = EmptyString
    /\ Client.showsError st' = false
    /\ (Client.showsNote st' = true <-> items = []).
Proof.
  intros Hnet _ Hnb st'. subst st'. unfold Client.search. rewrite Hnet.
  apply normalizeGT_nonblank in Hnb. unfold getEquivalents.
  destruct (normalizeGT (gtParam (Client.code st))) as [|c r]; [contradiction|].
  destruct (selectGTCourse db (String c r)) as [g|]; simpl.
  - exists (selectEquivalents db (GTCourse.id g)). repeat split.
    + unfold Client.showsNote. simpl.
      destruct (selectEquivalents db (GTCourse.id g)); [reflexivity | discriminate].
    + intros ->. reflexivity.
  - exists []. repeat split.
Qed.

Lemma search_shows_server_items_witness :
  let st := Client.initialState in
  let fetch := fun _ : string =>
    onTheWire (snd (getEquivalents seededStore (gtParam (Client.code st)))) in
  Js.upperFits (Client.code st) = true
  /\ isBlank (Client.code st) = false
  /\ exists items,
       snd (getEquivalents seededStore (gtParam (Client.code st)))
       = Json items (List.length items)
       /\ Client.results (Client.search "http://localhost:5175" fetch st) = items
       /\ Client.error (Client.search "http://localhost:5175" fetch st) = EmptyString
       /\ Client.showsError (Client.search "http://localhost:5175" fetch st) = false
       /\ (Client.showsNote (Client.search "http://localhost:5175" fetch st) = true
           <-> items = []).
Proof.
  intros st fetch. split; [reflexivity|]. split; [reflexivity|].
  exact (search_shows_server_items "http://localhost:5175" fetch seededStore st
           eq_refl eq_refl eq_refl).
Defined.

Lemma encodeUnit_safe c :
  allChars (fun u => Client.unreserved u || Ascii.eqb u "%") (Client.encodeUnit c) = true.
Proof. destruct c as [[] [] [] [] [] [] [] []]; vm_compute; reflexivity. Qed.

Lemma encodeURIComponent_app a b :
  Client.encodeURIComponent (a ++ b)
  = Client.encodeURIComponent a ++ Client.encodeURIComponent b.
Proof.
  induction a as [|c r IH]; simpl; [reflexivity|].
  rewrite IH. induction (Client.encodeUnit c) as [|d s IHs]; simpl; [reflexivity|].
  now rewrite IHs.
Qed.

(** X22.  The query the client sends holds, after [gt=], only letters,
    digits, the marks [-_.!~*'()] and percent escapes, whatever was typed:
    no [&], [=], [#], [+] or space of the code reaches the URL as such.  A
    code of letters and digits is sent as it is, and a space inside a code
    is sent as [%20]. *)
Theorem search_url_is_escaped (API_BASE code : string) :
  Client.searchUrl API_BASE code
  = API_BASE ++ "/api/equivalents?gt=" ++ Client.encodeURIComponent code
  /\ allChars (fun u => Client.unreserved u || Ascii.eqb u "%")
              (Client.encodeURIComponent code) = true
  /\ allChars (fun u => negb (existsb (Ascii.eqb u) (list_ascii_of_string "&=#+ ?/")))
              (Client.encodeURIComponent code) = true
  /\ (allChars Client.unreserved code = true -> Client.encodeURIComponent code = code)
  /\ (forall a b, code = a ++ " " ++ b ->
        Client.encodeURIComponent code
        = Client.encodeURIComponent a ++ "%20" ++ Client.encodeURIComponent b).
Proof.
  assert (Hsafe : allChars (fun u => Client.unreserved u || Ascii.eqb u "%")
                    (Client.encodeURIComponent code) = true).
  { induction code as [|c r IH]; simpl; [reflexivity|].
    now rewrite allChars_app, encodeUnit_safe, IH. }
  split; [reflexivity|]. split; [exact Hsafe|]. split; [|split].
  - revert Hsafe. apply allChars_impl.
    intros c. destruct c as [[] [] [] [] [] [] [] []]; vm_compute; congruence.
  - clear Hsafe. induction code as [|c r IH]; simpl; [reflexivity|].
    rewrite andb_true_iff. intros [Hc Hr]. unfold Client.encodeUnit.
    rewrite Hc. simpl. now rewrite IH.
  - intros a b ->. now rewrite !encodeURIComponent_app.
Qed.

Lemma search_url_is_escaped_witness :
  allChars Client.unreserved "CS1331" = true
  /\ Client.searchUrl "http://localhost:5175" "CS1331"
     = "http://localhost:5175/api/equivalents?gt=CS1331"
  /\ Client.encodeURIComponent ("CS" ++ " " ++ "1331") = "CS%201331".
Proof.
  destruct (search_url_is_escaped "http://localhost:5175" "CS1331")
    as (E & _ & _ & Hid & _).
  split; [reflexivity|]. split.
  - rewrite E, (Hid eq_refl). reflexivity.
  - destruct (search_url_is_escaped "http://localhost:5175" ("CS" ++ " " ++ "1331"))
      as (_ & _ & _ & _ & Hsp).
    rewrite (Hsp "CS" "1331" eq_refl). reflexivity.
Defined.

(** X25.  Enter starts a search also while one is pending, and each search
    settles on the state as it is then: when Enter is pressed twice, the
    first request is answered with items and the second fails, the page
    ends with the cards of the first answer together with the error box,
    and it stopped loading when the first request settled, with the second
    still pending.  A click cannot do this: while a search is pending the
    button takes none. *)
Theorem enter_while_pending_overlaps (st : Client.State) (items : list Item) :
  let answered := Client.Settle (Client.Response 200 (Client.JsonData (Some items))) in
  let run := fold_left (fun s e => Client.step e s) in
  let st' := run [Client.KeyDown "Enter"; Client.KeyDown "Enter"; answered;
                  Client.Settle Client.NetworkError] st in
  Client.results st' = items
  /\ Client.error st' = Client.failureMessage
  /\ Client.showsError st' = true
  /\ Client.loading (run [Client.KeyDown "Enter"; Client.KeyDown "Enter"; answered] st)
     = false
  /\ run [Client.KeyDown "Enter"; Client.Click] st = run [Client.KeyDown "Enter"] st.
Proof. repeat split. Qed.
